(** * Clause extraction from a numbered standards document

    A shallow embedding of [src/extract_clauses.py]: line assembly, the noise
    filter, heading detection, the clause tree builder and the text
    reconstruction, the rows, the JSON values and the worksheet written
    from the clauses, and the snippet of [src/server.py], followed by the
    properties established about them.

    Modelling conventions.
    - Text is a [string]; the embedding is exact on ASCII text.  A character
      outside ASCII appears as its UTF-8 bytes, each of which is neither white
      space, nor a digit, nor a cased letter.
    - The source's floats (positions, font sizes, the bold ratio) are exact
      rationals [Q]; comparisons against the thresholds 14, 0.5, 1.5 and 18
      are comparisons of rationals.
    - Python objects that are shared and mutated (the clauses held both by
      [clause_by_id] and by a parent's [children] or the root list) live in a
      store keyed by identifier; [children] and the root list hold keys.
    - [Line.cleaned_text] sorts the chunks of the line in place.  The
      stateful reading is [Line.cleaned_text_st]; nothing the program reads
      of a line depends on the order of its chunks (lemma
      [sort_chunks_unobserved]), so the detector and the builder use the
      line as a value.
    - The loops over indices are loops over the lines at those indices;
      the while loop of [find_headings] takes fuel, and the length of the
      line list is always enough of it (lemma [find_headings_from_fuel]).
    - The file system and the layout engine are outside the program: whether
      the path exists and what the extraction yields are inputs of
      [extract_pdf_clauses].  Of the objects the layout engine hands over,
      [LTChar], [LTTextLine] and [LTPage] keep what the program reads of them.
    - The functions that walk a finished clause ([flatten_clauses],
      [Clause.to_dict]) follow [children] from object to object.  They are
      given a [ClauseTree], the clause with the clauses under it, which
      [tree_of] reads off the store; the fuel [tree_fuel] is always enough
      (lemma [tree_of_total]).
    - The loop of [column_letter] takes fuel: index + 1 turns are enough
      for an index that is not negative (lemma [column_letter_loop_spec]).
    - Integers are [Z], or [nat] where the program counts from 0 or 1.
      [int] of a literal raises beyond 4300 digits, the limit the
      interpreter sets by default and the program leaves as it is, so that
      [build_clauses] does not return on a root identifier with such a
      part.  [str] of an integer is its decimal notation; the same limit
      on it lies beyond the levels and row numbers of any list.
    - The resources of the interpreter are outside the model: memory, and
      the depth of the recursion of [flatten_clauses] and [Clause.to_dict],
      one call for each level of the clauses. *)

From Stdlib Require Import ZArith QArith Ascii String Lia Sorted.
From Stdlib Require Import DecimalString DecimalPos DecimalZ.
From stdpp Require Import gmap strings list fin_maps.

Local Open Scope bool_scope.

(** ** Python's string primitives *)

Module Py.

Definition code (c : ascii) : N := N_of_ascii c.

(** [str.isspace] on one character, also the class [\s]. *)
Definition isspace (c : ascii) : bool :=
  ((9 <=? code c) && (code c <=? 13) || (28 <=? code c) && (code c <=? 32))%N.

(** [str.isdigit] on one character, also the class [\d]. *)
Definition isdigit (c : ascii) : bool :=
  ((48 <=? code c) && (code c <=? 57))%N.

Definition islower (c : ascii) : bool :=
  ((97 <=? code c) && (code c <=? 122))%N.

Definition isupper (c : ascii) : bool :=
  ((65 <=? code c) && (code c <=? 90))%N.

(** [str.lower] on one character. *)
Definition lower (c : ascii) : ascii :=
  if isupper c then ascii_of_N (code c + 32) else c.

Definition eqc (a b : ascii) : bool := Ascii.eqb a b.

Definition is_empty (s : string) : bool :=
  match s with EmptyString => true | String _ _ => false end.

(** [s.lstrip()], [s.rstrip()], [s.strip()]. *)
Fixpoint lstrip (s : string) : string :=
  match s with
  | String c s' => if isspace c then lstrip s' else s
  | EmptyString => EmptyString
  end.

Fixpoint rstrip (s : string) : string :=
  match s with
  | String c s' =>
      match rstrip s' with
      | EmptyString => if isspace c then EmptyString else String c EmptyString
      | r => String c r
      end
  | EmptyString => EmptyString
  end.

Definition strip (s : string) : string := rstrip (lstrip s).

(** [s.split()]: the maximal runs of characters that are not white space.
    [cur] holds the run being read, [None] between runs. *)
Fixpoint split_go (cur : option string) (s : string) : list string :=
  match s with
  | String c s' =>
      if isspace c
      then match cur with
           | Some w => w :: split_go None s'
           | None => split_go None s'
           end
      else split_go (Some (match cur with
                           | Some w => w +:+ String c EmptyString
                           | None => String c EmptyString
                           end)) s'
  | EmptyString => match cur with Some w => [w] | None => [] end
  end.

Definition split (s : string) : list string := split_go None s.

(** [sep.join(parts)]. *)
Fixpoint join (sep : string) (parts : list string) : string :=
  match parts with
  | [] => EmptyString
  | [p] => p
  | p :: rest => p +:+ sep +:+ join sep rest
  end.

(** [s.startswith(p)]. *)
Fixpoint startswith (s p : string) {struct p} : bool :=
  match p, s with
  | EmptyString, _ => true
  | String a p', String b s' => eqc a b && startswith s' p'
  | String _ _, EmptyString => false
  end.

(** [sub in s]. *)
Fixpoint contains (sub s : string) : bool :=
  startswith s sub ||
  match s with
  | String _ s' => contains sub s'
  | EmptyString => false
  end.

(** [ch in s] for a single character. *)
Fixpoint mem (ch : ascii) (s : string) : bool :=
  match s with
  | String c s' => eqc ch c || mem ch s'
  | EmptyString => false
  end.

(** [s.count(ch)] for a single character. *)
Fixpoint count (ch : ascii) (s : string) : nat :=
  match s with
  | String c s' => (if eqc ch c then 1 else 0) + count ch s'
  | EmptyString => 0
  end.

(** [s.split(ch)] for a single separator character: never empty. *)
Fixpoint split_on (ch : ascii) (s : string) : list string :=
  match s with
  | String c s' =>
      if eqc ch c then EmptyString :: split_on ch s'
      else match split_on ch s' with
           | p :: rest => String c p :: rest
           | [] => [String c EmptyString]
           end
  | EmptyString => [EmptyString]
  end.

(** [parts[:-1]]. *)
Fixpoint init {A} (l : list A) : list A :=
  match l with
  | [] => []
  | [_] => []
  | x :: rest => x :: init rest
  end.

(** [s.isdigit()]: every character is a digit and there is at least one. *)
Fixpoint all_digits (s : string) : bool :=
  match s with
  | String c s' => isdigit c && all_digits s'
  | EmptyString => true
  end.

Definition str_isdigit (s : string) : bool :=
  negb (is_empty s) && all_digits s.

(** [s.endswith(ch)] for a single character. *)
Fixpoint endswith (s : string) (ch : ascii) : bool :=
  match s with
  | String c EmptyString => eqc c ch
  | String _ s' => endswith s' ch
  | EmptyString => false
  end.

(** [s[:-1]]. *)
Fixpoint drop_last (s : string) : string :=
  match s with
  | String _ EmptyString => EmptyString
  | String c s' => String c (drop_last s')
  | EmptyString => EmptyString
  end.

(** [sys.int_info.default_max_str_digits]: the program leaves the limit
    of the interpreter on the digits of a converted literal as it is. *)
Definition max_str_digits : nat := 4300.

(** [int(s)] on a decimal literal: the value of a non-empty string of at
    most [max_str_digits] digits.  [None] stands for [ValueError], raised
    on a literal that is no such string of digits and on one with more
    digits than the limit; the signed, padded and underscored literals
    that [int] also reads are not modelled, and no identifier produced by
    the heading pattern is one of them. *)
Fixpoint int_go (acc : N) (s : string) : option N :=
  match s with
  | String c s' =>
      if isdigit c then int_go (10 * acc + (code c - 48))%N s' else None
  | EmptyString => Some acc
  end.

Definition int (s : string) : option N :=
  if is_empty s then None
  else if max_str_digits <? String.length s then None
  else int_go 0%N s.

(** The number of digits [int] counts before it converts: the digits the
    literal starts with. *)
Fixpoint digit_run (s : string) : nat :=
  match s with
  | String c s' => if isdigit c then S (digit_run s') else 0
  | EmptyString => 0
  end.

(** [l.sort(key=key)]: the sort is stable and compares keys with [<]
    only, here [lt].  An element is put before the first element of the
    sorted rest whose key is not below its own. *)
Section Sort.
Context {A K : Type} (key : A -> K) (lt : K -> K -> bool).

Fixpoint sort_insert (x : A) (sorted : list A) : list A :=
  match sorted with
  | d :: rest =>
      if lt (key d) (key x) then d :: sort_insert x rest else x :: sorted
  | [] => [x]
  end.

Fixpoint sort (l : list A) : list A :=
  match l with
  | x :: rest => sort_insert x (sort rest)
  | [] => []
  end.
End Sort.

End Py.

(** ** Rational comparisons standing for the float comparisons *)

Definition Qleb (x y : Q) : bool := Qle_bool x y.
Definition Qltb (x y : Q) : bool := negb (Qle_bool y x).

(** ** The regular expressions *)

Module Re.
Import Py.

Definition dot : ascii := "."%char.
Definition hyphen : ascii := "-"%char.
Definition newline : ascii := "010"%char.

(** The longest prefix of characters in the class [p], and what follows. *)
Fixpoint span (p : ascii -> bool) (s : string) : string * string :=
  match s with
  | String c s' =>
      if p c then let '(a, r) := span p s' in (String c a, r)
      else (EmptyString, s)
  | EmptyString => (EmptyString, EmptyString)
  end.

(** [\d*(?:\.\d+)*], read greedily after a first digit: a dot is taken
    only when a digit follows it. *)
Fixpoint ident_tail (s : string) : string * string :=
  match s with
  | String c s' =>
      if isdigit c then let '(a, r) := ident_tail s' in (String c a, r)
      else if eqc c dot then
        match s' with
        | String d s'' =>
            if isdigit d
            then let '(a, r) := ident_tail s'' in (String c (String d a), r)
            else (EmptyString, s)
        | EmptyString => (EmptyString, s)
        end
      else (EmptyString, s)
  | EmptyString => (EmptyString, EmptyString)
  end.

(** [$] matches at the end of the text and before a final newline. *)
Definition at_end (s : string) : bool :=
  match s with
  | EmptyString => true
  | String c EmptyString => eqc c newline
  | String _ (String _ _) => false
  end.

(** The text without one final newline. *)
Fixpoint chomp (s : string) : string :=
  match s with
  | String c EmptyString => if eqc c newline then EmptyString else s
  | String c s' => String c (chomp s')
  | EmptyString => EmptyString
  end.

Fixpoint last_not_space (s : string) : bool :=
  match s with
  | String c EmptyString => negb (isspace c)
  | String _ s' => last_not_space s'
  | EmptyString => false
  end.

(** [(.*\S)$]: characters other than newline, the last one not white
    space, up to the end or to a final newline. *)
Definition title_group (r : string) : option string :=
  let m := chomp r in
  if negb (mem newline m) && last_not_space m then Some m else None.

(** [HEADING_RE.match(text)] for
    [^( \d+ (?: \. \d+ )* ) (?: \s+ ( .* \S ) )? $] (written here with
    blanks between its parts): groups 1 and 2 of the match.
    What follows the identifier starts with neither a digit nor a dot
    followed by a digit, so no shorter identifier can match; likewise
    the run read for [\s+] is the longest one. *)
Definition HEADING_RE_match (text : string) : option (string * option string) :=
  match text with
  | String c s' =>
      if isdigit c then
        let '(a, rest) := ident_tail s' in
        let identifier := String c a in
        if at_end rest then Some (identifier, None)
        else
          let '(w, r) := span isspace rest in
          if is_empty w then None
          else match title_group r with
               | Some m => Some (identifier, Some m)
               | None => None
               end
      else None
  | EmptyString => None
  end.

Definition matches (text : string) : bool :=
  match HEADING_RE_match text with Some _ => true | None => false end.

(** A literal prefix under [re.IGNORECASE]. *)
Fixpoint istartswith (s p : string) {struct p} : bool :=
  match p, s with
  | EmptyString, _ => true
  | String a p', String b s' => eqc (lower a) (lower b) && istartswith s' p'
  | String _ _, EmptyString => false
  end.

(** [s] without the prefix [p], when it has it. *)
Fixpoint after_prefix (p s : string) : option string :=
  match p, s with
  | EmptyString, _ => Some s
  | String a p', String b s' => if eqc a b then after_prefix p' s' else None
  | String _ _, EmptyString => None
  end.

(** The en dash U+2013 and the bullet U+2022, in UTF-8. *)
Definition en_dash : string :=
  String (ascii_of_N 226) (String (ascii_of_N 128) (String (ascii_of_N 147) EmptyString)).
Definition bullet : string :=
  String (ascii_of_N 226) (String (ascii_of_N 128) (String (ascii_of_N 162) EmptyString)).

(** [^–\s*\d+\s*–], searched: the anchor leaves only position 0. *)
Definition page_banner (s : string) : bool :=
  match after_prefix en_dash s with
  | Some r =>
      let '(_, r1) := span isspace r in
      let '(d, r2) := span isdigit r1 in
      let '(_, r3) := span isspace r2 in
      negb (is_empty d) && startswith r3 en_dash
  | None => false
  end.

(** The class [[`',.-]]. *)
Definition is_separator (c : ascii) : bool :=
  eqc c "`"%char || eqc c "'"%char || eqc c ","%char || eqc c dot || eqc c hyphen.

(** [^--[`',.-]{5,}], searched. *)
Definition separator_run (s : string) : bool :=
  match after_prefix "--" s with
  | Some r => let '(run, _) := span is_separator r in 5 <=? String.length run
  | None => false
  end.

End Re.

(** [SKIP_PATTERNS], each as its [search] on a text: nine literal
    prefixes compiled with [re.IGNORECASE], the page banner and the
    separator run.  Every pattern starts with [^], so a search matches at
    the start of the text or not at all. *)
Definition SKIP_PATTERNS : list (string -> bool) :=
  [ (fun s => Re.istartswith s "copyright british standards institution");
    (fun s => Re.istartswith s "provided by accuris");
    (fun s => Re.istartswith s "licensee=");
    (fun s => Re.istartswith s "not for resale");
    (fun s => Re.istartswith s "no reproduction or networking permitted");
    (fun s => Re.istartswith s "bs en ");
    (fun s => Re.istartswith s "iec 61513");
    (fun s => Re.istartswith s "61513");
    (fun s => Re.istartswith s "raising standards worldwide");
    Re.page_banner;
    Re.separator_run ].

(** ** The data model *)

Module TextChunk.
Record t := mk {
  page : Z;
  top : Q;
  left : Q;
  width : Q;
  text : string;
  font_size : Q;
  is_bold : bool
}.
End TextChunk.

Module Line.
Import Py.

Record t := mk {
  page : Z;
  top : Q;
  chunks : list TextChunk.t
}.

(** [chunks.sort(key=lambda c: c.left)] *)
Definition sorted_chunks (cs : list TextChunk.t) : list TextChunk.t :=
  sort TextChunk.left Qltb cs.

(** [sort_chunks] reorders the line's own list. *)
Definition sort_chunks (l : t) : t :=
  mk (page l) (top l) (sorted_chunks (chunks l)).

(** The loop of [text]: [parts] in order, given [last_right]. *)
Fixpoint text_parts (last_right : option Q) (cs : list TextChunk.t) : list string :=
  match cs with
  | chunk :: rest =>
      if is_empty (TextChunk.text chunk) then text_parts last_right rest
      else
        (match last_right with
         | Some r =>
             if Qltb (3 # 2)%Q (TextChunk.left chunk - r)%Q then [" "] else []
         | None => []
         end)
        ++ TextChunk.text chunk
        :: text_parts (Some (TextChunk.left chunk + TextChunk.width chunk)%Q) rest
  | [] => []
  end.

(** [text] with the reordering it leaves behind in the line. *)
Definition text_st (l : t) : string * t :=
  let l' := sort_chunks l in
  (join "" (text_parts None (chunks l')), l').

Definition text (l : t) : string := fst (text_st l).

Definition cleaned_text_st (l : t) : string * t :=
  let '(raw, l') := text_st l in (join " " (split raw), l').

Definition cleaned_text (l : t) : string := fst (cleaned_text_st l).

(** [max(..., default=0.0)] *)
Definition max_font_size (l : t) : Q :=
  match chunks l with
  | c :: rest =>
      foldl (fun m d => if Qltb m (TextChunk.font_size d) then TextChunk.font_size d else m)
            (TextChunk.font_size c) rest
  | [] => 0%Q
  end.

Definition stripped_len (c : TextChunk.t) : nat :=
  String.length (strip (TextChunk.text c)).

Definition has_text (c : TextChunk.t) : bool :=
  negb (is_empty (strip (TextChunk.text c))).

Definition bold_ratio (l : t) : Q :=
  let total := sum_list (stripped_len <$> filter (fun c => has_text c = true) (chunks l)) in
  if (total =? 0)%nat then 0%Q
  else
    let bold := sum_list (stripped_len <$>
                  filter (fun c => TextChunk.is_bold c && has_text c = true) (chunks l)) in
    (Z.of_nat bold # Pos.of_nat total)%Q.

End Line.

Record Heading := mkHeading {
  identifier : string;
  title : string;
  line_index : nat;
  line_count : nat
}.

Module Clause.
Import Py.

(** [children] holds the identifiers of the child clauses: every clause
    is created once per identifier and is reached through [clause_by_id]. *)
Record t := mk {
  identifier : string;
  title : string;
  body_lines : list string;
  children : list string
}.

Definition add_line (line : string) (c : t) : t :=
  mk (identifier c) (title c) (body_lines c ++ [line]) (children c).

Definition add_child (child : string) (c : t) : t :=
  mk (identifier c) (title c) (body_lines c) (children c ++ [child]).

Definition first_islower (line : string) : bool :=
  match line with
  | String c _ => islower c
  | EmptyString => false
  end.

(** [" ".join(buffer).strip()] *)
Definition paragraph (buffer : list string) : string :=
  strip (join " " buffer).

(** One turn of the loop of [text] on the state [(paragraphs, buffer)]. *)
Definition text_step (st : list string * list string) (line : string)
  : list string * list string :=
  let '(paragraphs, buffer) := st in
  if is_empty line then
    match buffer with
    | [] => (paragraphs, buffer)
    | _ :: _ => (paragraphs ++ [paragraph buffer], [])
    end
  else
    match last buffer with
    | Some b =>
        if endswith b Re.hyphen && first_islower line
        then (paragraphs, init buffer ++ [drop_last b +:+ line])
        else (paragraphs, buffer ++ [line])
    | None => (paragraphs, buffer ++ [line])
    end.

(** The paragraphs of [text], before they are joined. *)
Definition paragraphs_of (body : list string) : list string :=
  let '(paragraphs, buffer) := foldl text_step ([], []) body in
  let paragraphs :=
    match buffer with
    | [] => paragraphs
    | _ :: _ => paragraphs ++ [paragraph buffer]
    end in
  filter (fun p => is_empty p = false) paragraphs.

Definition blank_line : string := String Re.newline (String Re.newline EmptyString).

Definition text_of (body : list string) : string :=
  join blank_line (paragraphs_of body).

Definition text (c : t) : string := text_of (body_lines c).

Global Instance inhabited : Inhabited t := populate (mk "" "" [] []).
End Clause.

(** ** The noise filter *)

Definition should_skip_line (text : string) : bool :=
  let stripped := Py.strip text in
  if Py.is_empty stripped then false
  else if Py.contains "..." stripped && Py.str_isdigit (List.last (Py.split stripped) "")
  then true
  else if Py.contains "--```" stripped then true
  else existsb (fun pattern => pattern stripped) SKIP_PATTERNS.

Definition looks_like_fragment (line : Line.t) (text : string) : bool :=
  if Py.is_empty text then false
  else if Qltb 0 (Line.bold_ratio line) then false
  else if existsb (Py.startswith text) [Re.bullet; Re.en_dash; "-"; "("; ")"] then false
  else if existsb (fun ch => Py.mem ch text) (list_ascii_of_string ".,;:!?") then false
  else
    let words := Py.split text in
    if length words <=? 1 then false else length words <=? 6.

(** The noise filter as [build_clauses] applies it to a line: the verdict
    (true when the line is dropped) and the line as the call leaves it,
    its chunks reordered by [cleaned_text]. *)
Definition noise_filter_st (line : Line.t) : bool * Line.t :=
  let '(text, line') := Line.cleaned_text_st line in
  (should_skip_line text || looks_like_fragment line' text, line').

(** The line as the filter leaves it, when the filter keeps it. *)
Definition noise_keep (line : Line.t) : option Line.t :=
  let '(dropped, line') := noise_filter_st line in
  if dropped then None else Some line'.

(** The lines a pass of the filter keeps, as that pass leaves them. *)
Definition noise_filter (lines : list Line.t) : list Line.t :=
  omap noise_keep lines.

(** ** The heading detector *)

(** [max_font_size() >= 14 and bold_ratio() >= 0.5] *)
Definition prominent (line : Line.t) : bool :=
  Qleb 14 (Line.max_font_size line) && Qleb (1 # 2) (Line.bold_ratio line).

(** [max_font_size() < 14 or bold_ratio() < 0.5] *)
Definition below_threshold (line : Line.t) : bool :=
  Qltb (Line.max_font_size line) 14 || Qltb (Line.bold_ratio line) (1 # 2).

(** The inner loop of [find_headings] over [lines[j:]]: the title parts
    read and the number of lines consumed. *)
Fixpoint lookahead (candidates : list Line.t) (title_parts : list string) (consumed : nat)
  : list string * nat :=
  match candidates with
  | candidate :: rest =>
      let candidate_text := Line.cleaned_text candidate in
      if Py.is_empty candidate_text then lookahead rest title_parts (consumed + 1)
      else if prominent candidate then
        if Re.matches candidate_text then (title_parts, consumed)
        else lookahead rest (title_parts ++ [candidate_text]) (consumed + 1)
      else (title_parts, consumed)
  | [] => (title_parts, consumed)
  end.

(** The title of a candidate at line [i] and the number of lines it
    consumes: the remainder of its own line or, when that is empty, what
    the lookahead over the following lines collects. *)
Definition read_title (lines : list Line.t) (i : nat) (group2 : option string)
  : string * nat :=
  let remainder := Py.strip (default "" group2) in
  if Py.is_empty remainder then
    let '(title_parts, consumed) := lookahead (drop (i + 1) lines) [] 1 in
    (Py.strip (Py.join " " title_parts), consumed)
  else (remainder, 1).

(** What one turn of the outer loop decides at a line. *)
Inductive Scan :=
| Pass                                   (* [i += 1] *)
| Discard (consumed : nat)               (* [i += consumed], nothing emitted *)
| Emit (h : Heading).                    (* a heading, then [i += line_count] *)

Definition scan_line (lines : list Line.t) (i : nat) (line : Line.t) : Scan :=
  let text := Line.cleaned_text line in
  if Py.is_empty text then Pass
  else
    match Re.HEADING_RE_match text with
    | None => Pass
    | Some (identifier, group2) =>
        if below_threshold line then Pass
        else
          let '(title, consumed) := read_title lines i group2 in
          if Py.is_empty title && negb (Py.mem Re.dot identifier)
          then Discard consumed
          else Emit (mkHeading identifier title i consumed)
    end.

(** The outer loop from index [i]; every turn advances [i], so [fuel] at
    least [length lines - i] is never exhausted. *)
Fixpoint find_headings_from (fuel : nat) (lines : list Line.t) (i : nat) : list Heading :=
  match fuel with
  | S fuel' =>
      match lines !! i with
      | Some line =>
          match scan_line lines i line with
          | Pass => find_headings_from fuel' lines (i + 1)
          | Discard consumed => find_headings_from fuel' lines (i + consumed)
          | Emit h => h :: find_headings_from fuel' lines (i + line_count h)
          end
      | None => []
      end
  | O => []
  end.

Definition find_headings (lines : list Line.t) : list Heading :=
  find_headings_from (length lines) lines 0.

(** ** The clause tree builder *)

(** The loop state of [build_clauses]: the root list [clauses] (holding
    identifiers) and the dictionary [clause_by_id]. *)
Record BuildState := mkState {
  clauses : list string;
  clause_by_id : gmap string Clause.t
}.

(** [".".join(identifier.split(".")[:-1])] *)
Definition parent_identifier (identifier : string) : string :=
  Py.join "." (Py.init (Py.split_on Re.dot identifier)).

(** [prev_top or line.top]: a float is false exactly when it is zero. *)
Definition prev_top_or (prev_top : option Q) (top : Q) : Q :=
  match prev_top with
  | Some t => if Qeq_bool t 0 then top else t
  | None => top
  end.

(** The loop over [range(start, end)], on the lines [lines[start:end]],
    acting on the clause being filled. *)
Fixpoint body_loop (body : list Line.t) (prev_top : option Q) (prev_page : option Z)
    (clause : Clause.t) : Clause.t :=
  match body with
  | line :: rest =>
      let text := Line.cleaned_text line in
      if should_skip_line text then body_loop rest prev_top prev_page clause
      else if Re.matches text then body_loop rest prev_top prev_page clause
      else if looks_like_fragment line text then body_loop rest prev_top prev_page clause
      else
        let clause :=
          match prev_page with
          | Some page =>
              if negb (Line.page line =? page)%Z
                 || Qltb 18 (Line.top line - prev_top_or prev_top (Line.top line))%Q
              then Clause.add_line "" clause
              else clause
          | None => clause
          end in
        let clause :=
          if Py.is_empty text then Clause.add_line "" clause
          else Clause.add_line text clause in
        body_loop rest (Some (Line.top line)) (Some (Line.page line)) clause
  | [] => clause
  end.

(** [lines[start:end]] *)
Definition slice (lines : list Line.t) (start end_ : nat) : list Line.t :=
  take (end_ - start) (drop start lines).

(** Where the new clause is hung: under its parent, or among the roots. *)
Definition attach (identifier : string) (st : BuildState) : BuildState :=
  if Py.mem Re.dot identifier then
    let parent_id := parent_identifier identifier in
    match clause_by_id st !! parent_id with
    | Some _ =>
        mkState (clauses st) (alter (Clause.add_child identifier) parent_id (clause_by_id st))
    | None => mkState (clauses st ++ [identifier]) (clause_by_id st)
    end
  else mkState (clauses st ++ [identifier]) (clause_by_id st).

(** One turn of the loop over [enumerate(headings)]; [rest] holds the
    headings after this one, so [headings[idx + 1]] is its head. *)
Definition build_step (lines : list Line.t) (heading : Heading) (rest : list Heading)
    (st : BuildState) : BuildState :=
  match clause_by_id st !! identifier heading with
  | Some _ => st
  | None =>
      let clause := Clause.mk (identifier heading) (title heading) [] [] in
      let st := attach (identifier heading)
                  (mkState (clauses st) (<[identifier heading := clause]> (clause_by_id st))) in
      let start := line_index heading + line_count heading in
      let end_ := match rest with
                  | next :: _ => line_index next
                  | [] => length lines
                  end in
      mkState (clauses st)
        (alter (body_loop (slice lines start end_) None None)
               (identifier heading) (clause_by_id st))
  end.

Fixpoint build_loop (lines : list Line.t) (headings : list Heading) (st : BuildState)
  : BuildState :=
  match headings with
  | heading :: rest => build_loop lines rest (build_step lines heading rest st)
  | [] => st
  end.

(** The state when the loop of [build_clauses] ends. *)
Definition build_state (lines : list Line.t) : BuildState :=
  build_loop lines (find_headings lines) (mkState [] ∅).

(** The condition of the comprehension that selects [ordered_clauses]. *)
Definition kept_root (identifier : string) : bool :=
  negb (Py.mem Re.dot identifier)
  || (Py.count Re.dot identifier =? length (Py.split_on Re.dot identifier) - 1).

(** The sort key [[int(part) for part in identifier.split(".")]]. *)
Definition sort_key (identifier : string) : option (list N) :=
  mapM Py.int (Py.split_on Re.dot identifier).

(** [a < b] on lists of integers. *)
Fixpoint key_lt (a b : list N) : bool :=
  match a, b with
  | x :: a', y :: b' => if (x =? y)%N then key_lt a' b' else (x <? y)%N
  | [], _ :: _ => true
  | _, [] => false
  end.

(** The identifiers of [ordered_clauses], sorted on the keys computed
    for them; [None] is the [ValueError] of [int], raised while the keys
    are computed. *)
Definition ordered_roots (roots : list string) : option (list string) :=
  let kept := filter (fun id => kept_root id = true) roots in
  match mapM sort_key kept with
  | Some keys => Some (snd <$> Py.sort fst key_lt (zip keys kept))
  | None => None
  end.

(** [build_clauses]: the root clauses in their final state; [None] when
    the sort raises. *)
Definition build_clauses (lines : list Line.t) : option (list Clause.t) :=
  let st := build_state lines in
  match ordered_roots (clauses st) with
  | Some ordered => Some ((fun id => clause_by_id st !!! id) <$> ordered)
  | None => None
  end.

(** ** The entry point *)

(** [str(n)] for an integer. *)
Definition str (n : Z) : string := NilZero.string_of_int (Z.to_int n).

(** The message of the [ValueError] of [int] on a literal of more than
    [max_str_digits] digits. *)
Definition limit_message (digits : nat) : string :=
  "Exceeds the limit (4300 digits) for integer string conversion: value has "
  +:+ str (Z.of_nat digits)
  +:+ " digits; use sys.set_int_max_str_digits() to increase the limit".

(** The message of the [ValueError] that [int(s)] raises when it raises:
    the limit is tested before the literal is read to its end.  The
    literal is shown between single quotes, which is what the message
    holds of [repr(s)] for a text of less than 200 characters without
    quotes, backslashes and control characters. *)
Definition int_error (s : string) : string :=
  if Py.max_str_digits <? Py.digit_run s then limit_message (Py.digit_run s)
  else "invalid literal for int() with base 10: '" +:+ s +:+ "'".

(** The parts of the identifiers in the order in which the sort computes
    their keys, and the first of them on which [int] raises. *)
Definition key_parts (roots : list string) : list string :=
  concat (Py.split_on Re.dot <$> filter (fun id => kept_root id = true) roots).

Definition failing_part (roots : list string) : option string :=
  List.find (fun part => match Py.int part with None => true | Some _ => false end)
            (key_parts roots).

(** The message of the [ValueError] with which [build_clauses] ends when
    it does not return. *)
Definition build_clauses_error (lines : list Line.t) : string :=
  int_error (default "" (failing_part (clauses (build_state lines)))).

Inductive Error :=
| FileNotFoundError
| PermissionError (msg : string)
| ValueError (msg : string).

(** What [extract_lines_from_pdf] does on an existing file: the layout
    engine is outside the program, and its outcome is an input here. *)
Inductive Extraction :=
| Extracted (lines : list Line.t)
| PDFTextExtractionNotAllowed
| PDFSyntaxError (exc : string).

Definition extract_pdf_clauses (path_exists : bool) (extraction : Extraction)
  : Error + list Clause.t :=
  if negb path_exists then inl FileNotFoundError
  else
    match extraction with
    | PDFTextExtractionNotAllowed =>
        inl (PermissionError "Text extraction is not permitted for this PDF.")
    | PDFSyntaxError exc =>
        inl (ValueError ("Failed to parse PDF structure: " +:+ exc))
    | Extracted lines =>
        match lines with
        | [] => inl (ValueError "No text extracted from PDF.")
        | _ :: _ =>
            match build_clauses lines with
            | None => inl (ValueError (build_clauses_error lines))
            | Some [] => inl (ValueError "No clauses were detected in the document.")
            | Some (c :: cs) => inr (c :: cs)
            end
        end
    end.

(** ** Notions used to state the properties *)

(** A text that starts with a character other than white space. *)
Definition starts_solid (s : string) : bool :=
  match s with
  | String c _ => negb (Py.isspace c)
  | EmptyString => false
  end.

(** The number of lines one turn of the outer loop advances by. *)
Definition scan_span (s : Scan) : nat :=
  match s with
  | Pass => 1
  | Discard consumed => consumed
  | Emit h => line_count h
  end.

(** A line the lookahead reads past: blank, or prominent without being a
    heading line itself. *)
Definition passed_over (c : Line.t) : Prop :=
  Py.is_empty (Line.cleaned_text c) = true
  ∨ (prominent c = true ∧ Re.matches (Line.cleaned_text c) = false).

(** The headings the loop finds from index [i] on. *)
Definition headings_from (lines : list Line.t) (i : nat) : list Heading :=
  find_headings_from (length lines) lines i.

(** Spans at least one line long, inside the first [total] lines, each
    starting at or after the end of the one before, from [lo] on. *)
Fixpoint spans_ok (total lo : nat) (hs : list Heading) : Prop :=
  match hs with
  | h :: rest =>
      lo ≤ line_index h ∧ 1 ≤ line_count h
      ∧ line_index h + line_count h ≤ total
      ∧ spans_ok total (line_index h + line_count h) rest
  | [] => True
  end.


(** The lines [body_loop] appends, starting from the state
    [(prev_top, prev_page)]. *)
Definition appended (body : list Line.t) (prev_top : option Q) (prev_page : option Z)
  : list string :=
  Clause.body_lines (body_loop body prev_top prev_page (Clause.mk "" "" [] [])).

(** The body lines collected for a heading from the range after it. *)
Definition collected (body : list Line.t) : list string := appended body None None.

(** Where the range of a heading ends, given the headings after it. *)
Definition body_end (lines : list Line.t) (rest : list Heading) : nat :=
  match rest with
  | next :: _ => line_index next
  | [] => length lines
  end.

(** The loop of [build_clauses] over the first headings [hs] of the list
    [hs ++ tail]. *)
Fixpoint build_prefix (lines : list Line.t) (hs tail : list Heading) (st : BuildState)
  : BuildState :=
  match hs with
  | h :: rest => build_prefix lines rest tail (build_step lines h (rest ++ tail) st)
  | [] => st
  end.

(** The state reached from the empty one is well formed: each clause is
    filed under its own identifier, the roots are clauses of the store, and
    a child is a clause of the store, whose parent identifier is the key of
    the clause that holds it. *)
Record well_formed (st : BuildState) : Prop := {
  wf_identifier :
    ∀ k c, clause_by_id st !! k = Some c → Clause.identifier c = k;
  wf_roots :
    ∀ r, r ∈ clauses st → is_Some (clause_by_id st !! r);
  wf_children :
    ∀ k p c, clause_by_id st !! k = Some p → c ∈ Clause.children p →
             k = parent_identifier c ∧ is_Some (clause_by_id st !! c)
}.

(** [st'] is a later state than [st]: clauses stay, with their
    identifier, title and body, and a clause of [st] is a root or a child
    in [st'] exactly where it is one in [st]. *)
Record later_state (st st' : BuildState) : Prop := {
  later_clause :
    ∀ k c, clause_by_id st !! k = Some c →
           ∃ c', clause_by_id st' !! k = Some c'
                 ∧ Clause.identifier c' = Clause.identifier c
                 ∧ Clause.title c' = Clause.title c
                 ∧ Clause.body_lines c' = Clause.body_lines c;
  later_roots :
    ∀ x, is_Some (clause_by_id st !! x) → (x ∈ clauses st' ↔ x ∈ clauses st);
  later_children :
    ∀ x k c', is_Some (clause_by_id st !! x) → clause_by_id st' !! k = Some c' →
              (x ∈ Clause.children c'
               ↔ ∃ c, clause_by_id st !! k = Some c ∧ x ∈ Clause.children c)
}.

(** What may follow the first digit of an identifier. *)
Inductive ident_rest : string → Prop :=
| ident_rest_nil : ident_rest EmptyString
| ident_rest_digit c a :
    Py.isdigit c = true → ident_rest a → ident_rest (String c a)
| ident_rest_dot d a :
    Py.isdigit d = true → ident_rest a → ident_rest (String Re.dot (String d a)).

(** A part of an identifier: digits, at least one. *)
Definition digit_part (p : string) : Prop :=
  Py.is_empty p = false ∧ Py.all_digits p = true.

(** An identifier none of whose parts has more digits than [int] converts. *)
Definition within_limit (identifier : string) : Prop :=
  Forall (fun p => String.length p ≤ Py.max_str_digits) (Py.split_on Re.dot identifier).

(** The clause a turn creates, once its body is read. *)
Definition filled (lines : list Line.t) (h : Heading) (rest : list Heading) : Clause.t :=
  body_loop (slice lines (line_index h + line_count h) (body_end lines rest))
            None None (Clause.mk (identifier h) (title h) [] []).

(** Whether a turn hangs the new clause under its parent. *)
Definition attaches (h : Heading) (st : BuildState) : bool :=
  Py.mem Re.dot (identifier h)
  && bool_decide (is_Some (clause_by_id st !! parent_identifier (identifier h))).

(** A list in which no element has a key below the key of an earlier one. *)
Definition key_sorted {A K : Type} (key : A → K) (lt : K → K → bool) (l : list A) : Prop :=
  StronglySorted (fun x y => lt (key y) (key x) = false) l.

(** ** Sample documents *)

(** A line made of a single chunk. *)
Definition one_chunk (page : Z) (top : Q) (text : string) (font_size : Q) (is_bold : bool)
  : Line.t :=
  Line.mk page top [TextChunk.mk page top 72 300 text font_size is_bold].

(** A line in 12 point type whose first chunk only is bold: its text
    matches the heading pattern, its bold ratio is 1/5. *)
Definition faint_numbered_line : Line.t :=
  Line.mk 1 130 [ TextChunk.mk 1 130 72 6 "4" 12 true;
                  TextChunk.mk 1 130 90 30 "Abcd" 12 false ].

Definition gated_lines : list Line.t :=
  [ one_chunk 1 100 "3 Scope" 16 true;
    faint_numbered_line;
    one_chunk 1 160 "5 Terms" 16 true ].

Definition nested_lines : list Line.t :=
  [ one_chunk 1 100 "3.2 Scope" 16 true;
    one_chunk 1 130 "3.2.1 Detail" 15 true;
    one_chunk 1 160 "Body of the detail clause." 11 false ].

Definition unordered_lines : list Line.t :=
  [ one_chunk 1 100 "4.10 Tenth" 16 true;
    one_chunk 1 130 "4.9 Ninth" 16 true;
    one_chunk 1 160 "4.2 Second" 16 true ].

Definition bare_number_lines : list Line.t :=
  [ one_chunk 1 700 "7" 16 true;
    one_chunk 2 40 "Ordinary text, set in the body font." 11 false ].

(** The three lines of the end-to-end example of the specification. *)
Definition safety_lines : list Line.t :=
  [ one_chunk 1 100 "4  Safety requirements" 16 true;
    one_chunk 1 130 "4.1  General" 15 true;
    one_chunk 1 160 "This clause describes..." 11 false ].

(** Two headings with the identifier 5, each followed by a body line. *)
Definition duplicate_lines : list Line.t :=
  [ one_chunk 1 100 "5 Marking" 16 true;
    one_chunk 1 130 "The first body line." 11 false;
    one_chunk 1 160 "5 Marking again" 16 true;
    one_chunk 1 190 "The second body line." 11 false ].

(** A number alone on its line, its title on the next two prominent
    lines, a blank line in between. *)
Definition stacked_title_lines : list Line.t :=
  [ one_chunk 1 100 "6" 16 true;
    one_chunk 1 120 "   " 16 true;
    one_chunk 1 140 "Tests and" 16 true;
    one_chunk 1 160 "inspections" 16 true;
    one_chunk 1 190 "6.1" 15 true;
    one_chunk 1 220 "Body text, in the body font." 11 false ].

(** Two body lines on page 2, the first at the very top of the page. *)
Definition top_of_page_lines (first_top : Q) : list Line.t :=
  [ one_chunk 1 700 "4 Scope" 16 true;
    one_chunk 2 first_top "First paragraph of the clause." 11 false;
    one_chunk 2 100 "Second paragraph, far below." 11 false ].

(** A heading whose number has 4301 digits, one more than [int]
    converts. *)
Definition long_number : string := string_of_list_ascii (replicate 4301 "1"%char).

Definition long_number_lines : list Line.t :=
  [ one_chunk 1 100 (long_number +:+ " Scope") 16 true ].

(** ** The separator runs of the specification *)

(** The separator characters the specification names: backtick, comma
    and dash. *)
Definition spec_separator (c : ascii) : bool :=
  Py.eqc c "`"%char || Py.eqc c ","%char || Py.eqc c Re.hyphen.

(** A run of at least [n] separator characters starts somewhere in [s]. *)
Fixpoint has_separator_run (n : nat) (s : string) : bool :=
  (n <=? String.length (fst (Re.span spec_separator s)))
  || match s with
     | String _ s' => has_separator_run n s'
     | EmptyString => false
     end.

(** ** Further notions used to state the properties *)

(** A text none of whose characters is white space. *)
Fixpoint all_solid (s : string) : bool :=
  match s with
  | String c s' => negb (Py.isspace c) && all_solid s'
  | EmptyString => true
  end.

(** A word as [str.split] returns them: not empty, without white space. *)
Definition is_word (w : string) : Prop :=
  Py.is_empty w = false ∧ all_solid w = true.

(** A text that ends with a character other than white space. *)
Fixpoint ends_solid (s : string) : bool :=
  match s with
  | String c EmptyString => negb (Py.isspace c)
  | String _ s' => ends_solid s'
  | EmptyString => false
  end.

(** The paragraphs of a clause once the loop of [text] has ended in the
    state [st]. *)
Definition closed (st : list string * list string) : list string :=
  filter (fun p => Py.is_empty p = false)
    (match st.2 with
     | [] => st.1
     | _ :: _ => st.1 ++ [Clause.paragraph st.2]
     end).

(** Two lines without a heading: one that matches the heading pattern
    below the gate, one that does not match it. *)
Definition gated_tail : list Line.t :=
  [ faint_numbered_line;
    one_chunk 1 160 "Ordinary text, set in the body font." 11 false ].

(** Whether the body loop of [build_clauses] appends the line: it is
    not noise, not a heading line and not a fragment. *)
Definition body_keeps (line : Line.t) : bool :=
  let text := Line.cleaned_text line in
  negb (should_skip_line text) && negb (Re.matches text)
  && negb (looks_like_fragment line text).

(** The clauses of a state form a forest: no clause is listed twice, a
    child has a dotted identifier and is not a root, and every clause of
    the store is a root or a child of its parent. *)
Record forest (st : BuildState) : Prop := {
  forest_roots : NoDup (clauses st);
  forest_children :
    ∀ k p, clause_by_id st !! k = Some p → NoDup (Clause.children p);
  forest_dotted :
    ∀ k p c, clause_by_id st !! k = Some p → c ∈ Clause.children p →
             Py.mem Re.dot c = true ∧ c ∉ clauses st;
  forest_placed :
    ∀ x, is_Some (clause_by_id st !! x) →
         x ∈ clauses st
         ∨ ∃ p, clause_by_id st !! parent_identifier x = Some p
                ∧ x ∈ Clause.children p
}.

(** ** Finished clauses and their rows *)

(** A finished clause as the functions that walk it read it: the clause
    with, for each identifier in [children], the clause filed under it in
    the store and the clauses under that one. *)
Local Unset Elimination Schemes.
Inductive ClauseTree := Node (clause : Clause.t) (subclauses : list ClauseTree).
Local Set Elimination Schemes.

Definition root_clause (t : ClauseTree) : Clause.t :=
  match t with Node clause _ => clause end.

Definition subclauses_of (t : ClauseTree) : list ClauseTree :=
  match t with Node _ subclauses => subclauses end.

(** The clause filed under [id], with the clauses reached from it
    through [children]; [None] when [id] or a descendant is not in the
    store, or lies more than [fuel] levels down. *)
Fixpoint tree_of (fuel : nat) (store : gmap string Clause.t) (id : string)
  : option ClauseTree :=
  match fuel with
  | S fuel' =>
      match store !! id with
      | Some clause =>
          match mapM (tree_of fuel' store) (Clause.children clause) with
          | Some subclauses => Some (Node clause subclauses)
          | None => None
          end
      | None => None
      end
  | O => None
  end.

(** No chain of children is longer than the longest identifier: a child
    has a longer identifier than its parent. *)
Definition tree_fuel (store : gmap string Clause.t) : nat :=
  S (max_list (String.length <$> (map_to_list store).*1)).

(** The clauses [build_clauses] returns, each with the clauses under it. *)
Definition clause_trees (st : BuildState) (roots : list Clause.t)
  : option (list ClauseTree) :=
  mapM (tree_of (tree_fuel (clause_by_id st)) (clause_by_id st))
       (Clause.identifier <$> roots).

(** [flatten_clauses]: the row of the clause, then the rows of its
    children in order; [parent or ""] is [default "" parent]. *)
Fixpoint flatten_clauses (clause : ClauseTree) (parent : option string) (level : Z)
  : list (list string) :=
  match clause with
  | Node c children =>
      [Clause.identifier c; Clause.title c; default "" parent; str level; Clause.text c]
      :: concat ((fun child => flatten_clauses child (Some (Clause.identifier c)) (level + 1))
                   <$> children)
  end.

Definition clauses_to_rows (clauses : list ClauseTree) : list (list string) :=
  ["Clause"; "Title"; "Parent"; "Level"; "Text"]
  :: concat ((fun clause => flatten_clauses clause None 1) <$> clauses).

(** The values [to_dict] builds: strings, lists and dictionaries, the
    last with their keys in insertion order. *)
Local Unset Elimination Schemes.
Inductive Json :=
| JString (s : string)
| JList (items : list Json)
| JDict (items : list (string * Json)).
Local Set Elimination Schemes.

(** [Clause.to_dict] *)
Fixpoint to_dict (clause : ClauseTree) : Json :=
  match clause with
  | Node c children =>
      JDict ([ ("clause", JString (Clause.identifier c));
               ("title", JString (Clause.title c));
               ("text", JString (Clause.text c)) ]
             ++ match children with
                | [] => []
                | _ :: _ => [("subclauses", JList (to_dict <$> children))]
                end)
  end.

(** ** The worksheet *)

(** [chr(65 + remainder)] *)
Definition letter (remainder : Z) : ascii := ascii_of_N (Z.to_N (65 + remainder)).

(** The loop of [column_letter] on [(index, result)]; [None] when
    [fuel] turns do not reach the [break]. *)
Fixpoint column_letter_loop (fuel : nat) (index : Z) (result : string) : option string :=
  match fuel with
  | S fuel' =>
      let remainder := (index mod 26)%Z in
      let index := (index / 26)%Z in
      let result := String (letter remainder) result in
      if (index =? 0)%Z then Some result
      else column_letter_loop fuel' (index - 1) result
  | O => None
  end.

Definition column_letter (fuel : nat) (index : Z) : option string :=
  column_letter_loop fuel index "".

(** [column_letter(c_index)] for an index of [enumerate]: the loop ends
    within [c_index + 1] turns. *)
Definition column_name (c_index : nat) : string :=
  default "" (column_letter (S c_index) (Z.of_nat c_index)).

(** [s.replace(old, new)] for a single character [old]. *)
Fixpoint replace_char (old : ascii) (new : string) (s : string) : string :=
  match s with
  | String c s' =>
      if Py.eqc c old then new +:+ replace_char old new s'
      else String c (replace_char old new s')
  | EmptyString => EmptyString
  end.

(** [xml.sax.saxutils.escape] without extra entities. *)
Definition escape (data : string) : string :=
  replace_char "<" "&lt;" (replace_char ">" "&gt;" (replace_char "&" "&amp;" data)).

(** [escape(value).replace("\n", "&#10;")] *)
Definition text_value (value : string) : string :=
  replace_char Re.newline "&#10;" (escape value).

Definition quote : string := String (ascii_of_N 34) EmptyString.

(** [f"{column_letter(c_index)}{r_index}"] *)
Definition cell_ref (r_index : Z) (c_index : nat) : string :=
  column_name c_index +:+ str r_index.

(** The line [build_sheet_xml] appends for one cell. *)
Definition cell_xml (r_index : Z) (c_index : nat) (value : string) : string :=
  if Py.is_empty value
  then "      <c r=" +:+ quote +:+ cell_ref r_index c_index +:+ quote +:+ "/>"
  else "      <c r=" +:+ quote +:+ cell_ref r_index c_index +:+ quote
       +:+ " t=" +:+ quote +:+ "inlineStr" +:+ quote
       +:+ "><is><t xml:space=" +:+ quote +:+ "preserve" +:+ quote +:+ ">"
       +:+ text_value value +:+ "</t></is></c>".

(** The lines appended for the row at position [i] of [enumerate(rows, start=1)]. *)
Definition row_xml (i : nat) (row : list string) : list string :=
  let r_index := Z.of_nat (i + 1) in
  ["    <row r=" +:+ quote +:+ str r_index +:+ quote +:+ ">"]
  ++ imap (cell_xml r_index) row
  ++ ["    </row>"].

Definition build_sheet_xml (rows : list (list string)) : string :=
  let xml_lines :=
    [ "<?xml version=" +:+ quote +:+ "1.0" +:+ quote
        +:+ " encoding=" +:+ quote +:+ "UTF-8" +:+ quote +:+ "?>";
      "<worksheet xmlns=" +:+ quote
        +:+ "http://schemas.openxmlformats.org/spreadsheetml/2006/main" +:+ quote +:+ ">";
      "  <sheetData>" ]
    ++ concat (imap row_xml rows)
    ++ ["  </sheetData>"; "</worksheet>"] in
  Py.join (String Re.newline EmptyString) xml_lines.

(** ** Notions used to state the properties of the rows *)

(** The identifiers of a clause and of the clauses under it, the clause
    first, then its children in order. *)
Fixpoint tree_ids (t : ClauseTree) : list string :=
  match t with
  | Node c children => Clause.identifier c :: concat (tree_ids <$> children)
  end.

(** The number of clauses of a tree. *)
Fixpoint tree_size (t : ClauseTree) : nat :=
  match t with
  | Node _ children => S (sum_list (tree_size <$> children))
  end.

(** The identifier [n] segments up from [id]. *)
Definition ancestor (n : nat) (id : string) : string :=
  Nat.iter n parent_identifier id.

(** [id] is held as a child by the clause filed under its parent identifier. *)
Definition is_child (store : gmap string Clause.t) (id : string) : Prop :=
  ∃ p, store !! parent_identifier id = Some p ∧ id ∈ Clause.children p.

(** The index a column name stands for: the letters read as digits 1 to
    26 in base 26, less one. *)
Fixpoint letters_value (acc : Z) (s : string) : Z :=
  match s with
  | String c s' => letters_value (acc * 26 + (Z.of_N (Py.code c) - 64)) s'
  | EmptyString => acc
  end.

Definition column_index (name : string) : Z := letters_value 0 name - 1.

(** A text made of the letters A to Z only. *)
Fixpoint all_upper (s : string) : bool :=
  match s with
  | String c s' => Py.isupper c && all_upper s'
  | EmptyString => true
  end.

(** A text that starts with a character other than a letter A to Z. *)
Definition first_not_upper (s : string) : bool :=
  match s with
  | String c _ => negb (Py.isupper c)
  | EmptyString => false
  end.

(** The cell at position [i] of a row. *)
Definition cell (i : nat) (row : list string) : string := default "" (row !! i).

(** The value under [key] in the items of a dictionary, when it is a
    string. *)
Fixpoint json_string (key : string) (items : list (string * Json)) : option string :=
  match items with
  | (k, v) :: rest =>
      if String.eqb k key
      then match v with JString s => Some s | _ => None end
      else json_string key rest
  | [] => None
  end.

(** What a reader of the JSON output finds, in the order of the file:
    for a dictionary its "clause", "title" and "text", then what the
    values under "subclauses" hold. *)
Fixpoint json_entries (j : Json) : list (string * string * string) :=
  match j with
  | JString _ => []
  | JList items => concat (json_entries <$> items)
  | JDict items =>
      match json_string "clause" items, json_string "title" items,
            json_string "text" items with
      | Some c, Some t, Some x => [(c, t, x)]
      | _, _, _ => []
      end
      ++ (fix subclauses (items : list (string * Json)) :=
            match items with
            | (k, v) :: rest =>
                (if String.eqb k "subclauses" then json_entries v else [])
                ++ subclauses rest
            | [] => []
            end) items
  end.

(** The identifier, the title and the text a row shows. *)
Definition row_entry (row : list string) : string * string * string :=
  (cell 0 row, cell 1 row, cell 4 row).

(** ** The lines of the layout *)

(** [s.lower()] *)
Fixpoint lower_string (s : string) : string :=
  match s with
  | String c s' => String (Py.lower c) (lower_string s')
  | EmptyString => EmptyString
  end.

(** [s.replace(old, new)] for a non-empty [old]: the occurrences are
    replaced from the left, and the [skip] characters that remain of the
    occurrence just replaced are passed over. *)
Fixpoint replace_go (skip : nat) (old new s : string) : string :=
  match s with
  | String c s' =>
      match skip with
      | S skip' => replace_go skip' old new s'
      | O =>
          if Py.startswith s old
          then new +:+ replace_go (String.length old - 1) old new s'
          else String c (replace_go 0 old new s')
      end
  | EmptyString => EmptyString
  end.

Definition replace (old new s : string) : string := replace_go 0 old new s.

(** [s.strip(ch)] for a single character [ch]. *)
Fixpoint lstrip_char (ch : ascii) (s : string) : string :=
  match s with
  | String c s' => if Py.eqc c ch then lstrip_char ch s' else s
  | EmptyString => EmptyString
  end.

Fixpoint rstrip_char (ch : ascii) (s : string) : string :=
  match s with
  | String c s' =>
      match rstrip_char ch s' with
      | EmptyString => if Py.eqc c ch then EmptyString else String c EmptyString
      | r => String c r
      end
  | EmptyString => EmptyString
  end.

Definition strip_char (ch : ascii) (s : string) : string :=
  rstrip_char ch (lstrip_char ch s).

(** The no-break space U+00A0, in UTF-8, and the character NUL. *)
Definition nbsp : string :=
  String (ascii_of_N 194) (String (ascii_of_N 160) EmptyString).
Definition nul : ascii := ascii_of_N 0.
Definition carriage_return : ascii := ascii_of_N 13.

(** [max(a, b)] on floats: the first argument unless the second is above it. *)
Definition Qmax2 (a b : Q) : Q := if Qltb a b then b else a.

(** [_is_bold_font] *)
Definition _is_bold_font (fontname : option string) : bool :=
  match fontname with
  | None => false
  | Some fontname =>
      if Py.is_empty fontname then false
      else
        let lowered := lower_string fontname in
        Py.contains "bold" lowered || Py.contains "black" lowered
        || Py.contains "heavy" lowered
  end.

(** What the program reads of the objects of the layout engine: of a
    character its text, size and font name; of a text line its text, its
    bounding box [(x0, y0, x1, y1)], its height and the objects it holds,
    characters among them. *)
Module LTChar.
Record t := mk {
  get_text : string;
  size : Q;
  fontname : string
}.
End LTChar.

Inductive LTItem :=
| Char (char : LTChar.t)
| Anno (text : string).

Module LTTextLine.
Record t := mk {
  get_text : string;
  bbox : Q * Q * Q * Q;
  height : Q;
  items : list LTItem
}.
End LTTextLine.

(** [len(text.strip()) or len(text)] *)
Definition char_weight (char : LTChar.t) : nat :=
  let stripped := String.length (Py.strip (LTChar.get_text char)) in
  if (stripped =? 0)%nat then String.length (LTChar.get_text char) else stripped.

(** [max((char.size for char in chars), default=...)] *)
Definition max_size (chars : list LTChar.t) (default : Q) : Q :=
  match chars with
  | c :: rest =>
      foldl (fun m d => if Qltb m (LTChar.size d) then LTChar.size d else m)
            (LTChar.size c) rest
  | [] => default
  end.

(** [_text_line_to_line]; [None] is the line left out. *)
Definition _text_line_to_line (text_line : LTTextLine.t) (page_number : Z) (page_height : Q)
  : option Line.t :=
  let raw_text := LTTextLine.get_text text_line in
  if Py.is_empty raw_text then None
  else
    let cleaned :=
      replace nbsp " " (replace_char Re.newline " " (replace_char carriage_return " " raw_text)) in
    if Py.is_empty (Py.strip cleaned) then None
    else
      let lower := lower_string (Py.strip cleaned) in
      if Py.startswith lower "link to page" then None
      else
        let '(x0, y0, x1, y1) := LTTextLine.bbox text_line in
        let top := Qmax2 (page_height - y1) 0 in
        let width := Qmax2 (x1 - x0) 0 in
        let chars :=
          omap (fun obj => match obj with Char c => Some c | Anno _ => None end)
               (LTTextLine.items text_line) in
        let font_size := max_size chars (LTTextLine.height text_line) in
        let total_weight := sum_list (char_weight <$> chars) in
        let bold_weight :=
          sum_list (char_weight <$>
                      filter (fun c => _is_bold_font (Some (LTChar.fontname c)) = true) chars) in
        let is_bold :=
          (0 <? total_weight)%nat
          && Qleb (1 # 2) (Z.of_nat bold_weight # Pos.of_nat total_weight) in
        let chunk :=
          TextChunk.mk page_number top x0 width (strip_char nul cleaned) font_size is_bold in
        Some (Line.mk page_number top [chunk]).

(** The elements of a page of the layout: text lines, containers of
    elements, and the figures, images and shapes the program passes by. *)
Local Unset Elimination Schemes.
Inductive LTElement :=
| TextLine (text_line : LTTextLine.t)
| TextContainer (elements : list LTElement)
| Other.
Local Set Elimination Schemes.

(** [_iter_text_lines] on one element of a container. *)
Fixpoint _iter_text_lines (element : LTElement) : list LTTextLine.t :=
  match element with
  | TextLine text_line => [text_line]
  | TextContainer elements => concat (_iter_text_lines <$> elements)
  | Other => []
  end.

Module LTPage.
Record t := mk {
  height : Q;
  elements : list LTElement
}.
End LTPage.

(** The key [(line.page, line.top, line.chunks[0].left if line.chunks else 0.0)]. *)
Definition line_key (line : Line.t) : Z * Q * Q :=
  (Line.page line, Line.top line,
   match Line.chunks line with
   | chunk :: _ => TextChunk.left chunk
   | [] => 0%Q
   end).

(** [a < b] on the keys: the first components that differ decide. *)
Definition line_key_lt (a b : Z * Q * Q) : bool :=
  let '(page_a, top_a, left_a) := a in
  let '(page_b, top_b, left_b) := b in
  if negb (page_a =? page_b)%Z then (page_a <? page_b)%Z
  else if negb (Qeq_bool top_a top_b) then Qltb top_a top_b
  else Qltb left_a left_b.

(** The lines of the page at position [i] of [enumerate(..., start=1)]. *)
Definition page_lines (i : nat) (page_layout : LTPage.t) : list Line.t :=
  let page_number := Z.of_nat (i + 1) in
  omap (fun text_line => _text_line_to_line text_line page_number (LTPage.height page_layout))
       (concat (_iter_text_lines <$> LTPage.elements page_layout)).

(** [extract_lines_from_pdf], on the pages [extract_pages] yields. *)
Definition extract_lines_from_pdf (pages : list LTPage.t) : list Line.t :=
  Py.sort line_key line_key_lt (concat (imap page_lines pages)).

(** ** The table of the web page *)

(** The three characters the source file holds after the snippet, in UTF-8. *)
Definition ellipsis_mark : string :=
  String (ascii_of_N 195) (String (ascii_of_N 162)
  (String (ascii_of_N 226) (String (ascii_of_N 130) (String (ascii_of_N 172)
  (String (ascii_of_N 194) (String (ascii_of_N 166) EmptyString)))))).

(** [value[:limit]] for a limit that is not negative. *)
Fixpoint prefix (limit : nat) (value : string) : string :=
  match limit, value with
  | S limit', String c value' => String c (prefix limit' value')
  | _, _ => EmptyString
  end.

(** [truncate_text], for a value of ASCII characters and a limit that is
    not negative. *)
Definition truncate_text (value : string) (limit : nat) : string * bool :=
  if String.length value <=? limit then (value, false)
  else (Py.rstrip (prefix limit value) +:+ ellipsis_mark, true).

(** ** Sample layout objects *)

(** A text line of six bold characters in 16 point type. *)
Definition bold_text_line : LTTextLine.t :=
  LTTextLine.mk "4 Scope" (72, 700, 130, 716)%Q 16
    [ Char (LTChar.mk "4" 16 "ABCDEF+Arial-BoldMT");
      Char (LTChar.mk " " 16 "ABCDEF+Arial-BoldMT");
      Char (LTChar.mk "S" 16 "ABCDEF+Arial-BoldMT");
      Char (LTChar.mk "c" 16 "ABCDEF+Arial-BoldMT");
      Anno " " ].

(** A text of ASCII characters only. *)
Fixpoint all_ascii (s : string) : bool :=
  match s with
  | String c s' => (Py.code c <? 128)%N && all_ascii s'
  | EmptyString => true
  end.

(** [c1] has a heading in [ids] before any heading of [c2]. *)
Definition first_before (ids : list string) (c1 c2 : string) : Prop :=
  ∃ before after, ids = before ++ c1 :: after ∧ (c1 ∉ before) ∧ (c2 ∉ before) ∧ c1 ≠ c2.

(** The clauses of a state were created in the order of [log]: the
    store holds the identifiers of [log], and of two children of a
    clause the one listed first was created first. *)
Record created_in_order (st : BuildState) (log : list string) : Prop := {
  created_dom : ∀ k, is_Some (clause_by_id st !! k) ↔ k ∈ log;
  created_children :
    ∀ k p i j c1 c2,
      clause_by_id st !! k = Some p →
      Clause.children p !! i = Some c1 → Clause.children p !! j = Some c2 →
      i < j → first_before log c1 c2
}.

(** A clause whose children come in the order 4.10, 4.2. *)
Definition children_lines : list Line.t :=
  [ one_chunk 1 100 "4 Scope" 16 true;
    one_chunk 1 130 "4.10 Tenth" 15 true;
    one_chunk 1 160 "4.2 Second" 15 true ].

(** ** Tactics *)

(** The cases in which the lookahead stops without consuming a line. *)
Ltac lookahead_stops :=
  intros [= <- <-];
  split_and!;
  [ lia | lia | intros m Hm; lia
  | exists []; split; [by rewrite app_nil_r | by constructor]
  | intros _ m c' Hm; lia ].

(** * Properties *)

(** ** Facts about the string primitives *)

Section StringFacts.
Import Py.

Lemma starts_solid_app s t : starts_solid s = true → starts_solid (s +:+ t) = true.
Proof. by destruct s. Qed.

Lemma starts_solid_not_empty s : starts_solid s = true → is_empty s = false.
Proof. by destruct s. Qed.

Lemma strip_solid s : starts_solid s = true → is_empty (strip s) = false.
Proof.
  destruct s as [|c s]; [done|]. simpl. intros Hc%negb_true_iff.
  unfold strip. simpl. rewrite Hc. simpl. destruct (rstrip s); [by rewrite Hc|done].
Qed.

Lemma split_go_solid s cur :
  (∀ w, cur = Some w → starts_solid w = true) →
  Forall (fun w => starts_solid w = true) (split_go cur s).
Proof.
  revert cur. induction s as [|c s IH]; intros cur Hcur; simpl.
  - destruct cur as [w|]; [|done]. constructor; [by apply Hcur|done].
  - destruct (isspace c) eqn:Hc.
    + destruct cur as [w|].
      * constructor; [by apply Hcur|]. by apply IH.
      * by apply IH.
    + apply IH. intros w' [= <-]. destruct cur as [w|].
      * apply starts_solid_app. by apply Hcur.
      * simpl. by rewrite Hc.
Qed.

Lemma split_solid s : Forall (fun w => starts_solid w = true) (split s).
Proof. by apply split_go_solid. Qed.

Lemma join_solid sep w rest :
  starts_solid w = true → starts_solid (join sep (w :: rest)) = true.
Proof.
  intros Hw. destruct rest as [|w' rest]; [done|].
  change (join sep (w :: w' :: rest)) with (w +:+ sep +:+ join sep (w' :: rest)).
  by apply starts_solid_app.
Qed.

(** [" ".join(s.split())] is empty or starts with a solid character. *)
Lemma join_split_solid s :
  is_empty (join " " (split s)) = false →
  starts_solid (join " " (split s)) = true.
Proof.
  pose proof (split_solid s) as Hs.
  destruct (split s) as [|w ws]; [done|]. intros _.
  apply join_solid. by inversion Hs.
Qed.

Lemma join_solid_strip parts :
  Forall (fun t => starts_solid t = true) parts →
  is_empty (strip (join " " parts)) = true → parts = [].
Proof.
  destruct parts as [|t rest]; [done|]. intros Hall He.
  inversion Hall as [|? ? Ht _]; subst.
  by rewrite (strip_solid _ (join_solid " " t rest Ht)) in He.
Qed.

(** *** Splitting on a character *)

Lemma split_on_not_nil ch s : split_on ch s ≠ [].
Proof.
  destruct s as [|c s]; simpl; [done|].
  destruct (eqc ch c); [done|]. by destruct (split_on ch s).
Qed.

Lemma split_on_length ch s : length (split_on ch s) = count ch s + 1.
Proof.
  induction s as [|c s IH]; simpl; [done|].
  destruct (eqc ch c); simpl.
  - by rewrite IH.
  - pose proof (split_on_not_nil ch s).
    destruct (split_on ch s) as [|p rest]; [done|]. simpl in *. lia.
Qed.

(** *** Hyphens at the end of a buffer entry *)

Lemma app_cons c s t : String c s +:+ t = String c (s +:+ t).
Proof. reflexivity. Qed.

Lemma app_char_cons s ch t : ∃ c r, s +:+ String ch t = String c r.
Proof. destruct s as [|c s]; [by exists ch, t|]. by exists c, (s +:+ String ch t). Qed.

Lemma endswith_app_char s ch : endswith (s +:+ String ch EmptyString) ch = true.
Proof.
  induction s as [|c s IH].
  - simpl. unfold eqc. apply Ascii.eqb_refl.
  - rewrite app_cons.
    destruct (app_char_cons s ch EmptyString) as (c' & r & Hs).
    rewrite Hs in *. exact IH.
Qed.

Lemma drop_last_app_char s ch : drop_last (s +:+ String ch EmptyString) = s.
Proof.
  induction s as [|c s IH]; [done|].
  rewrite app_cons.
  destruct (app_char_cons s ch EmptyString) as (c' & r & Hs).
  rewrite Hs in *. rewrite <- IH. reflexivity.
Qed.

(** *** Substrings and prefixes *)

Lemma startswith_app p s : startswith (p +:+ s) p = true.
Proof.
  induction p as [|c p IH]; [done|].
  rewrite app_cons. simpl. unfold eqc. by rewrite Ascii.eqb_refl.
Qed.

Lemma contains_startswith sub s : startswith s sub = true → contains sub s = true.
Proof. intros H. destruct s; simpl; by rewrite H. Qed.

Lemma contains_app pre sub post : contains sub (pre +:+ sub +:+ post) = true.
Proof.
  induction pre as [|c pre IH].
  - change (contains sub (sub +:+ post) = true).
    apply contains_startswith, startswith_app.
  - rewrite app_cons. simpl. rewrite IH. apply orb_true_r.
Qed.

Lemma after_prefix_app p s : Re.after_prefix p (p +:+ s) = Some s.
Proof.
  induction p as [|c p IH]; [by destruct s|].
  rewrite app_cons. simpl. unfold eqc. by rewrite Ascii.eqb_refl.
Qed.

Lemma span_app_length p run rest :
  Forall (fun c => p c = true) (list_ascii_of_string run) →
  String.length run ≤ String.length (fst (Re.span p (run +:+ rest))).
Proof.
  induction run as [|c run IH]; [simpl; lia|].
  rewrite app_cons. simpl.
  intros Hall. inversion Hall as [|? ? Hc Hrun]; subst. rewrite Hc.
  specialize (IH Hrun). destruct (Re.span p (run +:+ rest)). simpl in *. lia.
Qed.

End StringFacts.

(** ** Facts about identifiers *)

Section IdentifierFacts.
Import Py.
Local Arguments eqc : simpl never.

Lemma join_cons2 sep p q rest :
  join sep (p :: q :: rest) = p +:+ sep +:+ join sep (q :: rest).
Proof. reflexivity. Qed.

Lemma string_app_assoc (a b c : string) : (a +:+ b) +:+ c = a +:+ (b +:+ c).
Proof. induction a as [|x a IH]; [done|]. rewrite !app_cons. by rewrite IH. Qed.

Lemma string_app_length (a b : string) :
  String.length (a +:+ b) = String.length a + String.length b.
Proof. induction a as [|x a IH]; [done|]. rewrite app_cons. simpl. by rewrite IH. Qed.

(** Joining what [split_on] returns gives the text back. *)
Lemma join_split_on ch s : join (String ch EmptyString) (split_on ch s) = s.
Proof.
  induction s as [|c s IH]; [done|]. simpl.
  pose proof (split_on_not_nil ch s) as Hne.
  destruct (eqc ch c) eqn:Hc.
  - apply Ascii.eqb_eq in Hc as ->.
    destruct (split_on c s) as [|p rest]; [done|].
    rewrite join_cons2, IH. reflexivity.
  - destruct (split_on ch s) as [|p rest]; [done|].
    destruct rest as [|q rest].
    + simpl in *. by rewrite IH.
    + rewrite join_cons2 in *. rewrite app_cons. by rewrite IH.
Qed.

Lemma join_init_length c sep p q rest :
  String.length (join (String c sep) (init (p :: q :: rest)))
  < String.length (join (String c sep) (p :: q :: rest)).
Proof.
  revert p q. induction rest as [|r rest IH]; intros p q.
  - simpl init. rewrite join_cons2. simpl join.
    rewrite string_app_length, app_cons. simpl. lia.
  - change (init (p :: q :: r :: rest)) with (p :: init (q :: r :: rest)).
    specialize (IH q r).
    rewrite (join_cons2 _ p q).
    destruct (init (q :: r :: rest)) as [|x xs] eqn:Hi; [done|].
    rewrite join_cons2. rewrite !string_app_length. lia.
Qed.

(** The parent identifier is strictly shorter than the identifier. *)
Lemma parent_identifier_shorter identifier :
  mem Re.dot identifier = true →
  String.length (parent_identifier identifier) < String.length identifier.
Proof.
  intros Hdot. unfold parent_identifier.
  assert (1 ≤ count Re.dot identifier) as Hc.
  { clear -Hdot. induction identifier as [|c s IH]; [done|]. simpl in *.
    destruct (eqc Re.dot c); simpl in *; [lia|]. specialize (IH Hdot). lia. }
  pose proof (split_on_length Re.dot identifier) as Hlen.
  pose proof (join_split_on Re.dot identifier) as Hjoin.
  destruct (split_on Re.dot identifier) as [|p [|q rest]]; simpl in Hlen; [lia|lia|].
  rewrite <- Hjoin.
  apply join_init_length.
Qed.

Lemma parent_identifier_ne identifier :
  mem Re.dot identifier = true → parent_identifier identifier ≠ identifier.
Proof.
  intros Hdot Heq. apply parent_identifier_shorter in Hdot.
  rewrite Heq in Hdot. lia.
Qed.

(** The condition that selects the roots holds of every text. *)
Lemma kept_root_true identifier : kept_root identifier = true.
Proof.
  unfold kept_root. rewrite split_on_length.
  replace (count Re.dot identifier + 1 - 1) with (count Re.dot identifier) by lia.
  rewrite Nat.eqb_refl. apply orb_true_r.
Qed.

(** *** The identifiers the heading pattern reads *)

Lemma ident_tail_rest s : ident_rest (fst (Re.ident_tail s)).
Proof.
  remember (String.length s) as n eqn:Hn. revert s Hn.
  induction (lt_wf n) as [n _ IH]. intros s ->.
  destruct s as [|c s]; simpl; [constructor|].
  destruct (isdigit c) eqn:Hc.
  - specialize (IH (String.length s) ltac:(simpl; lia) s eq_refl).
    destruct (Re.ident_tail s) as [a r]. simpl in *. by constructor.
  - destruct (eqc c Re.dot) eqn:Hdot; [|constructor].
    apply Ascii.eqb_eq in Hdot as ->.
    destruct s as [|d s]; [constructor|].
    destruct (isdigit d) eqn:Hd; [|constructor].
    specialize (IH (String.length s) ltac:(simpl; lia) s eq_refl).
    destruct (Re.ident_tail s) as [a r]. simpl in *. by constructor.
Qed.

Lemma isdigit_not_dot d : isdigit d = true → eqc Re.dot d = false.
Proof.
  intros Hd. destruct (eqc Re.dot d) eqn:He; [|done].
  apply Ascii.eqb_eq in He as <-. done.
Qed.

Lemma split_on_ident d a :
  isdigit d = true → ident_rest a →
  Forall digit_part (split_on Re.dot (String d a)).
Proof.
  intros Hd Ha. revert d Hd. induction Ha as [|c a Hc Ha IH|d' a Hd' Ha IH]; intros d Hd.
  - simpl. rewrite (isdigit_not_dot d Hd). constructor; [|done].
    split; [done|]. simpl. by rewrite Hd.
  - specialize (IH c Hc).
    change (split_on Re.dot (String d (String c a))) with
      (if eqc Re.dot d then EmptyString :: split_on Re.dot (String c a)
       else match split_on Re.dot (String c a) with
            | p :: rest => String d p :: rest
            | [] => [String d EmptyString]
            end).
    rewrite (isdigit_not_dot d Hd).
    pose proof (split_on_not_nil Re.dot (String c a)) as Hne.
    destruct (split_on Re.dot (String c a)) as [|p rest]; [done|].
    inversion IH as [|? ? [Hp1 Hp2] Hrest]; subst.
    constructor; [|done]. split; [done|]. simpl. by rewrite Hd, Hp2.
  - specialize (IH d' Hd').
    change (split_on Re.dot (String d (String Re.dot (String d' a)))) with
      (if eqc Re.dot d then EmptyString :: split_on Re.dot (String Re.dot (String d' a))
       else match split_on Re.dot (String Re.dot (String d' a)) with
            | p :: rest => String d p :: rest
            | [] => [String d EmptyString]
            end).
    rewrite (isdigit_not_dot d Hd).
    change (split_on Re.dot (String Re.dot (String d' a))) with
      (EmptyString :: split_on Re.dot (String d' a)).
    constructor; [|done]. split; [done|]. simpl. by rewrite Hd.
Qed.

Lemma int_go_digits acc p : all_digits p = true → is_Some (int_go acc p).
Proof.
  revert acc. induction p as [|c p IH]; intros acc; simpl; [by eexists|].
  intros [Hc Hp]%andb_true_iff. rewrite Hc. by apply IH.
Qed.

(** [int] converts a part exactly when it has no more digits than the
    limit. *)
Lemma int_digit_part p :
  digit_part p → (is_Some (int p) ↔ String.length p ≤ max_str_digits).
Proof.
  intros [Hne Hd]. unfold int. rewrite Hne.
  destruct (max_str_digits <? String.length p) eqn:Hlen.
  - apply Nat.ltb_lt in Hlen. split; [by intros [? [=]]|lia].
  - apply Nat.ltb_ge in Hlen. split; [done|]. intros _. by apply int_go_digits.
Qed.

Lemma mapM_int_parts parts :
  Forall digit_part parts →
  (is_Some (mapM int parts)
   ↔ Forall (fun p => String.length p ≤ max_str_digits) parts).
Proof.
  intros Hparts. rewrite mapM_is_Some, !Forall_forall. split.
  - intros Hint p Hp. apply int_digit_part; [|by apply Hint].
    by apply (proj1 (Forall_forall _ _) Hparts).
  - intros Hlen p Hp. apply int_digit_part; [|by apply Hlen].
    by apply (proj1 (Forall_forall _ _) Hparts).
Qed.

(** The parts of group 1 of a match of the heading pattern are numbers. *)
Lemma HEADING_RE_identifier_parts text identifier group2 :
  Re.HEADING_RE_match text = Some (identifier, group2) →
  Forall digit_part (split_on Re.dot identifier).
Proof.
  unfold Re.HEADING_RE_match. destruct text as [|c s]; [done|].
  destruct (isdigit c) eqn:Hc; [|done].
  pose proof (ident_tail_rest s) as Hrest.
  destruct (Re.ident_tail s) as [a rest]. simpl in Hrest.
  assert (Forall digit_part (split_on Re.dot (String c a))) as Hparts
    by (by apply split_on_ident).
  destruct (Re.at_end rest); [by intros [= <- <-]|].
  destruct (Re.span isspace rest) as [w r].
  destruct (is_empty w); [done|].
  destruct (Re.title_group r); [|done]. by intros [= <- <-].
Qed.

(** Group 1 of a match of the heading pattern has a sort key exactly
    when none of its parts has more digits than [int] converts. *)
Lemma HEADING_RE_identifier_key text identifier group2 :
  Re.HEADING_RE_match text = Some (identifier, group2) →
  (is_Some (sort_key identifier) ↔ within_limit identifier).
Proof.
  intros Hm. unfold sort_key, within_limit.
  apply mapM_int_parts. by eapply HEADING_RE_identifier_parts.
Qed.

End IdentifierFacts.


(** ** The heading detector's loop *)

Section HeadingLoop.

Variable lines : list Line.t.

Lemma cleaned_text_eq (l : Line.t) :
  Line.cleaned_text l = Py.join " " (Py.split (Line.text l)).
Proof. reflexivity. Qed.

Lemma cleaned_text_solid (l : Line.t) :
  Py.is_empty (Line.cleaned_text l) = false →
  starts_solid (Line.cleaned_text l) = true.
Proof. rewrite cleaned_text_eq. apply join_split_solid. Qed.

Lemma lookahead_spec candidates title_parts consumed title_parts' consumed' :
  lookahead candidates title_parts consumed = (title_parts', consumed') →
  consumed ≤ consumed' ≤ consumed + length candidates
  ∧ (∀ m, m < consumed' - consumed →
          ∃ c, candidates !! m = Some c ∧ passed_over c)
  ∧ (∃ added, title_parts' = title_parts ++ added
              ∧ Forall (fun t => starts_solid t = true) added)
  ∧ (title_parts' = title_parts →
     ∀ m c, m < consumed' - consumed → candidates !! m = Some c →
            Py.is_empty (Line.cleaned_text c) = true).
Proof.
  revert title_parts consumed.
  induction candidates as [|c rest IH]; intros tp n; simpl.
  - lookahead_stops.
  - destruct (Py.is_empty (Line.cleaned_text c)) eqn:Hblank.
    + intros H. destruct (IH _ _ H) as (Hb & Hp & Ha & He).
      split_and!; [lia | lia | | done | ].
      * intros [|m] Hm.
        -- exists c. split; [done|]. by left.
        -- destruct (Hp m) as (c' & ? & ?); [lia|]. by exists c'.
      * intros Heq [|m] c' Hm Hc'; simpl in Hc'.
        -- by injection Hc' as <-.
        -- apply (He Heq m c'); [lia|done].
    + destruct (prominent c) eqn:Hprom; [|lookahead_stops].
      destruct (Re.matches (Line.cleaned_text c)) eqn:Hmatch; [lookahead_stops|].
      intros H. destruct (IH _ _ H) as (Hb & Hp & (added & Hadd & Hne) & He).
      split_and!; [lia | lia | | | ].
      * intros [|m] Hm.
        -- exists c. split; [done|]. by right.
        -- destruct (Hp m) as (c' & ? & ?); [lia|]. by exists c'.
      * exists (Line.cleaned_text c :: added). split.
        -- by rewrite Hadd, <- app_assoc.
        -- constructor; [|done]. by apply cleaned_text_solid.
      * intros Heq. exfalso. rewrite Hadd, <- app_assoc in Heq.
        apply (f_equal length) in Heq. rewrite !length_app in Heq.
        simpl in Heq. lia.
Qed.

Lemma read_title_spec i group2 title consumed :
  i < length lines →
  read_title lines i group2 = (title, consumed) →
  1 ≤ consumed ∧ i + consumed ≤ length lines
  ∧ (∀ k, i < k < i + consumed → ∃ c, lines !! k = Some c ∧ passed_over c)
  ∧ (Py.is_empty title = true →
     ∀ k c, i < k < i + consumed → lines !! k = Some c →
            Py.is_empty (Line.cleaned_text c) = true).
Proof.
  intros Hi. unfold read_title.
  destruct (Py.is_empty (Py.strip (default "" group2))) eqn:Hrem.
  - destruct (lookahead (drop (i + 1) lines) [] 1) as [tp n] eqn:Hl.
    intros [= <- <-].
    destruct (lookahead_spec _ _ _ _ _ Hl) as (Hb & Hp & (added & -> & Hsolid) & He).
    rewrite length_drop in Hb. split_and!; [lia | lia | | ].
    + intros k Hk. destruct (Hp (k - (i + 1))) as (c & Hc & Hpo); [lia|].
      exists c. split; [|done]. rewrite lookup_drop in Hc.
      by replace (i + 1 + (k - (i + 1))) with k in Hc by lia.
    + intros Ht k c Hk Hc. simpl in Ht.
      apply join_solid_strip in Ht; [|done]. subst added.
      apply (He eq_refl (k - (i + 1)) c); [lia|].
      rewrite lookup_drop. by replace (i + 1 + (k - (i + 1))) with k by lia.
  - intros [= <- <-]. split_and!; [lia | lia | intros k Hk; lia | intros _ k c Hk; lia].
Qed.

(** What [scan_line] returns, read back from its result. *)
Lemma scan_line_emit i line h :
  scan_line lines i line = Emit h →
  ∃ group2,
    Re.HEADING_RE_match (Line.cleaned_text line) = Some (identifier h, group2)
    ∧ below_threshold line = false
    ∧ read_title lines i group2 = (title h, line_count h)
    ∧ line_index h = i
    ∧ Py.is_empty (title h) && negb (Py.mem Re.dot (identifier h)) = false.
Proof.
  unfold scan_line.
  destruct (Py.is_empty (Line.cleaned_text line)); [done|].
  destruct (Re.HEADING_RE_match (Line.cleaned_text line)) as [[id g2]|]; [|done].
  destruct (below_threshold line); [done|].
  destruct (read_title lines i g2) as [t n] eqn:Hr.
  destruct (Py.is_empty t && negb (Py.mem Re.dot id)) eqn:Hd; [done|].
  intros [= <-]. exists g2. simpl. by rewrite Hr.
Qed.

Lemma scan_line_discard i line consumed :
  scan_line lines i line = Discard consumed →
  ∃ identifier group2 title,
    Re.HEADING_RE_match (Line.cleaned_text line) = Some (identifier, group2)
    ∧ below_threshold line = false
    ∧ read_title lines i group2 = (title, consumed)
    ∧ Py.is_empty title = true ∧ Py.mem Re.dot identifier = false.
Proof.
  unfold scan_line.
  destruct (Py.is_empty (Line.cleaned_text line)); [done|].
  destruct (Re.HEADING_RE_match (Line.cleaned_text line)) as [[id g2]|]; [|done].
  destruct (below_threshold line); [done|].
  destruct (read_title lines i g2) as [t n] eqn:Hr.
  destruct (Py.is_empty t && negb (Py.mem Re.dot id)) eqn:Hd; [|done].
  intros [= <-]. exists id, g2, t.
  apply andb_true_iff in Hd as [-> Hm]. apply negb_true_iff in Hm. by rewrite Hm.
Qed.

Lemma scan_span_bounds i line :
  lines !! i = Some line →
  1 ≤ scan_span (scan_line lines i line)
  ∧ i + scan_span (scan_line lines i line) ≤ length lines.
Proof.
  intros Hl. apply lookup_lt_Some in Hl as Hi.
  destruct (scan_line lines i line) as [|n|h] eqn:Hs; simpl.
  - lia.
  - apply scan_line_discard in Hs as (id & g2 & t & _ & _ & Hr & _).
    apply read_title_spec in Hr; [lia|done].
  - apply scan_line_emit in Hs as (g2 & _ & _ & Hr & _).
    apply read_title_spec in Hr; [lia|done].
Qed.

(** The loop does not depend on its fuel once there is enough of it. *)
Lemma find_headings_from_fuel fuel1 fuel2 i :
  length lines - i ≤ fuel1 → length lines - i ≤ fuel2 →
  find_headings_from fuel1 lines i = find_headings_from fuel2 lines i.
Proof.
  revert fuel2 i. induction fuel1 as [|f1 IH]; intros f2 i H1 H2.
  - assert (lines !! i = None) as Hn by (apply lookup_ge_None; lia).
    destruct f2; simpl; [done|]. by rewrite Hn.
  - destruct f2 as [|f2].
    + assert (lines !! i = None) as Hn by (apply lookup_ge_None; lia).
      simpl. by rewrite Hn.
    + simpl. destruct (lines !! i) as [line|] eqn:Hl; [|done].
      pose proof (scan_span_bounds i line Hl) as Hb.
      destruct (scan_line lines i line) as [|n|h]; simpl in Hb.
      * apply IH; lia.
      * apply IH; lia.
      * f_equal. apply IH; lia.
Qed.

Lemma headings_from_eq i :
  headings_from lines i =
  match lines !! i with
  | Some line =>
      match scan_line lines i line with
      | Pass => headings_from lines (i + 1)
      | Discard consumed => headings_from lines (i + consumed)
      | Emit h => h :: headings_from lines (i + line_count h)
      end
  | None => []
  end.
Proof.
  unfold headings_from.
  destruct (lines !! i) as [line|] eqn:Hl.
  - apply lookup_lt_Some in Hl as Hi.
    pose proof (scan_span_bounds i line Hl) as Hb.
    rewrite (find_headings_from_fuel (length lines) (S (length lines)) i) by lia.
    simpl. rewrite Hl.
    destruct (scan_line lines i line) as [|n|h]; simpl in Hb; try done.
  - destruct (length lines); simpl; [done|]. by rewrite Hl.
Qed.

Lemma headings_from_end i : length lines ≤ i → headings_from lines i = [].
Proof.
  intros Hi. rewrite headings_from_eq.
  by rewrite (proj2 (lookup_ge_None lines i) Hi).
Qed.

(** Induction along the positions the loop visits. *)
Lemma headings_from_ind (P : nat → list Heading → Prop) :
  (∀ i, length lines ≤ i → P i []) →
  (∀ i line, lines !! i = Some line → scan_line lines i line = Pass →
             P (i + 1) (headings_from lines (i + 1)) → P i (headings_from lines (i + 1))) →
  (∀ i line consumed, lines !! i = Some line →
             scan_line lines i line = Discard consumed →
             P (i + consumed) (headings_from lines (i + consumed)) →
             P i (headings_from lines (i + consumed))) →
  (∀ i line h, lines !! i = Some line → scan_line lines i line = Emit h →
             P (i + line_count h) (headings_from lines (i + line_count h)) →
             P i (h :: headings_from lines (i + line_count h))) →
  ∀ i, P i (headings_from lines i).
Proof.
  intros Hend Hpass Hdisc Hemit i.
  remember (length lines - i) as k eqn:Hk.
  revert i Hk. induction (lt_wf k) as [k _ IH]. intros i ->.
  rewrite headings_from_eq.
  destruct (lines !! i) as [line|] eqn:Hl.
  - apply lookup_lt_Some in Hl as Hi.
    pose proof (scan_span_bounds i line Hl) as Hb.
    destruct (scan_line lines i line) as [|n|h] eqn:Hs; simpl in Hb.
    + eapply Hpass; [done..|]. eapply IH; [|done]. lia.
    + eapply Hdisc; [done..|]. eapply IH; [|done]. lia.
    + eapply Hemit; [done..|]. eapply IH; [|done]. lia.
  - apply Hend. by apply lookup_ge_None.
Qed.

End HeadingLoop.

(** ** Facts about the heading list *)

Section HeadingFacts.

Variable lines : list Line.t.

Lemma matches_not_blank text :
  Re.matches text = true → Py.is_empty text = false.
Proof. by destruct text. Qed.

Lemma matches_Some text identifier group2 :
  Re.HEADING_RE_match text = Some (identifier, group2) → Re.matches text = true.
Proof. unfold Re.matches. by intros ->. Qed.

Lemma prominent_not_below line :
  prominent line = negb (below_threshold line).
Proof.
  unfold prominent, below_threshold, Qleb, Qltb.
  by rewrite negb_orb, !negb_involutive.
Qed.

(** A line that matches the heading pattern is never read past by a
    lookahead unless it fails to be prominent, in which case the
    lookahead stops at it. *)
Lemma matching_not_passed_over line :
  Re.matches (Line.cleaned_text line) = true → ¬ passed_over line.
Proof.
  intros Hm [Hb|[_ Hn]].
  - apply matches_not_blank in Hm. congruence.
  - congruence.
Qed.

(** Each heading found is the one the scan emits at its own line, and
    the loop never looks back. *)
Lemma headings_from_emitted i h :
  h ∈ headings_from lines i →
  i ≤ line_index h
  ∧ ∃ line, lines !! line_index h = Some line
            ∧ scan_line lines (line_index h) line = Emit h.
Proof.
  revert h. pattern i, (headings_from lines i). apply headings_from_ind.
  - intros j _ h Hh. by apply elem_of_nil in Hh.
  - intros j line Hl Hs IH h Hh. destruct (IH h Hh) as [? ?]. split; [lia|done].
  - intros j line n Hl Hs IH h Hh.
    pose proof (scan_span_bounds lines j line Hl) as Hb. rewrite Hs in Hb.
    simpl in Hb. destruct (IH h Hh) as [? ?]. split; [lia|done].
  - intros j line h0 Hl Hs IH h Hh.
    pose proof (scan_span_bounds lines j line Hl) as Hb. rewrite Hs in Hb.
    simpl in Hb.
    apply scan_line_emit in Hs as Hs'. destruct Hs' as (g2 & _ & _ & _ & Hidx & _).
    apply elem_of_cons in Hh as [->|Hh].
    + split; [lia|]. exists line. by rewrite Hidx.
    + destruct (IH h Hh) as [? ?]. split; [lia|done].
Qed.

Lemma spans_ok_weaken total lo lo' hs : lo' ≤ lo → spans_ok total lo hs → spans_ok total lo' hs.
Proof. destruct hs as [|h rest]; simpl; [done|]. intros ? (? & ? & ? & ?). split_and!; [lia|done..]. Qed.

Lemma headings_from_spans i : spans_ok (length lines) i (headings_from lines i).
Proof.
  pattern i, (headings_from lines i). apply headings_from_ind.
  - done.
  - intros j line Hl Hs IH. eapply spans_ok_weaken; [|done]. lia.
  - intros j line n Hl Hs IH. eapply spans_ok_weaken; [|done]. lia.
  - intros j line h Hl Hs IH.
    pose proof (scan_span_bounds lines j line Hl) as Hb. rewrite Hs in Hb.
    simpl in Hb.
    apply scan_line_emit in Hs as (g2 & _ & _ & _ & Hidx & _).
    simpl. rewrite Hidx. split_and!; [lia | lia | lia | done].
Qed.

Lemma spans_ok_elem total lo hs h :
  spans_ok total lo hs → h ∈ hs →
  lo ≤ line_index h ∧ 1 ≤ line_count h
  ∧ line_index h + line_count h ≤ total.
Proof.
  revert lo. induction hs as [|h0 rest IH]; intros lo Hok Hh.
  - by apply elem_of_nil in Hh.
  - destruct Hok as (? & ? & ? & Hrest).
    apply elem_of_cons in Hh as [->|Hh]; [done|].
    destruct (IH _ Hrest Hh) as (? & ? & ?). split_and!; [lia|done..].
Qed.

Lemma spans_ok_pair total lo hs k k' h h' :
  spans_ok total lo hs → k < k' → hs !! k = Some h → hs !! k' = Some h' →
  line_index h + line_count h ≤ line_index h'.
Proof.
  revert lo k k'. induction hs as [|h0 rest IH]; intros lo k k' Hok Hlt Hk Hk'.
  - done.
  - destruct Hok as (? & ? & ? & Hrest).
    destruct k' as [|k']; [lia|]. simpl in Hk'.
    destruct k as [|k]; simpl in Hk.
    + injection Hk as ->.
      apply list_elem_of_lookup_2 in Hk'.
      by destruct (spans_ok_elem _ _ _ _ Hrest Hk') as (? & _).
    + eapply (IH _ k k'); [done | lia | done..].
Qed.

(** A line on which the scan does not pass is reached by the loop, and
    the headings before it end at or before it. *)
Lemma reached_from i line j :
  lines !! i = Some line →
  Re.matches (Line.cleaned_text line) = true →
  j ≤ i →
  ∃ before,
    headings_from lines j = before ++ headings_from lines i
    ∧ ∀ h, h ∈ before → line_index h + line_count h ≤ i.
Proof.
  intros Hli Hm. apply lookup_lt_Some in Hli as Hi.
  pattern j, (headings_from lines j). apply headings_from_ind; clear j.
  - intros j Hj Hji. lia.
  - intros j l Hl Hs IH Hji.
    destruct (decide (j = i)) as [->|Hne].
    + exists []. split; [|by intros h Hh%elem_of_nil].
      simpl. rewrite (headings_from_eq lines i), Hl. by rewrite Hs.
    + apply IH. lia.
  - intros j l n Hl Hs IH Hji.
    destruct (decide (j = i)) as [->|Hne].
    + exists []. split; [|by intros h Hh%elem_of_nil].
      simpl. rewrite (headings_from_eq lines i), Hl. by rewrite Hs.
    + apply IH.
      apply scan_line_discard in Hs as (id & g2 & t & _ & _ & Hr & _).
      apply lookup_lt_Some in Hl as Hj.
      destruct (read_title_spec lines j g2 t n Hj Hr) as (_ & _ & Hp & _).
      destruct (decide (i < j + n)) as [Hlt|]; [|lia].
      destruct (Hp i) as (c & Hc & Hpo); [lia|].
      rewrite Hli in Hc. injection Hc as <-.
      by apply matching_not_passed_over in Hpo.
  - intros j l h Hl Hs IH Hji.
    destruct (decide (j = i)) as [->|Hne].
    + exists []. split; [|by intros h' Hh%elem_of_nil].
      simpl. rewrite (headings_from_eq lines i), Hl. by rewrite Hs.
    + apply scan_line_emit in Hs as (g2 & _ & _ & Hr & Hidx & _).
      apply lookup_lt_Some in Hl as Hj.
      destruct (read_title_spec lines j g2 _ _ Hj Hr) as (_ & _ & Hp & _).
      assert (j + line_count h ≤ i) as Hle.
      { destruct (decide (i < j + line_count h)) as [Hlt|]; [|lia].
        destruct (Hp i) as (c & Hc & Hpo); [lia|].
        rewrite Hli in Hc. injection Hc as <-.
        by apply matching_not_passed_over in Hpo. }
      destruct (IH Hle) as (before & -> & Hbefore).
      exists (h :: before). split; [done|].
      intros h' [->|Hh]%elem_of_cons; [lia|by apply Hbefore].
Qed.

(** Lines with an empty cleaned text are stepped over one at a time. *)
Lemma headings_from_blank a b :
  a ≤ b → b ≤ length lines →
  (∀ k c, a ≤ k < b → lines !! k = Some c →
          Py.is_empty (Line.cleaned_text c) = true) →
  headings_from lines a = headings_from lines b.
Proof.
  intros Hab. induction Hab as [|b Hab IH]; intros Hb Hblank; [done|].
  rewrite IH; [|lia|intros k c Hk; apply Hblank; lia].
  destruct (lookup_lt_is_Some_2 lines b) as [c Hc]; [lia|].
  rewrite (headings_from_eq lines b), Hc.
  unfold scan_line. rewrite (Hblank b c); [|lia|done].
  by replace (b + 1) with (S b) by lia.
Qed.

End HeadingFacts.

(** ** The heading detector: the claims *)

(** C10. Every heading returned by [find_headings] spans at least one line
    and ends within the line sequence, and of any two headings of the list
    the earlier one ends at or before the line where the later one starts;
    the ranges between consecutive headings that [build_clauses] scans are
    therefore in bounds and pairwise disjoint. *)
Theorem find_headings_spans (lines : list Line.t) :
  (∀ h, h ∈ find_headings lines →
        1 ≤ line_count h ∧ line_index h + line_count h ≤ length lines)
  ∧ (∀ k k' h h', k < k' →
        find_headings lines !! k = Some h →
        find_headings lines !! k' = Some h' →
        line_index h + line_count h ≤ line_index h').
Proof.
  pose proof (headings_from_spans lines 0) as Hok.
  change (headings_from lines 0) with (find_headings lines) in Hok.
  split.
  - intros h Hh. by destruct (spans_ok_elem _ _ _ _ Hok Hh) as (_ & ? & ?).
  - intros k k' h h' Hlt Hk Hk'. by eapply spans_ok_pair.
Qed.

(** C5. A heading candidate at line [i] (its cleaned text matches the
    pattern and the line is prominent) whose identifier has no dot and
    whose title is still empty after the lookahead yields no heading, and
    the scan goes on from the next line: the headings found are those found
    before line [i] followed by those found from line [i + 1] on.  A
    candidate whose identifier has a dot is emitted with the title and span
    read, whether or not the title is empty. *)
Theorem bare_number_discarded (lines : list Line.t) (i : nat) (line : Line.t)
    (identifier : string) (group2 : option string) (title : string) (consumed : nat) :
  lines !! i = Some line →
  Re.HEADING_RE_match (Line.cleaned_text line) = Some (identifier, group2) →
  below_threshold line = false →
  read_title lines i group2 = (title, consumed) →
  (Py.mem Re.dot identifier = false → Py.is_empty title = true →
     (∀ h, h ∈ find_headings lines → line_index h ≠ i)
     ∧ ∃ before,
         find_headings lines = before ++ headings_from lines (i + 1)
         ∧ ∀ h, h ∈ before → line_index h < i)
  ∧ (Py.mem Re.dot identifier = true →
     mkHeading identifier title i consumed ∈ find_headings lines).
Proof.
  intros Hl Hm Hprom Hr.
  apply lookup_lt_Some in Hl as Hi.
  pose proof (matches_Some _ _ _ Hm) as Hmatch.
  destruct (reached_from lines i line 0 Hl Hmatch) as (before & Hfound & Hbefore); [lia|].
  change (headings_from lines 0) with (find_headings lines) in Hfound.
  pose proof (headings_from_spans lines 0) as Hok.
  change (headings_from lines 0) with (find_headings lines) in Hok.
  assert (scan_line lines i line =
          if Py.is_empty title && negb (Py.mem Re.dot identifier)
          then Discard consumed else Emit (mkHeading identifier title i consumed)) as Hscan.
  { unfold scan_line. rewrite (matches_not_blank _ Hmatch), Hm, Hprom. by rewrite Hr. }
  split.
  - intros Hdot Hempty. rewrite Hdot, Hempty in Hscan. simpl in Hscan.
    destruct (read_title_spec lines i group2 title consumed Hi Hr) as (H1 & Hle & _ & Hblank).
    assert (headings_from lines i = headings_from lines (i + 1)) as Hnext.
    { rewrite (headings_from_eq lines i), Hl, Hscan.
      symmetry. apply headings_from_blank; [lia | lia |].
      intros k c Hk Hc. apply (Hblank Hempty k c); [lia|done]. }
    assert (∀ h, h ∈ before → line_index h < i) as Hlt.
    { intros h Hh. specialize (Hbefore h Hh).
      assert (h ∈ find_headings lines) as Hin by (rewrite Hfound; set_solver).
      destruct (spans_ok_elem _ _ _ _ Hok Hin) as (_ & ? & _). lia. }
    split.
    + intros h Hh. rewrite Hfound, Hnext in Hh.
      apply elem_of_app in Hh as [Hh|Hh].
      * specialize (Hlt h Hh). lia.
      * apply headings_from_emitted in Hh as [? _]. lia.
    + exists before. by rewrite <- Hnext.
  - intros Hdot. rewrite Hdot, andb_false_r in Hscan.
    rewrite Hfound, (headings_from_eq lines i), Hl, Hscan. set_solver.
Qed.

Lemma bare_number_discarded_witness :
  (∀ h, h ∈ find_headings bare_number_lines → line_index h ≠ 0)
  ∧ ∃ before,
      find_headings bare_number_lines = before ++ headings_from bare_number_lines 1
      ∧ ∀ h, h ∈ before → line_index h < 0.
Proof.
  refine (proj1 (bare_number_discarded bare_number_lines 0
                   (one_chunk 1 700 "7" 16 true)
                   "7" None EmptyString 1 _ _ _ _) _ _); reflexivity.
Defined.

(** ** The clause tree builder's loop *)

Section BuildLoop.

Variable lines : list Line.t.

(** *** The body loop *)

Lemma add_line_fields s c :
  Clause.identifier (Clause.add_line s c) = Clause.identifier c
  ∧ Clause.title (Clause.add_line s c) = Clause.title c
  ∧ Clause.children (Clause.add_line s c) = Clause.children c
  ∧ Clause.body_lines (Clause.add_line s c) = Clause.body_lines c ++ [s].
Proof. done. Qed.

Lemma body_loop_appends body prev_top prev_page :
  ∃ added, ∀ c,
    Clause.identifier (body_loop body prev_top prev_page c) = Clause.identifier c
    ∧ Clause.title (body_loop body prev_top prev_page c) = Clause.title c
    ∧ Clause.children (body_loop body prev_top prev_page c) = Clause.children c
    ∧ Clause.body_lines (body_loop body prev_top prev_page c)
      = Clause.body_lines c ++ added.
Proof.
  revert prev_top prev_page.
  induction body as [|line rest IH]; intros pt pp; simpl.
  - exists []. intros c. by rewrite app_nil_r.
  - destruct (should_skip_line _); [apply IH|].
    destruct (Re.matches _); [apply IH|].
    destruct (looks_like_fragment _ _); [apply IH|].
    destruct (IH (Some (Line.top line)) (Some (Line.page line))) as [added Hadd].
    destruct pp as [page|];
      [destruct (negb (Line.page line =? page)%Z
                 || Qltb 18 (Line.top line - prev_top_or pt (Line.top line))%Q)|];
      destruct (Py.is_empty (Line.cleaned_text line));
      eexists; intros c;
      (match goal with
       | |- context [body_loop rest ?t ?p ?cl] =>
           destruct (Hadd cl) as (-> & -> & -> & ->)
       end);
      simpl; rewrite <- ?app_assoc; split_and!; reflexivity.
Qed.

Lemma body_loop_fields body prev_top prev_page c :
  Clause.identifier (body_loop body prev_top prev_page c) = Clause.identifier c
  ∧ Clause.title (body_loop body prev_top prev_page c) = Clause.title c
  ∧ Clause.children (body_loop body prev_top prev_page c) = Clause.children c
  ∧ Clause.body_lines (body_loop body prev_top prev_page c)
    = Clause.body_lines c ++ appended body prev_top prev_page.
Proof.
  destruct (body_loop_appends body prev_top prev_page) as [added Hadd].
  unfold appended.
  destruct (Hadd (Clause.mk "" "" [] [])) as (_ & _ & _ & ->). simpl.
  apply Hadd.
Qed.

(** A line whose text matches the heading pattern leaves the body as
    it would be without the line. *)
Lemma body_loop_skips_match before line after prev_top prev_page c :
  Re.matches (Line.cleaned_text line) = true →
  body_loop (before ++ line :: after) prev_top prev_page c
  = body_loop (before ++ after) prev_top prev_page c.
Proof.
  intros Hm. revert prev_top prev_page c.
  induction before as [|l before IH]; intros pt pp c; simpl.
  - rewrite Hm. by destruct (should_skip_line (Line.cleaned_text line)).
  - destruct (should_skip_line (Line.cleaned_text l)); [apply IH|].
    destruct (Re.matches (Line.cleaned_text l)); [apply IH|].
    destruct (looks_like_fragment l (Line.cleaned_text l)); [apply IH|]. apply IH.
Qed.

(** *** One turn of the loop over the headings *)

Lemma build_step_seen h rest st :
  is_Some (clause_by_id st !! identifier h) → build_step lines h rest st = st.
Proof. intros [c Hc]. unfold build_step. by rewrite Hc. Qed.

(** The store and the roots after a turn that creates a clause. *)
Lemma build_step_new h rest st :
  clause_by_id st !! identifier h = None →
  let id := identifier h in
  let fresh := Clause.mk id (title h) [] [] in
  let fill := body_loop (slice lines (line_index h + line_count h) (body_end lines rest))
                        None None in
  let attached :=
    Py.mem Re.dot id && bool_decide (is_Some (clause_by_id st !! parent_identifier id)) in
  clause_by_id (build_step lines h rest st)
  = alter fill id
      (if attached
       then alter (Clause.add_child id) (parent_identifier id) (<[id := fresh]> (clause_by_id st))
       else <[id := fresh]> (clause_by_id st))
  ∧ clauses (build_step lines h rest st)
    = if attached then clauses st else clauses st ++ [id].
Proof.
  intros Hnew. cbv zeta. unfold build_step, attach. rewrite Hnew. cbn [clause_by_id clauses].
  destruct (Py.mem Re.dot (identifier h)) eqn:Hdot; [|done].
  rewrite lookup_insert_ne by (apply not_eq_sym, parent_identifier_ne, Hdot).
  destruct (clause_by_id st !! parent_identifier (identifier h)) as [p|] eqn:Hp.
  - rewrite bool_decide_eq_true_2 by eauto. done.
  - rewrite bool_decide_eq_false_2; [done|]. by intros [? ?].
Qed.

End BuildLoop.

Section BuildSteps.

Variable lines : list Line.t.

Lemma filled_fields h rest :
  Clause.identifier (filled lines h rest) = identifier h
  ∧ Clause.title (filled lines h rest) = title h
  ∧ Clause.children (filled lines h rest) = []
  ∧ Clause.body_lines (filled lines h rest)
    = collected (slice lines (line_index h + line_count h) (body_end lines rest)).
Proof.
  unfold filled, collected.
  destruct (body_loop_fields
              (slice lines (line_index h + line_count h) (body_end lines rest))
              None None (Clause.mk (identifier h) (title h) [] []))
    as (-> & -> & -> & ->). done.
Qed.

Lemma build_step_lookup h rest st k :
  clause_by_id st !! identifier h = None →
  clause_by_id (build_step lines h rest st) !! k
  = if decide (k = identifier h) then Some (filled lines h rest)
    else if attaches h st && bool_decide (k = parent_identifier (identifier h))
         then Clause.add_child (identifier h) <$> clause_by_id st !! k
         else clause_by_id st !! k.
Proof.
  intros Hnew. destruct (build_step_new lines h rest st Hnew) as [-> _].
  fold (attaches h st). unfold filled.
  destruct (decide (k = identifier h)) as [->|Hk].
  - rewrite lookup_alter_eq.
    destruct (attaches h st) eqn:Hatt.
    + apply andb_true_iff in Hatt as [Hdot _].
      rewrite lookup_alter_ne by (apply parent_identifier_ne, Hdot).
      by rewrite lookup_insert_eq.
    + by rewrite lookup_insert_eq.
  - rewrite lookup_alter_ne by done.
    destruct (attaches h st); simpl.
    + case_bool_decide as Hp.
      * subst k. rewrite lookup_alter_eq. by rewrite lookup_insert_ne by done.
      * rewrite lookup_alter_ne by done. by rewrite lookup_insert_ne by done.
    + by rewrite lookup_insert_ne by done.
Qed.

Lemma build_step_clauses h rest st :
  clause_by_id st !! identifier h = None →
  clauses (build_step lines h rest st)
  = if attaches h st then clauses st else clauses st ++ [identifier h].
Proof. intros Hnew. by destruct (build_step_new lines h rest st Hnew) as [_ ->]. Qed.

Lemma build_step_dom h rest st k :
  is_Some (clause_by_id (build_step lines h rest st) !! k)
  ↔ is_Some (clause_by_id st !! k) ∨ k = identifier h.
Proof.
  destruct (clause_by_id st !! identifier h) as [c|] eqn:Hid.
  - rewrite build_step_seen by eauto. split; [by left|].
    intros [?| ->]; [done|eauto].
  - rewrite build_step_lookup by done.
    destruct (decide (k = identifier h)) as [->|Hk].
    + split; [by right|eauto].
    + destruct (attaches h st && bool_decide (k = parent_identifier (identifier h))).
      * rewrite fmap_is_Some. split; [by left|by intros [?|?]].
      * split; [by left|by intros [?|?]].
Qed.

(** *** Later states *)

Lemma later_state_refl st : later_state st st.
Proof.
  split.
  - intros k c Hc. by exists c.
  - done.
  - intros x k c' _ Hc'. split; [by exists c'|]. intros (c & Hc & Hx). congruence.
Qed.

Lemma later_state_dom st st' k :
  later_state st st' → is_Some (clause_by_id st !! k) → is_Some (clause_by_id st' !! k).
Proof. intros [Hc _ _] [c Hk]. destruct (Hc k c Hk) as (c' & -> & _). eauto. Qed.

Lemma later_state_trans st1 st2 st3 :
  later_state st1 st2 → later_state st2 st3 → later_state st1 st3.
Proof.
  intros H12 H23. split.
  - intros k c Hc.
    destruct (later_clause _ _ H12 k c Hc) as (c2 & Hc2 & E1 & E2 & E3).
    destruct (later_clause _ _ H23 k c2 Hc2) as (c3 & Hc3 & F1 & F2 & F3).
    exists c3. split_and!; [done|congruence..].
  - intros x Hx.
    rewrite (later_roots _ _ H23 x (later_state_dom _ _ _ H12 Hx)).
    by apply (later_roots _ _ H12).
  - intros x k c3 Hx Hc3.
    rewrite (later_children _ _ H23 x k c3 (later_state_dom _ _ _ H12 Hx) Hc3).
    split.
    + intros (c2 & Hc2 & Hin).
      by apply (later_children _ _ H12 x k c2 Hx Hc2).
    + intros (c1 & Hc1 & Hin).
      destruct (later_clause _ _ H12 k c1 Hc1) as (c2 & Hc2 & _).
      exists c2. split; [done|].
      apply (later_children _ _ H12 x k c2 Hx Hc2). eauto.
Qed.

Lemma add_child_elem x id c :
  x ∈ Clause.children (Clause.add_child id c) ↔ x ∈ Clause.children c ∨ x = id.
Proof. simpl. rewrite elem_of_app, list_elem_of_singleton. done. Qed.

Lemma build_step_later h rest st : later_state st (build_step lines h rest st).
Proof.
  destruct (clause_by_id st !! identifier h) as [c0|] eqn:Hid.
  { rewrite build_step_seen by eauto. apply later_state_refl. }
  split.
  - intros k c Hc.
    assert (k ≠ identifier h) as Hk by congruence.
    rewrite build_step_lookup by done. rewrite decide_False by done.
    destruct (attaches h st && bool_decide (k = parent_identifier (identifier h))).
    + rewrite Hc. simpl. eexists. split; [done|]. done.
    + by exists c.
  - intros x [c Hx].
    assert (x ≠ identifier h) as Hk by congruence.
    rewrite build_step_clauses by done.
    destruct (attaches h st); [done|].
    rewrite elem_of_app, list_elem_of_singleton. split; [by intros [?|?]|by left].
  - intros x k c' [cx Hx] Hc'.
    assert (x ≠ identifier h) as Hxne by congruence.
    rewrite build_step_lookup in Hc' by done.
    destruct (decide (k = identifier h)) as [->|Hk].
    + injection Hc' as <-.
      destruct (filled_fields h rest) as (_ & _ & -> & _).
      split; [by intros ?%elem_of_nil|]. intros (c & Hc & _). congruence.
    + destruct (attaches h st && bool_decide (k = parent_identifier (identifier h))).
      * destruct (clause_by_id st !! k) as [c|] eqn:Hc; [|done].
        injection Hc' as <-. rewrite add_child_elem. split.
        -- intros [?|?]; [|done]. by exists c.
        -- intros (c1 & [= <-] & ?). by left.
      * split; [by exists c'|]. intros (c & Hc & ?). congruence.
Qed.

Lemma build_step_well_formed h rest st :
  well_formed st → well_formed (build_step lines h rest st).
Proof.
  intros Hwf.
  destruct (clause_by_id st !! identifier h) as [c0|] eqn:Hid.
  { by rewrite build_step_seen by eauto. }
  split.
  - intros k c. rewrite build_step_lookup by done.
    destruct (decide (k = identifier h)) as [->|Hk].
    + intros [= <-]. by destruct (filled_fields h rest) as (-> & _).
    + destruct (attaches h st && bool_decide (k = parent_identifier (identifier h))).
      * destruct (clause_by_id st !! k) as [c1|] eqn:Hc1; [|done].
        intros [= <-]. simpl. by apply (wf_identifier _ Hwf).
      * by apply (wf_identifier _ Hwf).
  - intros r. rewrite build_step_clauses by done. rewrite build_step_dom.
    destruct (attaches h st).
    + intros Hr. left. by apply (wf_roots _ Hwf).
    + rewrite elem_of_app, list_elem_of_singleton.
      intros [Hr|Hr]; [left; by apply (wf_roots _ Hwf)|by right].
  - intros k p c. rewrite build_step_lookup by done. rewrite build_step_dom.
    destruct (decide (k = identifier h)) as [->|Hk].
    + intros [= <-]. destruct (filled_fields h rest) as (_ & _ & -> & _).
      by intros ?%elem_of_nil.
    + destruct (attaches h st && bool_decide (k = parent_identifier (identifier h))) eqn:Hatt.
      * destruct (clause_by_id st !! k) as [c1|] eqn:Hc1; [|done].
        intros [= <-]. rewrite add_child_elem. intros [Hc| ->].
        -- destruct (wf_children _ Hwf k c1 c Hc1 Hc) as [? ?]. split; [done|by left].
        -- apply andb_true_iff in Hatt as [_ Hk'%bool_decide_eq_true].
           split; [done|by right].
      * intros Hp Hc. destruct (wf_children _ Hwf k p c Hp Hc) as [? ?].
        split; [done|by left].
Qed.

(** *** The loop *)

Lemma build_loop_app hs tail st :
  build_loop lines (hs ++ tail) st
  = build_loop lines tail (build_prefix lines hs tail st).
Proof. revert st. induction hs as [|h hs IH]; intros st; simpl; [done|]. apply IH. Qed.

Lemma build_loop_later hs st : later_state st (build_loop lines hs st).
Proof.
  revert st. induction hs as [|h hs IH]; intros st; simpl.
  - apply later_state_refl.
  - eapply later_state_trans; [apply build_step_later|apply IH].
Qed.

Lemma build_prefix_well_formed hs tail st :
  well_formed st → well_formed (build_prefix lines hs tail st).
Proof.
  revert st. induction hs as [|h hs IH]; intros st Hwf; simpl; [done|].
  apply IH. by apply build_step_well_formed.
Qed.

Lemma build_loop_well_formed hs st :
  well_formed st → well_formed (build_loop lines hs st).
Proof.
  revert st. induction hs as [|h hs IH]; intros st Hwf; simpl; [done|].
  apply IH. by apply build_step_well_formed.
Qed.

Lemma build_prefix_dom hs tail st k :
  is_Some (clause_by_id (build_prefix lines hs tail st) !! k)
  ↔ is_Some (clause_by_id st !! k) ∨ k ∈ identifier <$> hs.
Proof.
  revert st. induction hs as [|h hs IH]; intros st; simpl.
  - split; [by left|]. intros [?|?%elem_of_nil]; done.
  - rewrite IH, build_step_dom, elem_of_cons. tauto.
Qed.

Lemma build_loop_dom hs st k :
  is_Some (clause_by_id (build_loop lines hs st) !! k)
  ↔ is_Some (clause_by_id st !! k) ∨ k ∈ identifier <$> hs.
Proof.
  revert st. induction hs as [|h hs IH]; intros st; simpl.
  - split; [by left|]. intros [?|?%elem_of_nil]; done.
  - rewrite IH, build_step_dom, elem_of_cons. tauto.
Qed.

Lemma empty_state_well_formed : well_formed (mkState [] ∅).
Proof.
  split; simpl.
  - intros k c. by rewrite lookup_empty.
  - by intros r ?%elem_of_nil.
  - intros k p c. by rewrite lookup_empty.
Qed.

(** The roots are identifiers of headings, in the order in which their
    clauses were created. *)
Lemma build_loop_roots hs st r :
  r ∈ clauses (build_loop lines hs st) → r ∈ clauses st ∨ r ∈ identifier <$> hs.
Proof.
  revert st. induction hs as [|h hs IH]; intros st; simpl; [by left|].
  intros [Hr|Hr]%IH; [|right; apply elem_of_cons; by right].
  destruct (clause_by_id st !! identifier h) as [c0|] eqn:Hid.
  { rewrite build_step_seen in Hr by eauto. by left. }
  rewrite build_step_clauses in Hr by done.
  destruct (attaches h st); [by left|].
  apply elem_of_app in Hr as [?|Hr]; [by left|].
  apply list_elem_of_singleton in Hr as ->.
  right. apply elem_of_cons. by left.
Qed.

End BuildSteps.

(** ** The clause built for a heading *)

Section ClauseOfHeading.

Variable lines : list Line.t.

(** The first heading with a given identifier creates the clause, which
    keeps the body read at that turn; where the clause hangs is decided at
    that turn and never changes. *)
Lemma clause_of_heading hs1 h hs2 :
  identifier h ∉ identifier <$> hs1 →
  let final := build_loop lines (hs1 ++ h :: hs2) (mkState [] ∅) in
  let id := identifier h in
  let created := parent_identifier id ∈ identifier <$> hs1 in
  (∃ c, clause_by_id final !! id = Some c
        ∧ Clause.identifier c = id ∧ Clause.title c = title h
        ∧ Clause.body_lines c
          = collected (slice lines (line_index h + line_count h) (body_end lines hs2)))
  ∧ (Py.mem Re.dot id = true → created →
     (∃ p, clause_by_id final !! parent_identifier id = Some p
           ∧ id ∈ Clause.children p)
     ∧ id ∉ clauses final)
  ∧ (Py.mem Re.dot id = false ∨ ¬ created →
     id ∈ clauses final
     ∧ ∀ k p, clause_by_id final !! k = Some p → id ∉ Clause.children p).
Proof.
  intros Hfirst. cbv zeta.
  rewrite build_loop_app. simpl.
  set (st1 := build_prefix lines hs1 (h :: hs2) (mkState [] ∅)).
  set (st2 := build_step lines h hs2 st1).
  pose proof (build_prefix_well_formed lines hs1 (h :: hs2) _
                (empty_state_well_formed)) as Hwf1.
  fold st1 in Hwf1.
  assert (∀ k, is_Some (clause_by_id st1 !! k) ↔ k ∈ identifier <$> hs1) as Hdom1.
  { intros k. unfold st1. rewrite build_prefix_dom. simpl. rewrite lookup_empty.
    split; [intros [[? ?]|?]; done|by right]. }
  assert (clause_by_id st1 !! identifier h = None) as Hnew.
  { apply eq_None_not_Some. by rewrite Hdom1. }
  pose proof (build_loop_later lines hs2 st2) as Hlater.
  assert (clause_by_id st2 !! identifier h = Some (filled lines h hs2)) as Hid2.
  { unfold st2. rewrite build_step_lookup by done. by rewrite decide_True. }
  assert (identifier h ∉ clauses st1) as Hnotroot1.
  { intros Hr. apply (wf_roots _ Hwf1) in Hr. rewrite Hnew in Hr. by destruct Hr. }
  assert (∀ k p, clause_by_id st1 !! k = Some p → identifier h ∉ Clause.children p)
    as Hnotchild1.
  { intros k p Hp Hc. destruct (wf_children _ Hwf1 k p _ Hp Hc) as [_ Hs].
    rewrite Hnew in Hs. by destruct Hs. }
  split_and!.
  - destruct (later_clause _ _ Hlater _ _ Hid2) as (c & Hc & E1 & E2 & E3).
    destruct (filled_fields lines h hs2) as (F1 & F2 & _ & F4).
    exists c. split_and!; [done|congruence..].
  - intros Hdot Hcreated. apply Hdom1 in Hcreated as Hparent.
    assert (attaches h st1 = true) as Hatt.
    { unfold attaches. rewrite Hdot. simpl. by apply bool_decide_eq_true_2. }
    destruct Hparent as [p1 Hp1].
    assert (clause_by_id st2 !! parent_identifier (identifier h)
            = Some (Clause.add_child (identifier h) p1)) as Hp2.
    { unfold st2. rewrite build_step_lookup by done.
      rewrite decide_False by (apply parent_identifier_ne, Hdot).
      rewrite Hatt. simpl. rewrite bool_decide_eq_true_2 by done. by rewrite Hp1. }
    split.
    + destruct (later_clause _ _ Hlater _ _ Hp2) as (p & Hp & _).
      exists p. split; [done|].
      apply (later_children _ _ Hlater (identifier h) _ p (mk_is_Some _ _ Hid2) Hp).
      eexists. split; [done|]. apply add_child_elem. by right.
    + rewrite (later_roots _ _ Hlater (identifier h)) by eauto.
      unfold st2. rewrite build_step_clauses by done. by rewrite Hatt.
  - intros Hroot.
    assert (attaches h st1 = false) as Hatt.
    { unfold attaches. destruct Hroot as [->|Hnc]; [done|].
      rewrite bool_decide_eq_false_2; [apply andb_false_r|]. by rewrite Hdom1. }
    split.
    + rewrite (later_roots _ _ Hlater (identifier h)) by eauto.
      unfold st2. rewrite build_step_clauses by done. rewrite Hatt.
      apply elem_of_app. right. by apply list_elem_of_singleton.
    + intros k p Hp Hin.
      apply (later_children _ _ Hlater (identifier h) k p (mk_is_Some _ _ Hid2) Hp) in Hin.
      destruct Hin as (c2 & Hc2 & Hin).
      unfold st2 in Hc2. rewrite build_step_lookup in Hc2 by done.
      destruct (decide (k = identifier h)) as [->|Hk].
      * injection Hc2 as <-.
        destruct (filled_fields lines h hs2) as (_ & _ & Hch & _).
        rewrite Hch in Hin. by apply elem_of_nil in Hin.
      * rewrite Hatt in Hc2. simpl in Hc2. by apply (Hnotchild1 k c2).
Qed.

(** In every state the loop reaches, a child hangs under the clause whose
    identifier is its parent identifier, and under no other. *)
Lemma build_state_children k p c :
  clause_by_id (build_state lines) !! k = Some p → c ∈ Clause.children p →
  k = parent_identifier c.
Proof.
  intros Hp Hc.
  pose proof (build_loop_well_formed lines (find_headings lines) _
                empty_state_well_formed) as Hwf.
  by destruct (wf_children _ Hwf k p c Hp Hc).
Qed.

End ClauseOfHeading.

(** ** Sorting the roots *)

Section Sorting.

Lemma key_lt_irrefl a : key_lt a a = false.
Proof. induction a as [|x a IH]; simpl; [done|]. by rewrite N.eqb_refl. Qed.

Lemma key_lt_asym a b : key_lt a b = true → key_lt b a = false.
Proof.
  revert b. induction a as [|x a IH]; intros [|y b]; simpl; try done.
  destruct (N.eqb_spec x y) as [->|Hne].
  - rewrite N.eqb_refl. apply IH.
  - intros Hlt%N.ltb_lt. destruct (N.eqb_spec y x) as [->|_]; [done|].
    apply N.ltb_ge. lia.
Qed.

(** If [a < c] then any [b] is above [a] or below [c]. *)
Lemma key_lt_cotrans a b c :
  key_lt a c = true → key_lt a b = true ∨ key_lt b c = true.
Proof.
  revert b c. induction a as [|x a IH]; intros [|y b] [|z c]; simpl; try done;
    try (by left); try (by right).
  destruct (N.eqb_spec x z) as [->|Hxz].
  - intros Hac. destruct (N.eqb_spec z y) as [->|Hzy].
    + rewrite N.eqb_refl. by apply IH.
    + destruct (N.eqb_spec y z) as [->|_]; [done|].
      destruct (N.ltb_spec z y); [by left|]. right. apply N.ltb_lt. lia.
  - intros Hlt%N.ltb_lt.
    destruct (N.eqb_spec x y) as [->|Hxy].
    + right. destruct (N.eqb_spec y z) as [->|_]; [done|]. by apply N.ltb_lt.
    + destruct (N.ltb_spec x y); [by left|]. right.
      destruct (N.eqb_spec y z) as [->|_]; [lia|]. apply N.ltb_lt. lia.
Qed.

End Sorting.

(** ** Facts about [sort] *)

Section SortFacts.

Context {A K : Type} (key : A → K) (lt : K → K → bool).
Hypothesis lt_asym : ∀ a b, lt a b = true → lt b a = false.
Hypothesis lt_cotrans : ∀ a b c, lt a c = true → lt a b = true ∨ lt b c = true.

Lemma sort_insert_perm x l : Py.sort_insert key lt x l ≡ₚ x :: l.
Proof.
  induction l as [|d l IH]; simpl; [done|].
  destruct (lt (key d) (key x)); [|done].
  rewrite IH. apply Permutation_swap.
Qed.

Lemma sort_perm l : Py.sort key lt l ≡ₚ l.
Proof.
  induction l as [|x l IH]; simpl; [done|].
  rewrite sort_insert_perm. by rewrite IH.
Qed.

Lemma sort_insert_sorted x l : key_sorted key lt l → key_sorted key lt (Py.sort_insert key lt x l).
Proof.
  induction l as [|d l IH]; simpl; intros Hs.
  - repeat constructor.
  - inversion Hs as [|? ? Hl Hd]; subst.
    destruct (lt (key d) (key x)) eqn:Hdx.
    + constructor; [by apply IH|].
      apply Forall_forall. intros y Hy.
      rewrite sort_insert_perm in Hy.
      apply elem_of_cons in Hy as [->|Hy].
      * by apply lt_asym.
      * rewrite Forall_forall in Hd. by apply Hd.
    + constructor; [done|]. constructor; [done|].
      apply Forall_forall. intros y Hy.
      rewrite Forall_forall in Hd. specialize (Hd y Hy).
      destruct (lt (key y) (key x)) eqn:Hyx; [|done].
      destruct (lt_cotrans _ (key d) _ Hyx); congruence.
Qed.

Lemma sort_sorted l : key_sorted key lt (Py.sort key lt l).
Proof.
  induction l as [|x l IH]; simpl; [constructor|]. by apply sort_insert_sorted.
Qed.

(** Sorting a sorted list changes nothing. *)
Lemma sort_fixed l : key_sorted key lt l → Py.sort key lt l = l.
Proof.
  induction 1 as [|x l Hl IH Hx]; simpl; [done|].
  rewrite IH. destruct l as [|d l]; [done|]. simpl.
  inversion Hx as [|? ? Hd _]; subst. by rewrite Hd.
Qed.

Lemma sort_idempotent l : Py.sort key lt (Py.sort key lt l) = Py.sort key lt l.
Proof. apply sort_fixed, sort_sorted. Qed.

Lemma key_sorted_lookup l i j x y :
  (∀ a, lt a a = false) →
  key_sorted key lt l → l !! i = Some x → l !! j = Some y →
  lt (key x) (key y) = true → i < j.
Proof.
  intros Hirr Hs. revert i j. induction Hs as [|d l Hl IH Hd]; intros i j Hi Hj Hlt.
  - done.
  - rewrite Forall_forall in Hd.
    destruct i as [|i], j as [|j]; simpl in *.
    + injection Hi as <-. injection Hj as <-. by rewrite Hirr in Hlt.
    + lia.
    + injection Hj as <-.
      apply list_elem_of_lookup_2 in Hi.
      rewrite (Hd x Hi) in Hlt. done.
    + specialize (IH i j Hi Hj Hlt). lia.
Qed.

End SortFacts.

(** ** The roots returned *)

Section Roots.

Variable lines : list Line.t.

Lemma elem_of_concat_parts (p : string) (roots : list string) :
  p ∈ concat (Py.split_on Re.dot <$> roots)
  ↔ ∃ r, r ∈ roots ∧ p ∈ Py.split_on Re.dot r.
Proof.
  induction roots as [|r roots IH]; cbn [concat fmap list_fmap].
  - split; [by intros ?%elem_of_nil|by intros (? & ?%elem_of_nil & _)].
  - rewrite elem_of_app, IH. split.
    + intros [Hp|(r' & Hr' & Hp)]; [exists r; split; [left|done]|].
      exists r'. split; [by right|done].
    + intros (r' & [->|Hr']%elem_of_cons & Hp); [by left|]. right. by exists r'.
Qed.

Lemma filter_kept_root (roots : list string) :
  filter (fun id => kept_root id = true) roots = roots.
Proof.
  induction roots as [|r roots IH]; [done|].
  rewrite filter_cons_True by apply kept_root_true. by rewrite IH.
Qed.

(** The identifiers sorted: the same identifiers, and none that sorts
    lower stands after one that sorts higher. *)
Lemma ordered_roots_spec (roots : list string) :
  Forall (fun r => is_Some (sort_key r)) roots →
  ∃ ordered,
    ordered_roots roots = Some ordered
    ∧ ordered ≡ₚ roots
    ∧ ∀ i j a b ka kb,
        ordered !! i = Some a → ordered !! j = Some b →
        sort_key a = Some ka → sort_key b = Some kb →
        key_lt ka kb = true → i < j.
Proof.
  intros Hkeys. unfold ordered_roots. rewrite filter_kept_root.
  destruct (proj2 (mapM_is_Some sort_key roots) Hkeys) as [keys Hm].
  rewrite Hm. eexists. split; [done|].
  apply mapM_Some in Hm as Hall.
  pose proof (Forall2_length _ _ _ Hall) as Hlen.
  assert (∀ k r, (k, r) ∈ Py.sort fst key_lt (zip keys roots) → sort_key r = Some k)
    as Hzip.
  { intros k r. rewrite sort_perm.
    clear -Hall. induction Hall as [|r0 k0 rs ks H0 _ IH]; simpl.
    - by intros ?%elem_of_nil.
    - intros [[= -> ->]|?]%elem_of_cons; [done|by apply IH]. }
  split.
  - rewrite sort_perm. rewrite snd_zip by lia. done.
  - intros i j a b ka kb Hi Hj Ha Hb Hlt.
    apply list_lookup_fmap_Some in Hi as ([k1 a1] & -> & Hi).
    apply list_lookup_fmap_Some in Hj as ([k2 b1] & -> & Hj).
    simpl in *.
    pose proof (Hzip _ _ (list_elem_of_lookup_2 _ _ _ Hi)) as E1.
    pose proof (Hzip _ _ (list_elem_of_lookup_2 _ _ _ Hj)) as E2.
    assert (k1 = ka) as -> by congruence. assert (k2 = kb) as -> by congruence.
    apply (key_sorted_lookup fst key_lt (Py.sort fst key_lt (zip keys roots))
             i j (ka, a1) (kb, b1));
      [apply key_lt_irrefl
      | apply sort_sorted; [apply key_lt_asym | apply key_lt_cotrans]
      | done..].
Qed.

(** The identifier of a heading is made of numbers, and has a sort key
    exactly when none of them has more digits than [int] converts. *)
Lemma find_headings_parts h :
  h ∈ find_headings lines → Forall digit_part (Py.split_on Re.dot (identifier h)).
Proof.
  intros Hh. apply (headings_from_emitted lines 0) in Hh as (_ & line & _ & Hs).
  apply scan_line_emit in Hs as (g2 & Hm & _).
  by eapply HEADING_RE_identifier_parts.
Qed.

Lemma find_headings_keys h :
  h ∈ find_headings lines →
  (is_Some (sort_key (identifier h)) ↔ within_limit (identifier h)).
Proof.
  intros Hh. unfold sort_key, within_limit.
  apply mapM_int_parts. by apply find_headings_parts.
Qed.

Lemma build_state_well_formed : well_formed (build_state lines).
Proof. apply build_loop_well_formed, empty_state_well_formed. Qed.

(** The parts of the identifiers of the roots are numbers. *)
Lemma build_state_roots_parts :
  Forall (fun r => Forall digit_part (Py.split_on Re.dot r)) (clauses (build_state lines)).
Proof.
  apply Forall_forall. intros r Hr.
  apply build_loop_roots in Hr as [Hr|Hr]; [by apply elem_of_nil in Hr|].
  apply list_elem_of_fmap in Hr as (h & -> & Hh). by apply find_headings_parts.
Qed.

(** The roots all have a sort key exactly when they are all within the
    limit of [int]. *)
Lemma build_state_roots_keys :
  Forall (fun r => is_Some (sort_key r)) (clauses (build_state lines))
  ↔ Forall within_limit (clauses (build_state lines)).
Proof.
  pose proof build_state_roots_parts as Hparts.
  rewrite !Forall_forall in *. split.
  - intros Hkeys r Hr. apply (mapM_int_parts _ (Hparts r Hr)), Hkeys, Hr.
  - intros Hlim r Hr. apply (mapM_int_parts _ (Hparts r Hr)), Hlim, Hr.
Qed.

(** The sort returns exactly when every identifier has a key. *)
Lemma ordered_roots_keys (roots : list string) :
  is_Some (ordered_roots roots) ↔ Forall (fun r => is_Some (sort_key r)) roots.
Proof.
  split.
  - unfold ordered_roots. rewrite filter_kept_root. intros [ordered Ho].
    apply mapM_is_Some. by destruct (mapM sort_key roots).
  - intros Hkeys. destruct (ordered_roots_spec _ Hkeys) as (ordered & -> & _). done.
Qed.

(** [build_clauses] returns exactly when no part of the identifier of a
    root has more digits than [int] converts. *)
Lemma build_clauses_returns :
  is_Some (build_clauses lines) ↔ Forall within_limit (clauses (build_state lines)).
Proof.
  rewrite <- build_state_roots_keys, <- ordered_roots_keys. unfold build_clauses.
  destruct (ordered_roots (clauses (build_state lines))); [done|].
  split; by intros [? [=]].
Qed.

(** When [build_clauses] returns, it returns the root clauses of the
    final state in sorted order. *)
Lemma build_clauses_spec roots :
  build_clauses lines = Some roots →
  Clause.identifier <$> roots ≡ₚ clauses (build_state lines)
  ∧ (∀ c, c ∈ roots →
          clause_by_id (build_state lines) !! Clause.identifier c = Some c)
  ∧ ∀ i j a b ka kb,
      roots !! i = Some a → roots !! j = Some b →
      sort_key (Clause.identifier a) = Some ka →
      sort_key (Clause.identifier b) = Some kb →
      key_lt ka kb = true → i < j.
Proof.
  intros Hreturn.
  assert (Forall (fun r => is_Some (sort_key r)) (clauses (build_state lines))) as Hkeys.
  { apply build_state_roots_keys, build_clauses_returns. by rewrite Hreturn. }
  destruct (ordered_roots_spec _ Hkeys) as (ordered & Ho & Hperm & Hsorted).
  unfold build_clauses in Hreturn. rewrite Ho in Hreturn. injection Hreturn as <-.
  pose proof build_state_well_formed as Hwf.
  assert (∀ id, id ∈ ordered →
            clause_by_id (build_state lines) !! id
            = Some (clause_by_id (build_state lines) !!! id)
            ∧ Clause.identifier (clause_by_id (build_state lines) !!! id) = id) as Hroot.
  { intros id Hid. rewrite Hperm in Hid.
    destruct (wf_roots _ Hwf id Hid) as [c Hc].
    rewrite (lookup_total_correct _ _ _ Hc). split; [done|].
    by apply (wf_identifier _ Hwf). }
  assert (Clause.identifier <$> ((fun id => clause_by_id (build_state lines) !!! id) <$> ordered)
          = ordered) as Hids.
  { rewrite <- list_fmap_compose. rewrite <- (list_fmap_id ordered) at 2.
    apply list_fmap_ext. intros i id Hid. simpl.
    by destruct (Hroot id (list_elem_of_lookup_2 _ _ _ Hid)). }
  split_and!.
  - by rewrite Hids.
  - intros c (id & -> & Hid)%list_elem_of_fmap.
    destruct (Hroot id Hid) as [Hl ->]. done.
  - intros i j a b ka kb Hi Hj Ha Hb Hlt.
    apply list_lookup_fmap_Some in Hi as (ida & -> & Hi).
    apply list_lookup_fmap_Some in Hj as (idb & -> & Hj).
    destruct (Hroot ida (list_elem_of_lookup_2 _ _ _ Hi)) as [_ Ea].
    destruct (Hroot idb (list_elem_of_lookup_2 _ _ _ Hj)) as [_ Eb].
    rewrite Ea in Ha. rewrite Eb in Hb.
    by apply (Hsorted i j ida idb ka kb).
Qed.

(** There are roots exactly when there are headings. *)
Lemma build_state_roots_nil :
  clauses (build_state lines) = [] ↔ find_headings lines = [].
Proof.
  unfold build_state. split.
  - destruct (find_headings lines) as [|h hs] eqn:Hf; [done|]. intros Hnil.
    destruct (clause_of_heading lines [] h hs) as (_ & _ & Hroot).
    { by intros ?%elem_of_nil. }
    destruct Hroot as [Hin _].
    { right. by intros ?%elem_of_nil. }
    simpl in Hin. simpl in Hnil. rewrite Hnil in Hin. by apply elem_of_nil in Hin.
  - by intros ->.
Qed.

Lemma build_clauses_nil :
  build_clauses lines = Some [] ↔ find_headings lines = [].
Proof.
  rewrite <- build_state_roots_nil. split.
  - intros Hb. destruct (build_clauses_spec [] Hb) as (Hperm & _).
    simpl in Hperm. by apply Permutation_nil_l in Hperm.
  - intros Hnil. unfold build_clauses. by rewrite Hnil.
Qed.

Lemma digit_run_all_digits p :
  Py.all_digits p = true → Py.digit_run p = String.length p.
Proof.
  induction p as [|c p IH]; [done|]. cbn [Py.all_digits Py.digit_run String.length].
  intros [-> Hp]%andb_true_iff. by rewrite IH.
Qed.

(** When [build_clauses] does not return, the sort has met a part with
    more digits than [int] converts, and the error says how many. *)
Lemma build_clauses_error_limit :
  build_clauses lines = None →
  ∃ digits, Py.max_str_digits < digits
            ∧ build_clauses_error lines = limit_message digits.
Proof.
  intros Hnone. unfold build_clauses_error, failing_part.
  destruct (List.find _ (key_parts (clauses (build_state lines)))) as [p|] eqn:Hfind.
  - apply List.find_some in Hfind as [Hp Hint]. apply list_elem_of_In in Hp.
    unfold key_parts in Hp. rewrite filter_kept_root in Hp.
    apply elem_of_concat_parts in Hp as (r & Hr & Hp).
    pose proof build_state_roots_parts as Hparts.
    rewrite Forall_forall in Hparts. specialize (Hparts r Hr).
    rewrite Forall_forall in Hparts. specialize (Hparts p Hp).
    destruct (Py.int p) eqn:Hintp; [done|].
    assert (¬ String.length p ≤ Py.max_str_digits) as Hlen.
    { intros Hle. apply (int_digit_part p Hparts) in Hle. rewrite Hintp in Hle.
      by destruct Hle. }
    exists (String.length p). split; [lia|]. cbn [default id]. unfold int_error.
    destruct Hparts as [_ Hdigits]. rewrite (digit_run_all_digits p Hdigits).
    by rewrite (proj2 (Nat.ltb_lt _ _)) by lia.
  - exfalso.
    assert (is_Some (build_clauses lines)) as [? ?]; [|congruence].
    apply build_clauses_returns, build_state_roots_keys, Forall_forall.
    intros r Hr. unfold sort_key. apply mapM_is_Some, Forall_forall. intros p Hp.
    change (is_Some (Py.int p)).
    assert (In p (key_parts (clauses (build_state lines)))) as Hin.
    { apply list_elem_of_In. unfold key_parts. rewrite filter_kept_root.
      apply elem_of_concat_parts. by exists r. }
    pose proof (List.find_none _ _ Hfind p Hin) as Hint. cbn beta in Hint.
    by destruct (Py.int p).
Qed.

End Roots.

(** ** The clause tree builder: the claims *)

Lemma slice_split (lines : list Line.t) a i b line :
  a ≤ i < b → lines !! i = Some line →
  slice lines a b = slice lines a i ++ line :: slice lines (i + 1) b.
Proof.
  intros Hi Hl. apply lookup_lt_Some in Hl as Hlen. unfold slice.
  rewrite <- (take_drop (i - a) (drop a lines)) at 1.
  rewrite take_app, take_take, length_take, length_drop, drop_drop.
  replace (a + (i - a)) with i by lia.
  rewrite (drop_S _ _ _ Hl).
  replace ((b - a) `min` (i - a)) with (i - a) by lia.
  replace (b - a - (i - a) `min` (length lines - a)) with (S (b - (i + 1))) by lia.
  simpl. by replace (i + 1) with (S i) by lia.
Qed.

(** C1 (as amended). A line whose cleaned text matches the heading pattern
    but whose font size is below 14 or whose bold ratio is below 0.5 is no
    heading's line: no heading starts at it and no heading's span covers
    it.  When it lies in the range of lines read for a clause, the clause
    builder skips it because its text matches the heading pattern again:
    the clause's body lines are those collected from the range without
    that line. *)
Theorem heading_gating (lines : list Line.t) (i : nat) (line : Line.t) :
  lines !! i = Some line →
  Re.matches (Line.cleaned_text line) = true →
  below_threshold line = true →
  (∀ h, h ∈ find_headings lines →
        ¬ (line_index h ≤ i < line_index h + line_count h))
  ∧ (∀ hs1 h hs2,
        find_headings lines = hs1 ++ h :: hs2 →
        identifier h ∉ identifier <$> hs1 →
        line_index h + line_count h ≤ i < body_end lines hs2 →
        ∃ c, clause_by_id (build_state lines) !! identifier h = Some c
             ∧ Clause.body_lines c
               = collected (slice lines (line_index h + line_count h) i
                            ++ slice lines (i + 1) (body_end lines hs2))).
Proof.
  intros Hl Hm Hlow. split.
  - intros h Hh Hspan.
    apply (headings_from_emitted lines 0) in Hh as (_ & l & Hlh & Hs).
    apply scan_line_emit in Hs as (g2 & _ & Hprom & Hr & _ & _).
    apply lookup_lt_Some in Hlh as Hlt.
    destruct (read_title_spec lines _ g2 _ _ Hlt Hr) as (_ & _ & Hp & _).
    destruct (decide (line_index h = i)) as [Hi|Hi].
    + rewrite Hi, Hl in Hlh. injection Hlh as <-. congruence.
    + destruct (Hp i) as (c & Hc & Hpo); [lia|].
      rewrite Hl in Hc. injection Hc as <-.
      by apply matching_not_passed_over in Hpo.
  - intros hs1 h hs2 Hf Hfirst Hrange.
    destruct (clause_of_heading lines hs1 h hs2 Hfirst) as ((c & Hc & _ & _ & Hbody) & _).
    unfold build_state. rewrite Hf. exists c. split; [done|].
    rewrite Hbody. rewrite (slice_split lines _ i _ line) by done.
    unfold collected, appended. by rewrite body_loop_skips_match.
Qed.

Lemma heading_gating_witness :
  (∀ h, h ∈ find_headings gated_lines →
        ¬ (line_index h ≤ 1 < line_index h + line_count h))
  ∧ (∀ hs1 h hs2,
        find_headings gated_lines = hs1 ++ h :: hs2 →
        identifier h ∉ identifier <$> hs1 →
        line_index h + line_count h ≤ 1 < body_end gated_lines hs2 →
        ∃ c, clause_by_id (build_state gated_lines) !! identifier h = Some c
             ∧ Clause.body_lines c
               = collected (slice gated_lines (line_index h + line_count h) 1
                            ++ slice gated_lines (1 + 1) (body_end gated_lines hs2))).
Proof.
  apply (heading_gating gated_lines 1 faint_numbered_line); reflexivity.
Defined.

(** C1, as stated, fails: the line below is in 12 point type with bold
    ratio 1/5, its text matches the heading pattern, it lies between the
    headings 3 and 5, and neither [should_skip_line] nor
    [looks_like_fragment] drops it; yet it is not appended to the body of
    clause 3, which stays empty. *)
Lemma heading_gating_counterexample :
  gated_lines !! 1 = Some faint_numbered_line
  ∧ Line.cleaned_text faint_numbered_line = "4 Abcd"
  ∧ Re.matches (Line.cleaned_text faint_numbered_line) = true
  ∧ Line.max_font_size faint_numbered_line = 12%Q
  ∧ Line.bold_ratio faint_numbered_line = (1 # 5)%Q
  ∧ find_headings gated_lines = [mkHeading "3" "Scope" 0 1; mkHeading "5" "Terms" 2 1]
  ∧ should_skip_line (Line.cleaned_text faint_numbered_line) = false
  ∧ looks_like_fragment faint_numbered_line (Line.cleaned_text faint_numbered_line) = false
  ∧ (Clause.body_lines <$> clause_by_id (build_state gated_lines) !! "3") = Some [].
Proof. vm_compute. repeat split. Qed.

(** C2. The clause built for a heading with a dotted identifier (the
    first heading of the list with that identifier) hangs under the clause
    whose identifier is the heading's identifier without its last
    dot-segment when a heading with that identifier came earlier, and is
    then no root; otherwise it is a root, one of the clauses returned
    whenever [build_clauses] returns.  No clause with another identifier,
    such as a shorter prefix, ever holds it as a child. *)
Theorem parent_attachment (lines : list Line.t) (hs1 : list Heading) (h : Heading)
    (hs2 : list Heading) :
  find_headings lines = hs1 ++ h :: hs2 →
  identifier h ∉ identifier <$> hs1 →
  Py.mem Re.dot (identifier h) = true →
  (parent_identifier (identifier h) ∈ identifier <$> hs1 →
     (∃ p, clause_by_id (build_state lines) !! parent_identifier (identifier h) = Some p
           ∧ identifier h ∈ Clause.children p)
     ∧ identifier h ∉ clauses (build_state lines))
  ∧ (parent_identifier (identifier h) ∉ identifier <$> hs1 →
     identifier h ∈ clauses (build_state lines)
     ∧ ∀ roots, build_clauses lines = Some roots →
                identifier h ∈ Clause.identifier <$> roots)
  ∧ (∀ k p, clause_by_id (build_state lines) !! k = Some p →
            identifier h ∈ Clause.children p →
            k = parent_identifier (identifier h))
  ∧ parent_identifier "3.2.1" = "3.2".
Proof.
  intros Hf Hfirst Hdot.
  destruct (clause_of_heading lines hs1 h hs2 Hfirst) as (_ & Hchild & Hroot).
  unfold build_state. rewrite Hf. split_and!.
  - intros Hcreated. by apply Hchild.
  - intros Hnot. destruct Hroot as [Hin _]; [by right|]. split; [done|].
    intros roots Hb. destruct (build_clauses_spec lines roots Hb) as (Hperm & _).
    rewrite Hperm. unfold build_state. by rewrite Hf.
  - intros k p Hp Hc. rewrite <- Hf in Hp. by apply (build_state_children lines k p).
  - reflexivity.
Qed.

Lemma parent_attachment_witness :
  (∃ p, clause_by_id (build_state nested_lines) !! "3.2" = Some p
        ∧ "3.2.1" ∈ Clause.children p)
  ∧ "3.2.1" ∉ clauses (build_state nested_lines).
Proof.
  refine (proj1 (parent_attachment nested_lines
                   [mkHeading "3.2" "Scope" 0 1] (mkHeading "3.2.1" "Detail" 1 1) []
                   _ _ _) _).
  - reflexivity.
  - apply (proj1 (bool_decide_eq_false _)). reflexivity.
  - reflexivity.
  - apply (bool_decide_eq_true_1 _). reflexivity.
Defined.

(** C3. The root clauses returned by [build_clauses] are sorted by their
    identifiers read as sequences of integers: a root whose key is below
    another root's key stands before it.  The key is compared segment by
    segment as integers, so 4.2 and 4.9 sort before 4.10, which the
    comparison of the texts would put first. *)
Theorem roots_sorted_numerically (lines : list Line.t) (roots : list Clause.t) :
  build_clauses lines = Some roots →
  (∀ c, c ∈ roots → is_Some (sort_key (Clause.identifier c)))
  ∧ (∀ i j a b ka kb,
        roots !! i = Some a → roots !! j = Some b →
        sort_key (Clause.identifier a) = Some ka →
        sort_key (Clause.identifier b) = Some kb →
        key_lt ka kb = true → i < j)
  ∧ (∀ i j a b,
        roots !! i = Some a → roots !! j = Some b →
        (Clause.identifier a = "4.2" ∨ Clause.identifier a = "4.9") →
        Clause.identifier b = "4.10" → i < j)
  ∧ sort_key "4.2" = Some [4; 2]%N ∧ sort_key "4.9" = Some [4; 9]%N
  ∧ sort_key "4.10" = Some [4; 10]%N
  ∧ key_lt [4; 2]%N [4; 10]%N = true ∧ key_lt [4; 9]%N [4; 10]%N = true
  ∧ String.ltb "4.10" "4.2" = true.
Proof.
  intros Hb.
  destruct (build_clauses_spec lines roots Hb) as (Hperm & _ & Hsorted).
  split_and!; try reflexivity.
  - intros c Hc.
    assert (Clause.identifier c ∈ clauses (build_state lines)) as Hin.
    { rewrite <- Hperm. apply list_elem_of_fmap. by exists c. }
    assert (Forall (fun r => is_Some (sort_key r)) (clauses (build_state lines)))
      as Hkeys.
    { apply build_state_roots_keys, build_clauses_returns. by rewrite Hb. }
    rewrite Forall_forall in Hkeys. by apply Hkeys.
  - exact Hsorted.
  - intros i j a b Hi Hj Ha Hb10.
    destruct Ha as [Ha|Ha].
    + apply (Hsorted i j a b [4; 2]%N [4; 10]%N); try done.
      * by rewrite Ha. * by rewrite Hb10.
    + apply (Hsorted i j a b [4; 9]%N [4; 10]%N); try done.
      * by rewrite Ha. * by rewrite Hb10.
Qed.

Lemma roots_sorted_numerically_witness :
  build_clauses unordered_lines
  = Some [ Clause.mk "4.2" "Second" [] [];
           Clause.mk "4.9" "Ninth" [] [];
           Clause.mk "4.10" "Tenth" [] [] ]
  ∧ ∀ i j a b,
      [ Clause.mk "4.2" "Second" [] [];
        Clause.mk "4.9" "Ninth" [] [];
        Clause.mk "4.10" "Tenth" [] [] ] !! i = Some a →
      [ Clause.mk "4.2" "Second" [] [];
        Clause.mk "4.9" "Ninth" [] [];
        Clause.mk "4.10" "Tenth" [] [] ] !! j = Some b →
      (Clause.identifier a = "4.2" ∨ Clause.identifier a = "4.9") →
      Clause.identifier b = "4.10" → i < j.
Proof.
  split; [reflexivity|].
  refine (proj1 (proj2 (proj2 (roots_sorted_numerically unordered_lines _ _)))).
  reflexivity.
Defined.

Lemma extract_pdf_clauses_lines l lines :
  extract_pdf_clauses true (Extracted (l :: lines))
  = match build_clauses (l :: lines) with
    | None => inl (ValueError (build_clauses_error (l :: lines)))
    | Some [] => inl (ValueError "No clauses were detected in the document.")
    | Some (c :: cs) => inr (c :: cs)
    end.
Proof. reflexivity. Qed.

(** C7. [extract_pdf_clauses] returns a non-empty list of root clauses or
    raises: [FileNotFoundError] when the path does not exist, a
    [ValueError] when the extraction yields no line, and a [ValueError]
    when lines are produced but no clause is built, which is the case
    exactly when no heading is detected.  When [build_clauses] returns
    roots, these are what is returned, all of them; it returns unless a
    part of the identifier of a root has more digits than [int] converts,
    and then the [ValueError] of [int] is raised instead. *)
Theorem extract_never_empty (path_exists : bool) (extraction : Extraction) :
  (∀ roots, extract_pdf_clauses path_exists extraction = inr roots → roots ≠ [])
  ∧ (path_exists = false →
     extract_pdf_clauses path_exists extraction = inl FileNotFoundError)
  ∧ (path_exists = true → extraction = Extracted [] →
     extract_pdf_clauses path_exists extraction
     = inl (ValueError "No text extracted from PDF."))
  ∧ (∀ lines, path_exists = true → extraction = Extracted lines → lines ≠ [] →
       (build_clauses lines = Some [] ↔ find_headings lines = [])
       ∧ (build_clauses lines = Some [] →
          extract_pdf_clauses path_exists extraction
          = inl (ValueError "No clauses were detected in the document."))
       ∧ (∀ roots, build_clauses lines = Some roots → find_headings lines ≠ [] →
          roots ≠ [] ∧ extract_pdf_clauses path_exists extraction = inr roots)
       ∧ (is_Some (build_clauses lines)
          ↔ Forall within_limit (clauses (build_state lines)))
       ∧ (build_clauses lines = None →
          ∃ digits, Py.max_str_digits < digits
                    ∧ extract_pdf_clauses path_exists extraction
                      = inl (ValueError (limit_message digits)))).
Proof.
  split_and!.
  - intros roots. unfold extract_pdf_clauses.
    destruct path_exists; simpl; [|done].
    destruct extraction as [lines| |exc]; [|done..].
    destruct lines as [|l lines]; [done|].
    destruct (build_clauses (l :: lines)) as [[|c cs]|]; [done| |done].
    by intros [= <-].
  - by intros ->.
  - by intros -> ->.
  - intros lines -> -> Hne. split_and!.
    + apply build_clauses_nil.
    + intros Hb. destruct lines as [|l lines]; [done|].
      by rewrite extract_pdf_clauses_lines, Hb.
    + intros roots Hb Hh. assert (roots ≠ []) as Hr.
      { intros ->. by apply build_clauses_nil in Hb. }
      split; [done|].
      destruct lines as [|l lines]; [done|].
      rewrite extract_pdf_clauses_lines, Hb. by destruct roots.
    + apply build_clauses_returns.
    + intros Hb. destruct (build_clauses_error_limit lines Hb) as (digits & Hd & Herr).
      exists digits. split; [done|].
      destruct lines as [|l lines]; [done|].
      by rewrite extract_pdf_clauses_lines, Hb, Herr.
Qed.

(** ** Text reconstruction *)

Lemma init_snoc {A} (l : list A) x : Py.init (l ++ [x]) = l.
Proof.
  induction l as [|y l IH]; [done|].
  rewrite <- app_comm_cons.
  assert (∃ z r, l ++ [x] = z :: r) as (z & r & Hl) by (destruct l; simpl; eauto).
  rewrite Hl. change (Py.init (y :: z :: r)) with (y :: Py.init (z :: r)).
  rewrite <- Hl. by rewrite IH.
Qed.

Lemma isupper_not_islower c : Py.isupper c = true → Py.islower c = false.
Proof.
  unfold Py.isupper, Py.islower.
  intros [_ H]%andb_true_iff. apply N.leb_le in H.
  apply andb_false_iff. left. apply N.leb_gt. lia.
Qed.

(** C4. In [Clause.text], when the last buffer entry ends with a hyphen
    and the next non-empty body line starts with a lower-case character,
    the hyphen is dropped and the line is concatenated onto that entry;
    when the line starts with an upper-case character it is appended as a
    new entry.  So the body lines exam-, ple text give the one paragraph
    example text, and Exam-, PLE are not merged. *)
Theorem dehyphenation :
  (∀ paragraphs buffer b line,
      Clause.first_islower line = true →
      Clause.text_step (paragraphs, buffer ++ [b +:+ "-"]) line
      = (paragraphs, buffer ++ [b +:+ line]))
  ∧ (∀ paragraphs buffer b c rest,
      Py.isupper c = true →
      Clause.text_step (paragraphs, buffer ++ [b +:+ "-"]) (String c rest)
      = (paragraphs, buffer ++ [b +:+ "-"; String c rest]))
  ∧ Clause.paragraphs_of ["exam-"; "ple text"] = ["example text"]
  ∧ Clause.text_of ["exam-"; "ple text"] = "example text"
  ∧ Clause.paragraphs_of ["Exam-"; "PLE"] = ["Exam- PLE"]
  ∧ Clause.text_of ["Exam-"; "PLE"] = "Exam- PLE".
Proof.
  split_and!; try reflexivity.
  - intros paragraphs buffer b line Hlow.
    unfold Clause.text_step.
    destruct line as [|c line]; [done|]. cbn [Py.is_empty].
    rewrite last_snoc.
    change (b +:+ "-") with (b +:+ String Re.hyphen EmptyString).
    rewrite endswith_app_char, Hlow. cbn [andb].
    by rewrite init_snoc, drop_last_app_char.
  - intros paragraphs buffer b c rest Hup.
    unfold Clause.text_step. cbn [Py.is_empty].
    rewrite last_snoc.
    change (b +:+ "-") with (b +:+ String Re.hyphen EmptyString).
    rewrite endswith_app_char. cbn [Clause.first_islower].
    rewrite (isupper_not_islower c Hup). cbn [andb].
    by rewrite <- app_assoc.
Qed.

(** ** The noise filter: separator runs *)

Lemma SKIP_PATTERNS_separator_run stripped :
  Re.separator_run stripped = true →
  existsb (fun pattern => pattern stripped) SKIP_PATTERNS = true.
Proof.
  intros H. apply existsb_exists. exists Re.separator_run. split; [|done].
  unfold SKIP_PATTERNS. do 10 right. by left.
Qed.

Lemma app_not_empty s c t : Py.is_empty (s +:+ String c t) = false.
Proof. by destruct (app_char_cons s c t) as (c' & r & ->). Qed.

(** C8 (as amended). [should_skip_line] returns true for every text whose
    trimmed form contains the five characters dash, dash, backtick,
    backtick, backtick anywhere, or starts with two dashes followed by at
    least five characters among backtick, apostrophe, comma, dot and
    dash. *)
Theorem should_skip_separator_run (text : string) :
  (∃ pre post, Py.strip text = pre +:+ "--```" +:+ post)
  ∨ (∃ run rest,
       Py.strip text = "--" +:+ run +:+ rest
       ∧ 5 ≤ String.length run
       ∧ Forall (fun c => Re.is_separator c = true) (list_ascii_of_string run)) →
  should_skip_line text = true.
Proof.
  intros H. unfold should_skip_line.
  destruct H as [(pre & post & ->)|(run & rest & -> & Hlen & Hall)].
  - change ("--```" +:+ post) with (String "-" ("-```" +:+ post)).
    rewrite app_not_empty.
    destruct (Py.contains "..." _ && _); [done|].
    change (String "-" ("-```" +:+ post)) with ("--```" +:+ post).
    by rewrite contains_app.
  - change ("--" +:+ run +:+ rest) with (String "-" (String "-" (run +:+ rest))).
    cbn [Py.is_empty].
    destruct (Py.contains "..." _ && _); [done|].
    destruct (Py.contains "--```" _); [done|].
    apply SKIP_PATTERNS_separator_run.
    change (String "-" (String "-" (run +:+ rest))) with ("--" +:+ run +:+ rest).
    unfold Re.separator_run. rewrite after_prefix_app.
    pose proof (span_app_length Re.is_separator run rest Hall) as Hspan.
    destruct (Re.span Re.is_separator (run +:+ rest)) as [run' rest'].
    cbn [fst] in Hspan. apply Nat.leb_le. lia.
Qed.

Lemma should_skip_separator_run_witness : should_skip_line "  --`,,`,,` " = true.
Proof.
  apply should_skip_separator_run. right. exists "`,,`,,`", "".
  split; [reflexivity|]. split; [simpl; lia|]. repeat constructor.
Defined.

(** C8, as stated, fails: each of these texts is not empty after
    trimming and holds a run of five backticks, commas or dashes, and
    [should_skip_line] returns false on it. *)
Lemma should_skip_separator_run_counterexample :
  Py.is_empty (Py.strip ",,,,,") = false
  ∧ has_separator_run 5 ",,,,," = true
  ∧ should_skip_line ",,,,," = false
  ∧ Py.is_empty (Py.strip "see ----- below") = false
  ∧ has_separator_run 5 "see ----- below" = true
  ∧ should_skip_line "see ----- below" = false.
Proof. vm_compute. repeat split. Qed.

(** ** Paragraph breaks *)

(** After a kept line whose vertical position is not zero, a kept line on
    another page or more than 18 units below gets a marker line before its
    text. *)
Lemma gap_marker line rest prev_top prev_page clause :
  should_skip_line (Line.cleaned_text line) = false →
  Re.matches (Line.cleaned_text line) = false →
  looks_like_fragment line (Line.cleaned_text line) = false →
  Qeq_bool prev_top 0 = false →
  body_loop (line :: rest) (Some prev_top) (Some prev_page) clause
  = body_loop rest (Some (Line.top line)) (Some (Line.page line))
      (Clause.add_line
         (Line.cleaned_text line)
         (if negb (Line.page line =? prev_page)%Z
             || Qltb 18 (Line.top line - prev_top)%Q
          then Clause.add_line "" clause else clause)).
Proof.
  intros Hs Hm Hf Hz. simpl. rewrite Hs, Hm, Hf. unfold prev_top_or. rewrite Hz.
  destruct (Py.is_empty (Line.cleaned_text line)) eqn:He; [|done].
  by destruct (Line.cleaned_text line).
Qed.

(** C6, at the input on which the code departs from it.  The first body
    line of clause 4 is at the top of page 2, at vertical position 0; the
    second is on the same page, 100 units below.  No marker line is put
    between them and they make one paragraph.  With the first line at
    position 1 the marker is there and the paragraphs are two. *)
Theorem paragraph_break_missed_at_top :
  (Clause.body_lines <$> clause_by_id (build_state (top_of_page_lines 0)) !! "4")
  = Some ["First paragraph of the clause."; "Second paragraph, far below."]
  ∧ (Clause.paragraphs_of <$>
       (Clause.body_lines <$> clause_by_id (build_state (top_of_page_lines 0)) !! "4"))
    = Some ["First paragraph of the clause. Second paragraph, far below."]
  ∧ (Clause.body_lines <$> clause_by_id (build_state (top_of_page_lines 1)) !! "4")
    = Some ["First paragraph of the clause."; ""; "Second paragraph, far below."]
  ∧ (Clause.paragraphs_of <$>
       (Clause.body_lines <$> clause_by_id (build_state (top_of_page_lines 1)) !! "4"))
    = Some ["First paragraph of the clause."; "Second paragraph, far below."].
Proof. vm_compute. repeat split. Qed.

(** ** Lines and the reordering of their chunks *)

Section LineFacts.

Lemma Qltb_lt x y : Qltb x y = true ↔ (x < y)%Q.
Proof.
  unfold Qltb. rewrite negb_true_iff. split.
  - intros H. apply Qnot_le_lt. intros Hle. apply Qle_bool_iff in Hle. congruence.
  - intros H. destruct (Qle_bool y x) eqn:E; [|done].
    apply Qle_bool_iff in E. by apply Qlt_not_le in H.
Qed.

Lemma Qltb_asym x y : Qltb x y = true → Qltb y x = false.
Proof.
  intros H%Qltb_lt. destruct (Qltb y x) eqn:E; [|done].
  apply Qltb_lt in E. exfalso. apply (Qlt_irrefl x). by apply Qlt_trans with y.
Qed.

Lemma Qltb_cotrans x y z : Qltb x z = true → Qltb x y = true ∨ Qltb y z = true.
Proof.
  intros H%Qltb_lt. destruct (Qlt_le_dec x y) as [Hxy|Hyx].
  - left. by apply Qltb_lt.
  - right. apply Qltb_lt. by apply Qle_lt_trans with x.
Qed.

Lemma sorted_chunks_perm cs : Line.sorted_chunks cs ≡ₚ cs.
Proof. apply sort_perm. Qed.

Lemma sorted_chunks_idempotent cs :
  Line.sorted_chunks (Line.sorted_chunks cs) = Line.sorted_chunks cs.
Proof. apply sort_idempotent; [apply Qltb_asym | apply Qltb_cotrans]. Qed.

Lemma sort_chunks_idempotent l :
  Line.sort_chunks (Line.sort_chunks l) = Line.sort_chunks l.
Proof. unfold Line.sort_chunks. simpl. by rewrite sorted_chunks_idempotent. Qed.

(** Reading the text of a line a second time gives the same text and
    leaves the line as the first reading left it. *)
Lemma cleaned_text_st_again l :
  Line.cleaned_text_st (Line.sort_chunks l)
  = (Line.cleaned_text l, Line.sort_chunks l).
Proof.
  unfold Line.cleaned_text, Line.cleaned_text_st, Line.text_st.
  rewrite sort_chunks_idempotent. reflexivity.
Qed.

Lemma cleaned_text_sort l :
  Line.cleaned_text (Line.sort_chunks l) = Line.cleaned_text l.
Proof. unfold Line.cleaned_text at 1. by rewrite cleaned_text_st_again. Qed.

Lemma bold_ratio_sort l : Line.bold_ratio (Line.sort_chunks l) = Line.bold_ratio l.
Proof.
  unfold Line.bold_ratio, Line.sort_chunks. simpl.
  by rewrite !sorted_chunks_perm.
Qed.

(** The largest font size of a non-empty list: above every size of the
    list, and one of them. *)
Lemma max_font_size_fold init rest :
  let m := foldl (fun m d => if Qltb m (TextChunk.font_size d)
                             then TextChunk.font_size d else m) init rest in
  ((init <= m)%Q ∧ ∀ d, d ∈ rest → (TextChunk.font_size d <= m)%Q)
  ∧ (m = init ∨ ∃ d, d ∈ rest ∧ m = TextChunk.font_size d).
Proof.
  revert init. induction rest as [|c rest IH]; intros init; simpl.
  - split; [split; [apply Qle_refl|by intros d ?%elem_of_nil]|by left].
  - destruct (Qltb init (TextChunk.font_size c)) eqn:E.
    + destruct (IH (TextChunk.font_size c)) as ((Hle & Hall) & Hmem).
      apply Qltb_lt in E. split; [split|].
      * apply Qle_trans with (TextChunk.font_size c); [by apply Qlt_le_weak|done].
      * intros d [->|Hd]%elem_of_cons; [done|by apply Hall].
      * right. destruct Hmem as [->|(d & Hd & ->)].
        -- exists c. split; [left|done].
        -- exists d. split; [by right|done].
    + destruct (IH init) as ((Hle & Hall) & Hmem).
      assert (TextChunk.font_size c <= init)%Q as Hc.
      { unfold Qltb in E. apply negb_false_iff in E. by apply Qle_bool_iff. }
      split; [split|].
      * done.
      * intros d [->|Hd]%elem_of_cons; [|by apply Hall].
        by apply Qle_trans with init.
      * destruct Hmem as [->|(d & Hd & ->)]; [by left|].
        right. exists d. split; [by right|done].
Qed.

Lemma max_font_size_spec l :
  Line.chunks l ≠ [] →
  (∀ d, d ∈ Line.chunks l → (TextChunk.font_size d <= Line.max_font_size l)%Q)
  ∧ ∃ d, d ∈ Line.chunks l ∧ Line.max_font_size l = TextChunk.font_size d.
Proof.
  unfold Line.max_font_size. destruct (Line.chunks l) as [|c rest]; [done|]. intros _.
  destruct (max_font_size_fold (TextChunk.font_size c) rest) as ((Hle & Hall) & Hmem).
  split.
  - intros d [->|Hd]%elem_of_cons; [done|by apply Hall].
  - destruct Hmem as [->|(d & Hd & ->)].
    + exists c. split; [left|done].
    + exists d. split; [by right|done].
Qed.

Lemma max_font_size_sort l :
  (Line.max_font_size (Line.sort_chunks l) == Line.max_font_size l)%Q.
Proof.
  destruct (Line.chunks l) as [|c cs] eqn:Hcs.
  - unfold Line.max_font_size, Line.sort_chunks. simpl. rewrite Hcs. reflexivity.
  - assert (Line.chunks l ≠ []) as Hne by (by rewrite Hcs).
    assert (Line.chunks (Line.sort_chunks l) ≠ []) as Hne'.
    { simpl. intros Hnil. pose proof (sorted_chunks_perm (Line.chunks l)) as Hp.
      rewrite Hnil in Hp. by apply Permutation_nil_l in Hp. }
    destruct (max_font_size_spec l Hne) as (Hup & d & Hd & Hm).
    destruct (max_font_size_spec _ Hne') as (Hup' & d' & Hd' & Hm').
    apply Qle_antisym.
    + rewrite Hm'. apply Hup. simpl in Hd'. by rewrite sorted_chunks_perm in Hd'.
    + rewrite Hm. apply Hup'. simpl. by rewrite sorted_chunks_perm.
Qed.

(** What the program reads of a line does not depend on the order of
    its chunks: [cleaned_text] may reorder them in place unnoticed. *)
Lemma sort_chunks_unobserved l :
  Line.cleaned_text (Line.sort_chunks l) = Line.cleaned_text l
  ∧ Line.bold_ratio (Line.sort_chunks l) = Line.bold_ratio l
  ∧ prominent (Line.sort_chunks l) = prominent l
  ∧ below_threshold (Line.sort_chunks l) = below_threshold l
  ∧ Line.page (Line.sort_chunks l) = Line.page l
  ∧ Line.top (Line.sort_chunks l) = Line.top l.
Proof.
  assert (prominent (Line.sort_chunks l) = prominent l) as Hp.
  { unfold prominent, Qleb. rewrite bold_ratio_sort.
    by rewrite (Qleb_comp _ _ (Qeq_refl 14) _ _ (max_font_size_sort l)). }
  split_and!; [apply cleaned_text_sort | apply bold_ratio_sort | done | | done..].
  rewrite !prominent_not_below in Hp.
  by destruct (below_threshold (Line.sort_chunks l)), (below_threshold l).
Qed.

(** *** The noise filter *)

Lemma noise_filter_st_eq line :
  noise_filter_st line
  = (should_skip_line (Line.cleaned_text line)
     || looks_like_fragment (Line.sort_chunks line) (Line.cleaned_text line),
     Line.sort_chunks line).
Proof. reflexivity. Qed.

Lemma looks_like_fragment_sort line text :
  looks_like_fragment (Line.sort_chunks line) text = looks_like_fragment line text.
Proof. unfold looks_like_fragment. by rewrite bold_ratio_sort. Qed.

End LineFacts.

Lemma omap_cons_eq {A B} (f : A → option B) x l :
  omap f (x :: l) = match f x with Some y => y :: omap f l | None => omap f l end.
Proof. reflexivity. Qed.

(** C9. The noise filter keeps no state that changes its verdicts.  The
    only trace a call leaves is the order of the chunks of the line, set by
    [cleaned_text]; a second call on the line as the first call left it
    gives the same verdict and leaves the line as it is.  A second pass
    over the lines kept by a first pass therefore keeps all of them,
    unchanged.  The verdict is that of [should_skip_line] and
    [looks_like_fragment] on the line as given. *)
Theorem noise_filter_idempotent :
  (∀ line,
      noise_filter_st (snd (noise_filter_st line)) = noise_filter_st line)
  ∧ (∀ lines, noise_filter (noise_filter lines) = noise_filter lines)
  ∧ (∀ line,
      fst (noise_filter_st line)
      = should_skip_line (Line.cleaned_text line)
        || looks_like_fragment line (Line.cleaned_text line)).
Proof.
  assert (∀ line, noise_filter_st (snd (noise_filter_st line)) = noise_filter_st line)
    as Hagain.
  { intros line. rewrite (noise_filter_st_eq line). cbn [snd].
    rewrite noise_filter_st_eq.
    by rewrite cleaned_text_sort, sort_chunks_idempotent. }
  split_and!.
  - exact Hagain.
  - intros lines. unfold noise_filter.
    induction lines as [|line lines IH]; [done|].
    rewrite (omap_cons_eq noise_keep line lines).
    destruct (noise_keep line) as [line'|] eqn:Hkeep; [|exact IH].
    rewrite (omap_cons_eq noise_keep line' (omap noise_keep lines)).
    assert (noise_keep line' = Some line') as ->; [|by rewrite IH].
    unfold noise_keep in *. specialize (Hagain line).
    destruct (noise_filter_st line) as [dropped l1]. cbn [snd] in Hagain.
    destruct dropped; [done|]. injection Hkeep as ->. by rewrite Hagain.
  - intros line. rewrite noise_filter_st_eq. cbn [fst].
    by rewrite looks_like_fragment_sort.
Qed.

(** ** Worked examples *)

(** The heading pattern on a few texts. *)
Example HEADING_RE_examples :
  Re.HEADING_RE_match "4.2.10 Title here" = Some ("4.2.10", Some "Title here")
  ∧ Re.HEADING_RE_match "4  Safety requirements" = Some ("4", Some "Safety requirements")
  ∧ Re.HEADING_RE_match "12" = Some ("12", None)
  ∧ Re.HEADING_RE_match "4.2." = None
  ∧ Re.HEADING_RE_match "4.2 " = None
  ∧ Re.HEADING_RE_match "4a" = None
  ∧ Re.HEADING_RE_match ".4" = None
  ∧ Re.HEADING_RE_match "Clause 4" = None.
Proof. repeat split. Qed.

(** The end-to-end example: root 4, titled Safety requirements, with the
    one child 4.1, titled General, whose text is the body line. *)
Example end_to_end :
  build_clauses safety_lines = Some [Clause.mk "4" "Safety requirements" [] ["4.1"]]
  ∧ clause_by_id (build_state safety_lines) !! "4.1"
    = Some (Clause.mk "4.1" "General" ["This clause describes..."] [])
  ∧ Clause.text_of ["This clause describes..."] = "This clause describes...".
Proof. vm_compute. repeat split. Qed.

(** Of two headings with the same identifier the first creates the
    clause; the body lines after the second are dropped. *)
Example duplicate_identifier :
  find_headings duplicate_lines
  = [mkHeading "5" "Marking" 0 1; mkHeading "5" "Marking again" 2 1]
  ∧ build_clauses duplicate_lines
    = Some [Clause.mk "5" "Marking" ["The first body line."] []].
Proof. vm_compute. repeat split. Qed.

(** A title read by the lookahead: the heading spans the blank line and
    the two title lines; the dotted number after it is emitted with an
    empty title. *)
Example stacked_title :
  find_headings stacked_title_lines
  = [mkHeading "6" "Tests and inspections" 0 4; mkHeading "6.1" "" 4 1]
  ∧ build_clauses stacked_title_lines
    = Some [Clause.mk "6" "Tests and inspections" [] ["6.1"]]
  ∧ clause_by_id (build_state stacked_title_lines) !! "6.1"
    = Some (Clause.mk "6.1" "" ["Body text, in the body font."] []).
Proof. vm_compute. repeat split. Qed.

(** A number of more than 4300 digits is detected as a heading and
    becomes a root; the sort then raises in [int], and so does the entry
    point. *)
Example int_limit :
  identifier <$> find_headings long_number_lines = [long_number]
  ∧ clauses (build_state long_number_lines) = [long_number]
  ∧ build_clauses long_number_lines = None
  ∧ extract_pdf_clauses true (Extracted long_number_lines)
    = inl (ValueError (limit_message 4301)).
Proof. vm_compute. repeat split. Qed.

(** ** Words, and texts without surrounding white space *)

Section WordFacts.
Import Py.

Lemma string_app_nil_r (s : string) : s +:+ EmptyString = s.
Proof. induction s as [|c s IH]; [done|]. rewrite app_cons. by rewrite IH. Qed.

Lemma all_solid_app s t : all_solid (s +:+ t) = all_solid s && all_solid t.
Proof.
  induction s as [|c s IH]; [done|]. rewrite app_cons. simpl.
  rewrite IH. by rewrite andb_assoc.
Qed.

Lemma is_word_starts_solid w : is_word w → starts_solid w = true.
Proof. intros [Hne Hs]. destruct w as [|c w]; [done|]. simpl in *. by apply andb_true_iff in Hs as [? _]. Qed.

Lemma is_word_ends_solid w : is_word w → ends_solid w = true.
Proof.
  intros [Hne Hs]. induction w as [|c w IH]; [done|].
  simpl in Hs. apply andb_true_iff in Hs as [Hc Hw].
  destruct w as [|d w]; [done|]. by apply IH.
Qed.

(** The words [split] returns are words. *)
Lemma split_go_words s cur :
  (∀ w, cur = Some w → is_word w) → Forall is_word (split_go cur s).
Proof.
  revert cur. induction s as [|c s IH]; intros cur Hcur; simpl.
  - destruct cur as [w|]; [|done]. constructor; [by apply Hcur|done].
  - destruct (isspace c) eqn:Hc.
    + destruct cur as [w|].
      * constructor; [by apply Hcur|]. by apply IH.
      * by apply IH.
    + apply IH. intros w' [= <-]. destruct cur as [w|].
      * destruct (Hcur w eq_refl) as [Hne Hs]. split.
        -- by destruct w.
        -- rewrite all_solid_app, Hs. simpl. by rewrite Hc.
      * split; [done|]. simpl. by rewrite Hc.
Qed.

Lemma split_words s : Forall is_word (split s).
Proof. by apply split_go_words. Qed.

(** Reading a run of solid characters extends the word being read. *)
Lemma split_go_solid_run w cur s :
  all_solid w = true → is_empty w = false →
  split_go cur (w +:+ s) = split_go (Some (default EmptyString cur +:+ w)) s.
Proof.
  revert cur. induction w as [|c w IH]; intros cur Hs Hne; [done|].
  simpl in Hs. apply andb_true_iff in Hs as [Hc%negb_true_iff Hw].
  rewrite app_cons. simpl. rewrite Hc.
  destruct w as [|d w].
  - simpl. by destruct cur.
  - rewrite (IH _ Hw eq_refl). f_equal. f_equal. simpl.
    destruct cur as [u|]; simpl.
    + by rewrite string_app_assoc.
    + done.
Qed.

(** Splitting words joined by single spaces gives the words back. *)
Lemma split_join_words ws : Forall is_word ws → split (join " " ws) = ws.
Proof.
  unfold split. induction 1 as [|w ws [Hne Hs] Hws IH]; [done|].
  destruct ws as [|w' ws].
  - simpl. rewrite <- (string_app_nil_r w) at 1.
    by rewrite (split_go_solid_run w None EmptyString Hs Hne).
  - rewrite join_cons2.
    rewrite (split_go_solid_run w None _ Hs Hne).
    change (default EmptyString None +:+ w) with w.
    change (" " +:+ join " " (w' :: ws)) with (String " " (join " " (w' :: ws))).
    cbn [split_go]. change (isspace " ") with true. cbn iota.
    by rewrite IH.
Qed.

Lemma lstrip_solid s : starts_solid s = true → lstrip s = s.
Proof. destruct s as [|c s]; [done|]. simpl. by intros ->%negb_true_iff. Qed.

Lemma rstrip_solid s : ends_solid s = true → rstrip s = s.
Proof.
  induction s as [|c s IH]; [done|]. intros He.
  destruct s as [|d s].
  - simpl in *. by apply negb_true_iff in He as ->.
  - change (rstrip (String c (String d s))) with
      (match rstrip (String d s) with
       | EmptyString => if isspace c then EmptyString else String c EmptyString
       | r => String c r
       end).
    by rewrite (IH He).
Qed.

Lemma strip_fixed s : starts_solid s = true → ends_solid s = true → strip s = s.
Proof. intros Hs He. unfold strip. rewrite (lstrip_solid s Hs). by apply rstrip_solid. Qed.

Lemma ends_solid_app s t : is_empty t = false → ends_solid (s +:+ t) = ends_solid t.
Proof.
  intros Ht. induction s as [|c s IH]; [done|]. rewrite app_cons.
  rewrite <- IH. destruct (s +:+ t) eqn:Hst; [by destruct s, t|]. done.
Qed.

Lemma join_words_ends_solid ws :
  Forall is_word ws → ws ≠ [] → ends_solid (join " " ws) = true.
Proof.
  induction 1 as [|w ws Hw Hws IH]; [done|]. intros _.
  destruct ws as [|w' ws]; [by apply is_word_ends_solid|].
  rewrite join_cons2.
  assert (ends_solid (join " " (w' :: ws)) = true) as Hrest by (by apply IH).
  rewrite ends_solid_app; [rewrite ends_solid_app; [done|]|].
  - by destruct (join " " (w' :: ws)).
  - done.
Qed.

Lemma join_words_not_empty ws :
  Forall is_word ws → ws ≠ [] → is_empty (join " " ws) = false.
Proof.
  intros Hws Hne. destruct ws as [|w ws]; [done|].
  inversion Hws as [|? ? Hw _]; subst.
  apply starts_solid_not_empty, join_solid. by apply is_word_starts_solid.
Qed.

(** Words joined by single spaces have no white space around them. *)
Lemma strip_join_words ws : Forall is_word ws → strip (join " " ws) = join " " ws.
Proof.
  intros Hws. destruct ws as [|w ws]; [done|].
  apply strip_fixed.
  - inversion Hws; subst. apply join_solid. by apply is_word_starts_solid.
  - by apply join_words_ends_solid.
Qed.

End WordFacts.

(** X1. The cleaned text of a line is normalised: it has no white space
    at either end, its words are those of the raw text, separated by
    single spaces, and cleaning it again changes nothing. *)
Theorem cleaned_text_normalised (l : Line.t) :
  Py.strip (Line.cleaned_text l) = Line.cleaned_text l
  ∧ Py.split (Line.cleaned_text l) = Py.split (Line.text l)
  ∧ Py.join " " (Py.split (Line.cleaned_text l)) = Line.cleaned_text l
  ∧ Forall is_word (Py.split (Line.cleaned_text l)).
Proof.
  rewrite cleaned_text_eq.
  pose proof (split_words (Line.text l)) as Hws.
  rewrite (split_join_words _ Hws).
  split_and!; [by apply strip_join_words | done..].
Qed.

(** ** The share of bold text *)

Section BoldRatio.
Import Line.

Lemma bold_weight_le (cs : list TextChunk.t) :
  sum_list (stripped_len <$> filter (fun c => TextChunk.is_bold c && has_text c = true) cs)
  ≤ sum_list (stripped_len <$> filter (fun c => has_text c = true) cs).
Proof.
  induction cs as [|c cs IH]; [done|].
  rewrite !filter_cons.
  destruct (TextChunk.is_bold c), (has_text c); cbn [andb];
    repeat case_decide; try done; rewrite ?fmap_cons; cbn [sum_list_with id]; lia.
Qed.

Lemma bold_weight_all (cs : list TextChunk.t) :
  (∀ c, c ∈ cs → has_text c = true → TextChunk.is_bold c = true) →
  sum_list (stripped_len <$> filter (fun c => TextChunk.is_bold c && has_text c = true) cs)
  = sum_list (stripped_len <$> filter (fun c => has_text c = true) cs).
Proof.
  induction cs as [|c cs IH]; [done|]. intros Hall.
  assert (has_text c = true → TextChunk.is_bold c = true) as Hc
    by (apply Hall; left).
  specialize (IH (fun d Hd => Hall d (list_elem_of_further _ _ _ Hd))).
  rewrite !filter_cons.
  destruct (has_text c).
  - rewrite (Hc eq_refl). cbn [andb]. repeat case_decide; try done.
    rewrite !fmap_cons. cbn [sum_list_with id]. by rewrite IH.
  - rewrite andb_false_r. by repeat case_decide.
Qed.

Lemma bold_weight_none (cs : list TextChunk.t) :
  (∀ c, c ∈ cs → has_text c = true → TextChunk.is_bold c = false) →
  sum_list (stripped_len <$> filter (fun c => TextChunk.is_bold c && has_text c = true) cs) = 0.
Proof.
  induction cs as [|c cs IH]; [done|]. intros Hall.
  assert (has_text c = true → TextChunk.is_bold c = false) as Hc
    by (apply Hall; left).
  specialize (IH (fun d Hd => Hall d (list_elem_of_further _ _ _ Hd))).
  rewrite filter_cons.
  destruct (has_text c).
  - rewrite (Hc eq_refl). cbn [andb]. by case_decide.
  - rewrite andb_false_r. by case_decide.
Qed.

Lemma has_text_weight c : has_text c = true → 0 < stripped_len c.
Proof.
  unfold has_text, stripped_len. destruct (Py.strip (TextChunk.text c)); [done|].
  simpl. lia.
Qed.

Lemma text_weight_pos (cs : list TextChunk.t) c :
  c ∈ cs → has_text c = true →
  0 < sum_list (stripped_len <$> filter (fun c => has_text c = true) cs).
Proof.
  intros Hc Ht. induction cs as [|d cs IH]; [by apply elem_of_nil in Hc|].
  rewrite filter_cons. apply elem_of_cons in Hc as [<-|Hc].
  - rewrite decide_True by done. rewrite fmap_cons. cbn [sum_list_with id].
    pose proof (has_text_weight c Ht). lia.
  - specialize (IH Hc). case_decide; rewrite ?fmap_cons; cbn [sum_list_with id]; lia.
Qed.

End BoldRatio.

(** X2. The bold ratio of a line lies between 0 and 1.  It is 0 when no
    chunk with text is bold (in particular when no chunk has text), and
    1 when some chunk has text and every chunk with text is bold. *)
Theorem bold_ratio_bounds (l : Line.t) :
  (0 <= Line.bold_ratio l)%Q ∧ (Line.bold_ratio l <= 1)%Q
  ∧ ((∀ c, c ∈ Line.chunks l → Line.has_text c = true → TextChunk.is_bold c = false) →
     (Line.bold_ratio l == 0)%Q)
  ∧ ((∃ c, c ∈ Line.chunks l ∧ Line.has_text c = true) →
     (∀ c, c ∈ Line.chunks l → Line.has_text c = true → TextChunk.is_bold c = true) →
     (Line.bold_ratio l == 1)%Q).
Proof.
  unfold Line.bold_ratio.
  pose proof (bold_weight_le (Line.chunks l)) as Hle.
  split_and!.
  - destruct (_ =? 0)%nat; [done|]. unfold Qle. simpl. lia.
  - destruct (_ =? 0)%nat eqn:Htot; [done|]. apply Nat.eqb_neq in Htot.
    unfold Qle. simpl. rewrite Z.mul_1_r.
    rewrite <- (positive_nat_Z (Pos.of_nat _)), Nat2Pos.id by done. lia.
  - intros Hnone. destruct (_ =? 0)%nat; [done|].
    rewrite (bold_weight_none _ Hnone). done.
  - intros (c & Hc & Ht) Hall.
    pose proof (text_weight_pos _ c Hc Ht) as Hpos.
    destruct (_ =? 0)%nat eqn:Htot; [apply Nat.eqb_eq in Htot; lia|].
    rewrite (bold_weight_all _ Hall).
    unfold Qeq. simpl. rewrite Z.mul_1_r.
    rewrite <- (positive_nat_Z (Pos.of_nat _)), Nat2Pos.id by lia. lia.
Qed.

(** ** Stripping twice *)

Section StripFacts.
Import Py.

Lemma lstrip_cases s : lstrip s = EmptyString ∨ starts_solid (lstrip s) = true.
Proof.
  induction s as [|c s IH]; [by left|]. simpl.
  destruct (isspace c) eqn:Hc; [done|]. right. simpl. by rewrite Hc.
Qed.

Lemma rstrip_cases s : rstrip s = EmptyString ∨ ends_solid (rstrip s) = true.
Proof.
  induction s as [|c s IH]; [by left|]. simpl.
  destruct (rstrip s) as [|d r] eqn:Hr.
  - destruct (isspace c) eqn:Hc; [by left|]. right. simpl. by rewrite Hc.
  - right. destruct IH as [|IH]; [done|]. done.
Qed.

Lemma rstrip_starts_solid s : starts_solid s = true → starts_solid (rstrip s) = true.
Proof.
  destruct s as [|c s]; [done|]. simpl. intros Hc.
  destruct (rstrip s); [|done]. apply negb_true_iff in Hc. by rewrite Hc; simpl; rewrite Hc.
Qed.

(** A stripped text is empty, or starts and ends with a character that
    is not white space. *)
Lemma strip_cases s :
  strip s = EmptyString ∨ (starts_solid (strip s) = true ∧ ends_solid (strip s) = true).
Proof.
  unfold strip. destruct (lstrip_cases s) as [->|Hs]; [by left|].
  destruct (rstrip_cases (lstrip s)) as [->|He]; [by left|].
  right. split; [by apply rstrip_starts_solid|done].
Qed.

Lemma strip_idempotent s : strip (strip s) = strip s.
Proof.
  destruct (strip_cases s) as [->|[Hs He]]; [done|]. by apply strip_fixed.
Qed.

End StripFacts.

(** ** The paragraphs of a clause *)

Section ParagraphFacts.
Import Py Clause.

Lemma text_step_prefix ps buf line :
  text_step (ps, buf) line
  = (ps ++ fst (text_step ([], buf) line), snd (text_step ([], buf) line)).
Proof.
  unfold text_step. destruct (is_empty line).
  - destruct buf; simpl; by rewrite ?app_nil_r.
  - destruct (last buf) as [b|]; [destruct (_ && _)|]; simpl; by rewrite app_nil_r.
Qed.

Lemma foldl_text_step_prefix body ps buf :
  foldl text_step (ps, buf) body
  = (ps ++ fst (foldl text_step ([], buf) body), snd (foldl text_step ([], buf) body)).
Proof.
  revert ps buf. induction body as [|line body IH]; intros ps buf.
  - simpl. by rewrite app_nil_r.
  - cbn [foldl]. rewrite (text_step_prefix ps buf line).
    destruct (text_step ([], buf) line) as [ps1 buf1]. cbn [fst snd].
    rewrite (IH (ps ++ ps1) buf1), (IH ps1 buf1).
    cbn [fst snd]. by rewrite app_assoc.
Qed.

Lemma paragraphs_of_closed body : paragraphs_of body = closed (foldl text_step ([], []) body).
Proof. unfold paragraphs_of, closed. by destruct (foldl _ _ _) as [ps [|]]. Qed.

Lemma closed_prefix ps st : closed (ps ++ st.1, st.2) = filter (fun p => is_empty p = false) ps ++ closed st.
Proof.
  unfold closed. destruct st as [ps' [|b buf]]; cbn [fst snd].
  - by rewrite filter_app.
  - by rewrite <- app_assoc, filter_app.
Qed.

Lemma text_step_buffer_not_nil ps buf line :
  is_empty line = false → snd (text_step (ps, buf) line) ≠ [].
Proof.
  intros Hl. unfold text_step. rewrite Hl.
  destruct (last buf) as [b|]; [destruct (_ && _)|]; cbn [snd];
    by intros ?%app_eq_nil; destruct_and?.
Qed.

(** While no line is empty, and no line ends with a hyphen, the loop
    only appends to the buffer. *)
Lemma foldl_text_step_plain body buf :
  Forall (fun line => is_empty line = false ∧ endswith line Re.hyphen = false) body →
  Forall (fun line => endswith line Re.hyphen = false) buf →
  foldl text_step ([], buf) body = ([], buf ++ body).
Proof.
  revert buf. induction body as [|line body IH]; intros buf Hbody Hbuf.
  - by rewrite app_nil_r.
  - inversion Hbody as [|? ? [Hne Hh] Hrest]; subst. cbn [foldl].
    assert (text_step ([], buf) line = ([], buf ++ [line])) as ->.
    { unfold text_step. rewrite Hne. destruct (last buf) as [b|] eqn:Hlast; [|done].
      apply last_Some in Hlast as [buf' ->].
      apply Forall_app in Hbuf as [_ Hb]. inversion Hb; subst.
      by replace (endswith b Re.hyphen) with false. }
    rewrite IH; [by rewrite <- app_assoc|done|].
    apply Forall_app. split; [done|]. by constructor.
Qed.

Lemma join_not_empty sep p ps :
  is_empty p = false → is_empty (join sep (p :: ps)) = false.
Proof. intros Hp. destruct ps; [done|]. destruct p; [done|]. by rewrite join_cons2, app_cons. Qed.

End ParagraphFacts.

(** X3. An empty body line ends the paragraph being read and starts
    the next one: the paragraphs of the lines before it are followed by
    the paragraphs of the lines after it.  So empty lines at the start,
    at the end, or repeated, leave no trace in the text. *)
Theorem paragraphs_of_blank_line (before after : list string) :
  Clause.paragraphs_of (before ++ "" :: after)
  = Clause.paragraphs_of before ++ Clause.paragraphs_of after.
Proof.
  rewrite !paragraphs_of_closed, foldl_app. cbn [foldl].
  destruct (foldl Clause.text_step ([], []) before) as [ps buf] eqn:Hbefore.
  assert (Clause.text_step (ps, buf) "" =
          ((match buf with [] => ps | _ :: _ => ps ++ [Clause.paragraph buf] end), []))
    as -> by (by destruct buf).
  rewrite foldl_text_step_prefix.
  rewrite (closed_prefix _ (foldl Clause.text_step ([], []) after)).
  done.
Qed.

(** X4. Every paragraph of a clause is non-empty and has no white
    space at either end, and the text of the clause is empty exactly when
    there is no paragraph. *)
Theorem paragraphs_trimmed (body : list string) :
  Forall (fun p => Py.is_empty p = false ∧ Py.strip p = p) (Clause.paragraphs_of body)
  ∧ (Py.is_empty (Clause.text_of body) = true ↔ Clause.paragraphs_of body = []).
Proof.
  assert (Forall (fun p => Py.is_empty p = false ∧ Py.strip p = p)
            (Clause.paragraphs_of body)) as Hall.
  { rewrite paragraphs_of_closed.
    assert (∀ st, Forall (fun p => Py.strip p = p) st.1 →
                  Forall (fun p => Py.strip p = p)
                         (foldl Clause.text_step st body).1) as Hloop.
    { induction body as [|line body IH]; intros st Hst; [done|].
      cbn [foldl]. apply IH. destruct st as [ps buf]. unfold Clause.text_step.
      destruct (Py.is_empty line).
      - destruct buf; [done|]. cbn [fst] in *. apply Forall_app. split; [done|].
        constructor; [|done]. apply strip_idempotent.
      - by destruct (last buf) as [b|]; [destruct (_ && _)|]. }
    specialize (Hloop ([], []) (Forall_nil_2 _)).
    destruct (foldl Clause.text_step ([], []) body) as [ps buf].
    unfold closed. cbn [fst snd] in *.
    assert (Forall (fun p => Py.strip p = p)
              (match buf with [] => ps | _ :: _ => ps ++ [Clause.paragraph buf] end)) as Hps.
    { destruct buf; [done|]. apply Forall_app. split; [done|].
      constructor; [|done]. apply strip_idempotent. }
    apply Forall_forall. intros p [Hne Hp]%list_elem_of_filter. split; [done|].
    by apply (proj1 (Forall_forall _ _) Hps). }
  split; [done|]. unfold Clause.text_of.
  destruct (Clause.paragraphs_of body) as [|p ps]; [done|].
  inversion Hall as [|? ? [Hne _] _]; subst.
  rewrite (join_not_empty _ _ _ Hne). split; done.
Qed.

(** X5. When no body line is empty and none ends with a hyphen, the
    text of the clause is a single paragraph: the lines joined by single
    spaces, without white space at either end. *)
Theorem text_of_plain_lines (body : list string) :
  Forall (fun line => Py.is_empty line = false ∧ Py.endswith line Re.hyphen = false) body →
  Clause.text_of body = Py.strip (Py.join " " body).
Proof.
  intros Hbody. unfold Clause.text_of. rewrite paragraphs_of_closed.
  rewrite (foldl_text_step_plain body [] Hbody (Forall_nil_2 _)).
  unfold closed. cbn [fst snd app].
  destruct body as [|line body]; [done|].
  cbn [app]. unfold Clause.paragraph.
  destruct (Py.strip (Py.join " " (line :: body))) eqn:Hp.
  - rewrite filter_cons. by rewrite decide_False by done.
  - rewrite filter_cons. by rewrite decide_True by done.
Qed.

Lemma text_of_plain_lines_witness :
  Clause.text_of ["The equipment shall be"; "tested before use."]
  = "The equipment shall be tested before use.".
Proof.
  rewrite (text_of_plain_lines ["The equipment shall be"; "tested before use."]).
  - reflexivity.
  - repeat constructor.
Defined.

(** ** Which lines become headings *)

(** X6. The detector emits a heading exactly for the lines whose
    cleaned text matches the heading pattern, that pass the font size and
    bold gate, and whose title is not empty unless the identifier is
    dotted: such a line is never consumed as the title of an earlier
    heading. *)
Theorem find_headings_candidates (lines : list Line.t) (h : Heading) :
  h ∈ find_headings lines ↔
  ∃ line group2,
    lines !! line_index h = Some line
    ∧ Re.HEADING_RE_match (Line.cleaned_text line) = Some (identifier h, group2)
    ∧ below_threshold line = false
    ∧ read_title lines (line_index h) group2 = (title h, line_count h)
    ∧ (Py.is_empty (title h) = false ∨ Py.mem Re.dot (identifier h) = true).
Proof.
  change (find_headings lines) with (headings_from lines 0). split.
  - intros Hh. destruct (headings_from_emitted lines 0 h Hh) as (_ & line & Hline & Hscan).
    destruct (scan_line_emit lines _ _ _ Hscan) as (group2 & Hm & Hgate & Htitle & _ & Hkeep).
    exists line, group2. split_and!; try done.
    destruct (Py.is_empty (title h)); [|by left].
    right. simpl in Hkeep. by apply negb_false_iff in Hkeep.
  - intros (line & group2 & Hline & Hm & Hgate & Htitle & Hkeep).
    destruct (reached_from lines (line_index h) line 0 Hline (matches_Some _ _ _ Hm))
      as (before & -> & _); [lia|].
    apply elem_of_app. right. rewrite headings_from_eq, Hline.
    assert (scan_line lines (line_index h) line = Emit h) as ->.
    { unfold scan_line.
      rewrite (matches_not_blank _ (matches_Some _ _ _ Hm)), Hm, Hgate, Htitle.
      assert (Py.is_empty (title h) && negb (Py.mem Re.dot (identifier h)) = false) as ->.
      { destruct Hkeep as [->| ->]; [done|]. by rewrite andb_false_r. }
      by destruct h. }
    left.
Qed.

(** X7. When every line of a document either fails the heading pattern
    or is below the font size and bold gate, no heading is found, no
    clause is built, and the extraction of an existing, readable file
    with at least one line raises the error for a document without
    clauses. *)
Theorem no_candidate_no_clause (lines : list Line.t) :
  (∀ line, line ∈ lines →
     Re.matches (Line.cleaned_text line) = false ∨ below_threshold line = true) →
  find_headings lines = []
  ∧ build_clauses lines = Some []
  ∧ (lines ≠ [] →
     extract_pdf_clauses true (Extracted lines)
     = inl (ValueError "No clauses were detected in the document.")).
Proof.
  intros Hnone.
  assert (find_headings lines = []) as Hnil.
  { destruct (find_headings lines) as [|h hs] eqn:Hhs; [done|]. exfalso.
    assert (h ∈ headings_from lines 0) as Hh
      by (change (headings_from lines 0) with (find_headings lines); rewrite Hhs; left).
    destruct (headings_from_emitted lines 0 h Hh) as (_ & line & Hline & Hscan).
    destruct (scan_line_emit lines _ _ _ Hscan) as (group2 & Hm & Hgate & _).
    destruct (Hnone line (list_elem_of_lookup_2 _ _ _ Hline)) as [Hno|Hlow].
    - by rewrite (matches_Some _ _ _ Hm) in Hno.
    - by rewrite Hgate in Hlow. }
  assert (build_clauses lines = Some []) as Hbuild.
  { unfold build_clauses, build_state. rewrite Hnil. done. }
  split_and!; [done..|].
  intros Hlines. destruct lines as [|l ls]; [done|].
  unfold extract_pdf_clauses. cbn [negb]. by rewrite Hbuild.
Qed.

Lemma no_candidate_no_clause_witness :
  find_headings gated_tail = []
  ∧ build_clauses gated_tail = Some []
  ∧ (gated_tail ≠ [] →
     extract_pdf_clauses true (Extracted gated_tail)
     = inl (ValueError "No clauses were detected in the document.")).
Proof.
  apply (no_candidate_no_clause gated_tail).
  intros line Hline. unfold gated_tail in Hline.
  apply elem_of_cons in Hline as [->|Hline]; [by right; vm_compute|].
  apply list_elem_of_singleton in Hline as ->. by left; vm_compute.
Defined.

(** X8. The identifier of every detected heading is made of decimal
    numbers separated by single dots; its sort key exists exactly when
    none of these numbers has more digits than [int] converts (4300), and
    computing it raises otherwise; its title has no white space at
    either end. *)
Theorem heading_well_formed (lines : list Line.t) (h : Heading) :
  h ∈ find_headings lines →
  Forall digit_part (Py.split_on Re.dot (identifier h))
  ∧ (is_Some (sort_key (identifier h)) ↔ within_limit (identifier h))
  ∧ Py.strip (title h) = title h.
Proof.
  change (find_headings lines) with (headings_from lines 0). intros Hh.
  destruct (headings_from_emitted lines 0 h Hh) as (_ & line & Hline & Hscan).
  destruct (scan_line_emit lines _ _ _ Hscan) as (group2 & Hm & _ & Htitle & _).
  assert (Forall digit_part (Py.split_on Re.dot (identifier h))) as Hparts.
  { unfold Re.HEADING_RE_match in Hm.
    destruct (Line.cleaned_text line) as [|c s]; [done|].
    destruct (Py.isdigit c) eqn:Hc; [|done].
    pose proof (ident_tail_rest s) as Hrest.
    destruct (Re.ident_tail s) as [a rest]. cbn [fst] in Hrest.
    assert (identifier h = String c a) as ->.
    { destruct (Re.at_end rest); [congruence|].
      destruct (Re.span Py.isspace rest) as [w r].
      destruct (Py.is_empty w); [done|].
      destruct (Re.title_group r); congruence. }
    by apply split_on_ident. }
  split_and!; [done| |].
  - unfold sort_key, within_limit. by apply mapM_int_parts.
  - unfold read_title in Htitle.
    destruct (Py.is_empty (Py.strip (default "" group2))).
    + destruct (lookahead _ _ _) as [parts consumed].
      injection Htitle as <- _. apply strip_idempotent.
    + injection Htitle as <- _. apply strip_idempotent.
Qed.

Lemma heading_well_formed_witness :
  Forall digit_part (Py.split_on Re.dot "4.1")
  ∧ (is_Some (sort_key "4.1") ↔ within_limit "4.1")
  ∧ Py.strip "General" = "General".
Proof.
  apply (heading_well_formed safety_lines (mkHeading "4.1" "General" 1 1)).
  vm_compute. right. left.
Defined.

(** ** The clause store *)

Lemma first_occurrence {A} (f : A → string) (l : list A) (k : string) :
  k ∈ f <$> l → ∃ l1 x l2, l = l1 ++ x :: l2 ∧ f x = k ∧ k ∉ (f <$> l1).
Proof.
  induction l as [|y l IH]; [by intros ?%elem_of_nil|].
  rewrite fmap_cons. intros Hk.
  destruct (decide (f y = k)) as [Hy|Hy].
  - exists [], y, l. split_and!; [done..|]. by intros ?%elem_of_nil.
  - apply elem_of_cons in Hk as [Hk|Hk]; [done|].
    destruct (IH Hk) as (l1 & x & l2 & -> & Hx & Hl1).
    exists (y :: l1), x, l2. split_and!; [done..|].
    rewrite fmap_cons. intros [?|?]%elem_of_cons; [congruence|done].
Qed.

(** X9. The store of the builder has a clause exactly for the
    identifiers of the detected headings.  The clause of an identifier
    carries the title of the first heading with that identifier, and the
    body lines collected between the end of that heading and the start
    of the next heading of the list: a later heading with the same
    identifier changes neither. *)
Theorem first_heading_wins (lines : list Line.t) (k : string) :
  (is_Some (clause_by_id (build_state lines) !! k)
   ↔ k ∈ identifier <$> find_headings lines)
  ∧ (k ∈ identifier <$> find_headings lines →
     ∃ hs1 h hs2 c,
       find_headings lines = hs1 ++ h :: hs2
       ∧ identifier h = k ∧ (k ∉ identifier <$> hs1)
       ∧ clause_by_id (build_state lines) !! k = Some c
       ∧ Clause.identifier c = k ∧ Clause.title c = title h
       ∧ Clause.body_lines c
         = collected (slice lines (line_index h + line_count h) (body_end lines hs2))).
Proof.
  split.
  - unfold build_state. rewrite build_loop_dom. cbn [clause_by_id].
    rewrite lookup_empty. split; [intros [[? [=]]|?]; done|by right].
  - intros Hk. destruct (first_occurrence _ _ _ Hk) as (hs1 & h & hs2 & Hhs & <- & Hfresh).
    pose proof (clause_of_heading lines hs1 h hs2 Hfresh) as Hc. cbv zeta in Hc.
    destruct Hc as ((c & Hc & Hid & Htitle & Hbody) & _).
    exists hs1, h, hs2, c. unfold build_state. rewrite Hhs. by split_and!.
Qed.

(** ** The body lines of a clause *)

Section BodyLines.

Lemma body_keeps_false line rest prev_top prev_page c :
  body_keeps line = false →
  body_loop (line :: rest) prev_top prev_page c = body_loop rest prev_top prev_page c.
Proof.
  unfold body_keeps. cbn [body_loop]. cbv zeta.
  destruct (should_skip_line (Line.cleaned_text line)); [done|].
  destruct (Re.matches (Line.cleaned_text line)); [done|].
  by destruct (looks_like_fragment line (Line.cleaned_text line)).
Qed.

Lemma body_keeps_true line rest prev_top prev_page c :
  body_keeps line = true →
  body_loop (line :: rest) prev_top prev_page c
  = body_loop rest (Some (Line.top line)) (Some (Line.page line))
      (Clause.add_line (Line.cleaned_text line)
         (match prev_page with
          | Some page =>
              if negb (Line.page line =? page)%Z
                 || Qltb 18 (Line.top line - prev_top_or prev_top (Line.top line))%Q
              then Clause.add_line "" c
              else c
          | None => c
          end)).
Proof.
  unfold body_keeps. cbn [body_loop]. cbv zeta.
  destruct (should_skip_line (Line.cleaned_text line)); [done|].
  destruct (Re.matches (Line.cleaned_text line)); [done|].
  destruct (looks_like_fragment line (Line.cleaned_text line)); [done|]. intros _.
  by destruct (Line.cleaned_text line).
Qed.

Lemma appended_cons_keeps line rest prev_top prev_page :
  body_keeps line = true →
  appended (line :: rest) prev_top prev_page
  = (match prev_page with
     | Some page =>
         if negb (Line.page line =? page)%Z
            || Qltb 18 (Line.top line - prev_top_or prev_top (Line.top line))%Q
         then [""]
         else []
     | None => []
     end)
    ++ Line.cleaned_text line
    :: appended rest (Some (Line.top line)) (Some (Line.page line)).
Proof.
  intros Hk. unfold appended at 1. rewrite (body_keeps_true _ _ _ _ _ Hk).
  destruct (body_loop_fields rest (Some (Line.top line)) (Some (Line.page line))
              (Clause.add_line (Line.cleaned_text line)
                 (match prev_page with
                  | Some page =>
                      if negb (Line.page line =? page)%Z
                         || Qltb 18 (Line.top line - prev_top_or prev_top (Line.top line))%Q
                      then Clause.add_line "" (Clause.mk "" "" [] [])
                      else Clause.mk "" "" [] []
                  | None => Clause.mk "" "" [] []
                  end))) as (_ & _ & _ & ->).
  destruct prev_page as [page|]; [destruct (_ || _)|]; cbn; by rewrite <- ?app_assoc.
Qed.

Lemma appended_cons_drops line rest prev_top prev_page :
  body_keeps line = false →
  appended (line :: rest) prev_top prev_page = appended rest prev_top prev_page.
Proof. intros Hk. unfold appended. by rewrite (body_keeps_false _ _ _ _ _ Hk). Qed.

(** What the loop has appended after [before], and the state it is in. *)
Lemma appended_app before rest prev_top prev_page :
  ∃ prev_top' prev_page',
    appended (before ++ rest) prev_top prev_page
    = appended before prev_top prev_page ++ appended rest prev_top' prev_page'.
Proof.
  revert prev_top prev_page. induction before as [|line before IH]; intros prev_top prev_page.
  - exists prev_top, prev_page. done.
  - cbn [app]. destruct (body_keeps line) eqn:Hk.
    + destruct (IH (Some (Line.top line)) (Some (Line.page line))) as (pt & pp & Happ).
      exists pt, pp. rewrite !(appended_cons_keeps _ _ _ _ Hk), Happ.
      by rewrite <- app_assoc.
    + destruct (IH prev_top prev_page) as (pt & pp & Happ).
      exists pt, pp. by rewrite !(appended_cons_drops _ _ _ _ Hk).
Qed.

Lemma appended_texts body prev_top prev_page :
  filter (fun s => Py.is_empty s = false) (appended body prev_top prev_page)
  = filter (fun s => Py.is_empty s = false)
      (Line.cleaned_text <$> filter (fun line => body_keeps line = true) body).
Proof.
  revert prev_top prev_page. induction body as [|line body IH]; intros prev_top prev_page.
  - done.
  - rewrite (filter_cons _ line). destruct (body_keeps line) eqn:Hk.
    + rewrite decide_True by done.
      rewrite (appended_cons_keeps _ _ _ _ Hk), filter_app, fmap_cons, !filter_cons, IH.
      assert (filter (fun s => Py.is_empty s = false)
                (match prev_page with
                 | Some page =>
                     if negb (Line.page line =? page)%Z
                        || Qltb 18 (Line.top line - prev_top_or prev_top (Line.top line))%Q
                     then [""]
                     else []
                 | None => []
                 end) = []) as ->
        by (destruct prev_page; [destruct (_ || _)|]; done).
      done.
    + rewrite decide_False by done. by rewrite (appended_cons_drops _ _ _ _ Hk).
Qed.

End BodyLines.

(** X10. Apart from the empty paragraph markers, the body lines
    collected from a range of lines are the cleaned texts of the lines
    the body loop keeps (not noise, not matching the heading pattern,
    not a fragment), in the order of the document. *)
Theorem collected_texts (body : list Line.t) :
  filter (fun s => Py.is_empty s = false) (collected body)
  = filter (fun s => Py.is_empty s = false)
      (Line.cleaned_text <$> filter (fun line => body_keeps line = true) body).
Proof. apply appended_texts. Qed.

(** X11. Two consecutive lines that the body loop keeps, the first
    not at the very top of its page, are collected next to each other,
    separated by an empty marker exactly when the second is on another
    page or more than 18 units below the first. *)
Theorem paragraph_marker_between (before after : list Line.t) (l1 l2 : Line.t) :
  body_keeps l1 = true → body_keeps l2 = true →
  Qeq_bool (Line.top l1) 0 = false →
  ∃ front back,
    collected (before ++ l1 :: l2 :: after)
    = front ++ Line.cleaned_text l1
        :: (if negb (Line.page l2 =? Line.page l1)%Z
               || Qltb 18 (Line.top l2 - Line.top l1)%Q
            then [""] else [])
        ++ Line.cleaned_text l2 :: back.
Proof.
  intros Hk1 Hk2 Htop. unfold collected.
  destruct (appended_app before (l1 :: l2 :: after) None None) as (pt & pp & ->).
  rewrite (appended_cons_keeps _ _ _ _ Hk1), (appended_cons_keeps _ _ _ _ Hk2).
  cbn [prev_top_or]. rewrite Htop.
  eexists (appended before None None ++ _), _.
  rewrite <- app_assoc. reflexivity.
Qed.

Lemma paragraph_marker_between_witness :
  ∃ front back,
    collected [ one_chunk 2 40 "First paragraph of the clause." 11 false;
                one_chunk 2 100 "Second paragraph, far below." 11 false ]
    = front ++ "First paragraph of the clause."
        :: "" :: "Second paragraph, far below." :: back.
Proof.
  apply (paragraph_marker_between [] []
           (one_chunk 2 40 "First paragraph of the clause." 11 false)
           (one_chunk 2 100 "Second paragraph, far below." 11 false));
    reflexivity.
Defined.

(** ** The forest of clauses *)

Section Forest.
Variable lines : list Line.t.

Lemma empty_state_forest : forest (mkState [] ∅).
Proof.
  split; cbn [clauses clause_by_id].
  - constructor.
  - intros k p. by rewrite lookup_empty.
  - intros k p c. by rewrite lookup_empty.
  - intros x. rewrite lookup_empty. by intros [? [=]].
Qed.

(** A clause of the state after a turn that creates one: the new
    clause, without children, or a clause of the state before, with the
    new clause as one more child when it is the parent. *)
Lemma build_step_children h rest st k p :
  clause_by_id st !! identifier h = None →
  clause_by_id (build_step lines h rest st) !! k = Some p →
  (k = identifier h ∧ Clause.children p = [])
  ∨ (k ≠ identifier h
     ∧ ∃ p0, clause_by_id st !! k = Some p0
             ∧ (Clause.children p = Clause.children p0
                ∨ (attaches h st = true ∧ k = parent_identifier (identifier h)
                   ∧ Clause.children p = Clause.children p0 ++ [identifier h]))).
Proof.
  intros Hid. rewrite (build_step_lookup lines h rest st k Hid). case_decide as Hk.
  - intros [= <-]. left. split; [done|].
    by destruct (filled_fields lines h rest) as (_ & _ & -> & _).
  - intros Hlook. right. split; [done|].
    destruct (attaches h st) eqn:Hatt; cbn [andb] in Hlook.
    + case_bool_decide as Hp.
      * apply fmap_Some in Hlook as (p0 & Hk0 & ->).
        exists p0. split; [done|]. by right.
      * exists p. split; [done|]. by left.
    + exists p. split; [done|]. by left.
Qed.

Lemma build_step_forest h rest st :
  well_formed st → forest st → forest (build_step lines h rest st).
Proof.
  intros Hwf Hf.
  destruct (clause_by_id st !! identifier h) as [c0|] eqn:Hid.
  { rewrite build_step_seen; [done|]. by rewrite Hid. }
  pose proof (build_step_clauses lines h rest st Hid) as Hcl.
  assert (identifier h ∉ clauses st) as Hfresh_root.
  { intros Hr. destruct (wf_roots _ Hwf _ Hr) as [? ?]. congruence. }
  assert (∀ k p, clause_by_id st !! k = Some p → identifier h ∉ Clause.children p)
    as Hfresh_child.
  { intros k p Hk Hc. destruct (wf_children _ Hwf k p _ Hk Hc) as [_ [? ?]]. congruence. }
  split.
  - rewrite Hcl. destruct (attaches h st); [by apply forest_roots|].
    apply NoDup_app. split_and!; [by apply forest_roots| |apply NoDup_singleton].
    intros x Hx ->%list_elem_of_singleton. done.
  - intros k p Hk.
    destruct (build_step_children h rest st k p Hid Hk)
      as [[_ ->]|(_ & p0 & Hk0 & [->|(_ & _ & ->)])].
    + constructor.
    + by apply (forest_children _ Hf k).
    + apply NoDup_app. split_and!; [by apply (forest_children _ Hf k)| |apply NoDup_singleton].
      intros x Hx ->%list_elem_of_singleton. by apply (Hfresh_child k p0).
  - intros k p c Hk Hc.
    assert (∀ p0, clause_by_id st !! k = Some p0 → c ∈ Clause.children p0 →
                  Py.mem Re.dot c = true ∧ c ∉ clauses (build_step lines h rest st))
      as Hold.
    { intros p0 Hk0 Hc0. destruct (forest_dotted _ Hf k p0 c Hk0 Hc0) as [Hdot Hroot].
      split; [done|]. rewrite Hcl. destruct (attaches h st); [done|].
      intros [?| ->%list_elem_of_singleton]%elem_of_app; [done|].
      by apply (Hfresh_child k p0). }
    destruct (build_step_children h rest st k p Hid Hk)
      as [[_ Hch]|(_ & p0 & Hk0 & [Hch|(Hatt & _ & Hch)])]; rewrite Hch in Hc.
    + by apply elem_of_nil in Hc.
    + by apply (Hold p0).
    + apply elem_of_app in Hc as [Hc| ->%list_elem_of_singleton]; [by apply (Hold p0)|].
      split.
      * unfold attaches in Hatt. by apply andb_true_iff in Hatt as [? _].
      * by rewrite Hcl, Hatt.
  - intros x Hx. apply build_step_dom in Hx as [Hx| ->].
    + destruct (forest_placed _ Hf x Hx) as [Hr|(p & Hp & Hc)].
      * left. rewrite Hcl. destruct (attaches h st); [done|]. apply elem_of_app. by left.
      * right. rewrite (build_step_lookup lines h rest st _ Hid).
        rewrite decide_False by congruence.
        destruct (attaches h st && bool_decide _).
        -- rewrite Hp. eexists. split; [done|]. apply add_child_elem. by left.
        -- by exists p.
    + destruct (attaches h st) eqn:Hatt.
      * right. pose proof Hatt as Hatt'. unfold attaches in Hatt'.
        apply andb_true_iff in Hatt' as [Hdot [p Hp]%bool_decide_eq_true_1].
        rewrite (build_step_lookup lines h rest st _ Hid).
        rewrite decide_False by (by apply parent_identifier_ne).
        rewrite Hatt, bool_decide_eq_true_2 by done. cbn [andb]. rewrite Hp.
        eexists. split; [done|]. apply add_child_elem. by right.
      * left. rewrite Hcl. apply elem_of_app. right. by apply list_elem_of_singleton.
Qed.

Lemma build_loop_forest hs st :
  well_formed st → forest st → forest (build_loop lines hs st).
Proof.
  revert st. induction hs as [|h hs IH]; intros st Hwf Hf; [done|].
  cbn [build_loop]. apply IH; [by apply build_step_well_formed|by apply build_step_forest].
Qed.

Lemma build_state_forest : forest (build_state lines).
Proof.
  apply build_loop_forest; [apply empty_state_well_formed|apply empty_state_forest].
Qed.

End Forest.

(** X12. The clauses the builder leaves behind form a forest.  No
    clause is twice among the roots or twice among the children of a
    clause; a child is a clause of the store, is not a root, and hangs
    under the clause whose identifier is its own without the last
    segment, which is strictly shorter; and every clause of the store is
    a root or a child of such a clause. *)
Theorem clause_forest (lines : list Line.t) :
  NoDup (clauses (build_state lines))
  ∧ (∀ k p, clause_by_id (build_state lines) !! k = Some p →
            NoDup (Clause.children p))
  ∧ (∀ k p c, clause_by_id (build_state lines) !! k = Some p →
              c ∈ Clause.children p →
              k = parent_identifier c
              ∧ String.length k < String.length c
              ∧ is_Some (clause_by_id (build_state lines) !! c)
              ∧ c ∉ clauses (build_state lines))
  ∧ (∀ x, is_Some (clause_by_id (build_state lines) !! x) →
          x ∈ clauses (build_state lines)
          ∨ ∃ p, clause_by_id (build_state lines) !! parent_identifier x = Some p
                 ∧ x ∈ Clause.children p).
Proof.
  pose proof (build_state_forest lines) as Hf.
  pose proof (build_state_well_formed lines) as Hwf.
  split_and!.
  - apply (forest_roots _ Hf).
  - apply (forest_children _ Hf).
  - intros k p c Hk Hc.
    destruct (wf_children _ Hwf k p c Hk Hc) as [-> Hin].
    destruct (forest_dotted _ Hf _ p c Hk Hc) as [Hdot Hroot].
    split_and!; [done| |done..]. by apply parent_identifier_shorter.
  - apply (forest_placed _ Hf).
Qed.

(** ** Column names and cell references *)

Section ColumnFacts.

Lemma letters_value_app a b acc :
  letters_value acc (a +:+ b) = letters_value (letters_value acc a) b.
Proof.
  revert acc. induction a as [|c a IH]; intros acc; [done|].
  rewrite app_cons. cbn [letters_value]. apply IH.
Qed.

Lemma all_upper_app a b : all_upper (a +:+ b) = all_upper a && all_upper b.
Proof.
  induction a as [|c a IH]; [done|]. rewrite app_cons. cbn [all_upper].
  by rewrite IH, andb_assoc.
Qed.

Lemma code_letter r : (0 ≤ r < 26)%Z → Z.of_N (Py.code (letter r)) = (65 + r)%Z.
Proof.
  intros Hr. unfold Py.code, letter. rewrite N_ascii_embedding by lia. lia.
Qed.

Lemma isupper_letter r : (0 ≤ r < 26)%Z → Py.isupper (letter r) = true.
Proof.
  intros Hr. pose proof (code_letter r Hr) as Hc. unfold Py.isupper.
  apply andb_true_iff. split; apply N.leb_le; lia.
Qed.

(** The loop puts before [result] the name of [index]. *)
Lemma column_letter_loop_spec fuel index result :
  (0 ≤ index < Z.of_nat fuel)%Z →
  ∃ name,
    column_letter_loop fuel index result = Some (name +:+ result)
    ∧ letters_value 0 name = (index + 1)%Z
    ∧ all_upper name = true ∧ Py.is_empty name = false.
Proof.
  revert index result. induction fuel as [|fuel IH]; intros index result Hi; [lia|].
  cbn [column_letter_loop]. cbv zeta.
  pose proof (Z.mod_pos_bound index 26 eq_refl) as Hr.
  pose proof (Z.div_mod index 26 ltac:(lia)) as Hdiv.
  assert (0 ≤ index / 26)%Z as Hq by (apply Z.div_pos; lia).
  destruct (index / 26 =? 0)%Z eqn:Hq0.
  - apply Z.eqb_eq in Hq0. exists (String (letter (index mod 26)) EmptyString).
    split_and!; [done| | |done].
    + cbn [letters_value]. rewrite code_letter by done. lia.
    + cbn [all_upper]. by rewrite isupper_letter.
  - apply Z.eqb_neq in Hq0.
    destruct (IH (index / 26 - 1)%Z (String (letter (index mod 26)) result))
      as (name & -> & Hval & Hup & Hne); [lia|].
    exists (name +:+ String (letter (index mod 26)) EmptyString).
    split_and!.
    + by rewrite string_app_assoc.
    + rewrite letters_value_app, Hval. cbn [letters_value].
      rewrite code_letter by done. lia.
    + rewrite all_upper_app, Hup. cbn [all_upper]. by rewrite isupper_letter.
    + by destruct name.
Qed.

Lemma column_letter_loop_fuel fuel extra index result name :
  column_letter_loop fuel index result = Some name →
  column_letter_loop (fuel + extra) index result = Some name.
Proof.
  revert index result. induction fuel as [|fuel IH]; intros index result; [done|].
  cbn [column_letter_loop Nat.add]. cbv zeta.
  destruct (index / 26 =? 0)%Z; [done|]. apply IH.
Qed.

Lemma column_letter_name c_index extra :
  column_letter (S c_index + extra) (Z.of_nat c_index) = Some (column_name c_index)
  ∧ column_index (column_name c_index) = Z.of_nat c_index
  ∧ all_upper (column_name c_index) = true
  ∧ Py.is_empty (column_name c_index) = false.
Proof.
  unfold column_name, column_letter, column_index.
  destruct (column_letter_loop_spec (S c_index) (Z.of_nat c_index) EmptyString)
    as (name & Hname & Hval & Hup & Hne); [lia|].
  rewrite (column_letter_loop_fuel _ extra _ _ _ Hname), Hname.
  rewrite string_app_nil_r. cbn [default id].
  split_and!; [done|lia|done..].
Qed.

Lemma column_name_inj i j : column_name i = column_name j → i = j.
Proof.
  intros Heq.
  destruct (column_letter_name i 0) as (_ & Hi & _).
  destruct (column_letter_name j 0) as (_ & Hj & _).
  rewrite Heq in Hi. lia.
Qed.

Lemma column_letter_loop_negative fuel index result :
  (index < 0)%Z → column_letter_loop fuel index result = None.
Proof.
  revert index result. induction fuel as [|fuel IH]; intros index result Hi; [done|].
  cbn [column_letter_loop]. cbv zeta.
  assert (index / 26 < 0)%Z as Hq by (apply Z.div_lt_upper_bound; lia).
  destruct (index / 26 =? 0)%Z eqn:Hq0; [apply Z.eqb_eq in Hq0; lia|].
  apply IH. lia.
Qed.

End ColumnFacts.

(** X13. For an index that is not negative, [column_letter] returns
    within index + 1 turns of its loop, and more turns change nothing.
    The name is not empty, is made of the letters A to Z, and read back
    as a number in base 26 with the digits 1 to 26 it gives the index:
    different indices have different names. *)
Theorem column_letter_round_trip (c_index extra : nat) :
  column_letter (S c_index + extra) (Z.of_nat c_index) = Some (column_name c_index)
  ∧ column_index (column_name c_index) = Z.of_nat c_index
  ∧ all_upper (column_name c_index) = true
  ∧ Py.is_empty (column_name c_index) = false
  ∧ ∀ j, column_name j = column_name c_index → j = c_index.
Proof.
  destruct (column_letter_name c_index extra) as (H1 & H2 & H3 & H4).
  split_and!; [done..|]. intros j. apply column_name_inj.
Qed.

(** X14. For a negative index the loop of [column_letter] never
    reaches its [break]: the quotient stays negative, whatever the number
    of turns. *)
Theorem column_letter_negative (fuel : nat) (index : Z) :
  (index < 0)%Z → column_letter fuel index = None.
Proof. intros Hi. by apply column_letter_loop_negative. Qed.

Lemma column_letter_negative_witness : column_letter 1000 (-1) = None.
Proof. apply (column_letter_negative 1000 (-1)). lia. Defined.

Section CellFacts.

Lemma str_first_not_upper z : first_not_upper (str z) = true.
Proof.
  unfold str. destruct (Z.to_int z) as [d|d]; [|done].
  by destruct d.
Qed.

Lemma str_inj a b : str a = str b → a = b.
Proof.
  unfold str. intros Heq. apply DecimalZ.to_int_inj.
  assert (∀ z, NilZero.int_of_string (NilZero.string_of_int (Z.to_int z))
               = Some (Z.to_int z)) as Hisi.
  { intros z. apply NilZero.isi.
    - destruct z as [|p|p]; [done| |done]. cbn [Z.to_int]. intros [= Hp].
      by apply DecimalPos.Unsigned.to_uint_nonnil in Hp.
    - destruct z as [|p|p]; [done..|]. cbn [Z.to_int]. intros [= Hp].
      by apply DecimalPos.Unsigned.to_uint_nonnil in Hp. }
  pose proof (Hisi a) as Ha. rewrite Heq, Hisi in Ha. congruence.
Qed.

Lemma upper_prefix_unique a a' b b' :
  all_upper a = true → all_upper a' = true →
  first_not_upper b = true → first_not_upper b' = true →
  a +:+ b = a' +:+ b' → a = a' ∧ b = b'.
Proof.
  revert a'. induction a as [|c a IH]; intros a' Ha Ha' Hb Hb' Heq.
  - destruct a' as [|c' a']; [done|]. exfalso.
    change (b = String c' (a' +:+ b')) in Heq. subst b. cbn in Ha', Hb.
    apply andb_true_iff in Ha' as [Hc _]. by rewrite Hc in Hb.
  - destruct a' as [|c' a'].
    + exfalso. change (String c (a +:+ b) = b') in Heq. subst b'. cbn in Ha, Hb'.
      apply andb_true_iff in Ha as [Hc _]. by rewrite Hc in Hb'.
    + rewrite !app_cons in Heq. injection Heq as -> Heq.
      cbn in Ha, Ha'. apply andb_true_iff in Ha as [_ Ha].
      apply andb_true_iff in Ha' as [_ Ha'].
      destruct (IH a' Ha Ha' Hb Hb' Heq) as [-> ->]. done.
Qed.

Lemma mem_app c a b : Py.mem c (a +:+ b) = Py.mem c a || Py.mem c b.
Proof.
  induction a as [|d a IH]; [done|]. rewrite app_cons. cbn [Py.mem].
  by rewrite IH, orb_assoc.
Qed.

Lemma eqc_sym a b : Py.eqc a b = Py.eqc b a.
Proof. unfold Py.eqc. apply Ascii.eqb_sym. Qed.

Lemma replace_char_removes old new s :
  Py.mem old new = false → Py.mem old (replace_char old new s) = false.
Proof.
  intros Hnew. induction s as [|c s IH]; [done|]. cbn [replace_char].
  destruct (Py.eqc c old) eqn:Hc.
  - by rewrite mem_app, Hnew, IH.
  - cbn [Py.mem]. by rewrite eqc_sym, Hc, IH.
Qed.

Lemma replace_char_keeps_out c old new s :
  Py.mem c new = false → Py.mem c s = false →
  Py.mem c (replace_char old new s) = false.
Proof.
  intros Hnew. induction s as [|d s IH]; [done|]. cbn [replace_char Py.mem].
  intros [Hd Hs]%orb_false_iff. destruct (Py.eqc d old).
  - by rewrite mem_app, Hnew, IH.
  - cbn [Py.mem]. by rewrite Hd, IH.
Qed.

Lemma replace_char_absent old new s :
  Py.mem old s = false → replace_char old new s = s.
Proof.
  induction s as [|c s IH]; [done|]. cbn [replace_char Py.mem].
  intros [Hc Hs]%orb_false_iff. rewrite eqc_sym, Hc. by rewrite IH.
Qed.

End CellFacts.

(** X15. Two cells of a sheet have the same reference only when they
    are in the same row and the same column: the column name is made of
    letters, the row number starts with a character that is not one. *)
Theorem cell_ref_injective (r r' : Z) (c c' : nat) :
  cell_ref r c = cell_ref r' c' ↔ r = r' ∧ c = c'.
Proof.
  split; [|by intros [-> ->]]. unfold cell_ref. intros Heq.
  destruct (column_letter_name c 0) as (_ & _ & Hc & _).
  destruct (column_letter_name c' 0) as (_ & _ & Hc' & _).
  destruct (upper_prefix_unique _ _ _ _ Hc Hc'
              (str_first_not_upper r) (str_first_not_upper r') Heq) as [Hname Hstr].
  split; [by apply str_inj|by apply column_name_inj].
Qed.

(** X16. The text written in a cell holds no angle bracket and no
    line break, whatever the value; a value without ampersand, angle
    bracket or line break is written unchanged. *)
Theorem text_value_escaped (value : string) :
  Py.mem "<" (text_value value) = false
  ∧ Py.mem ">" (text_value value) = false
  ∧ Py.mem Re.newline (text_value value) = false
  ∧ (Py.mem "&" value = false → Py.mem "<" value = false →
     Py.mem ">" value = false → Py.mem Re.newline value = false →
     text_value value = value).
Proof.
  unfold text_value, escape. split_and!.
  - apply replace_char_keeps_out; [done|]. by apply replace_char_removes.
  - apply replace_char_keeps_out; [done|]. apply replace_char_keeps_out; [done|].
    by apply replace_char_removes.
  - by apply replace_char_removes.
  - intros Hamp Hlt Hgt Hnl.
    rewrite (replace_char_absent "&" _ value Hamp).
    rewrite (replace_char_absent ">" _ value Hgt).
    rewrite (replace_char_absent "<" _ value Hlt).
    by apply replace_char_absent.
Qed.

(** ** The rows of the finished clauses *)

Lemma ClauseTree_ind (P : ClauseTree → Prop) :
  (∀ c kids, Forall P kids → P (Node c kids)) → ∀ t, P t.
Proof.
  intros Hnode. fix IH 1. intros [c kids]. apply Hnode.
  induction kids as [|kid kids IHkids]; constructor; [apply IH|apply IHkids].
Qed.

Lemma elem_of_concat {A} (x : A) (ls : list (list A)) :
  x ∈ concat ls ↔ ∃ l, l ∈ ls ∧ x ∈ l.
Proof.
  induction ls as [|l ls IH]; cbn [concat].
  - split; [by intros ?%elem_of_nil|by intros (? & ?%elem_of_nil & _)].
  - rewrite elem_of_app, IH. split.
    + intros [Hx|(l' & Hl' & Hx)]; [exists l; split; [left|done]|].
      exists l'. split; [by right|done].
    + intros (l' & [->|Hl']%elem_of_cons & Hx); [by left|]. right. by exists l'.
Qed.

Section TreeRows.

Lemma flatten_clauses_ids t parent level :
  cell 0 <$> flatten_clauses t parent level = tree_ids t.
Proof.
  revert parent level. induction t as [c kids IH] using ClauseTree_ind.
  intros parent level. cbn [flatten_clauses tree_ids]. rewrite fmap_cons. f_equal.
  generalize (Some (Clause.identifier c)) (level + 1)%Z. intros p l.
  induction IH as [|kid kids Hkid _ IHkids]; [done|].
  rewrite !fmap_cons. cbn [concat]. rewrite fmap_app, Hkid. by rewrite IHkids.
Qed.

Lemma clauses_to_rows_ids trees :
  cell 0 <$> tail (clauses_to_rows trees) = concat (tree_ids <$> trees).
Proof.
  unfold clauses_to_rows. cbn [tail].
  induction trees as [|t trees IH]; [done|].
  rewrite !fmap_cons. cbn [concat]. by rewrite fmap_app, flatten_clauses_ids, IH.
Qed.

End TreeRows.

Section Ancestors.

Lemma ancestor_S n id : ancestor (S n) id = parent_identifier (ancestor n id).
Proof. done. Qed.

Lemma ancestor_add a b id : ancestor (a + b) id = ancestor a (ancestor b id).
Proof. unfold ancestor. by rewrite Nat.iter_add. Qed.

Lemma parent_identifier_le id :
  String.length (parent_identifier id) ≤ String.length id.
Proof.
  destruct (Py.mem Re.dot id) eqn:Hdot.
  - pose proof (parent_identifier_shorter id Hdot). lia.
  - unfold parent_identifier.
    assert (Py.split_on Re.dot id = [id]) as ->.
    { clear -Hdot. induction id as [|c id IH]; [done|].
      cbn [Py.mem] in Hdot. apply orb_false_iff in Hdot as [Hc Hid].
      cbn [Py.split_on]. rewrite Hc, (IH Hid). done. }
    cbn. lia.
Qed.

Lemma ancestor_le n id : String.length (ancestor n id) ≤ String.length id.
Proof.
  induction n as [|n IH]; [done|]. rewrite ancestor_S.
  pose proof (parent_identifier_le (ancestor n id)). lia.
Qed.

(** Two identifiers above [x] with the same, shorter, parent are one. *)
Lemma ancestor_siblings x n1 n2 k :
  parent_identifier (ancestor n1 x) = k → parent_identifier (ancestor n2 x) = k →
  String.length k < String.length (ancestor n1 x) →
  String.length k < String.length (ancestor n2 x) →
  ancestor n1 x = ancestor n2 x.
Proof.
  assert (∀ a b, a < b →
            parent_identifier (ancestor a x) = k →
            String.length k < String.length (ancestor b x) → False) as Hlt.
  { intros a b Hab Ha Hb.
    replace b with ((b - S a) + S a) in Hb by lia.
    rewrite ancestor_add, ancestor_S, Ha in Hb.
    pose proof (ancestor_le (b - S a) k). lia. }
  intros H1 H2 Hl1 Hl2.
  destruct (Nat.lt_trichotomy n1 n2) as [Hn|[->|Hn]]; [|done|].
  - destruct (Hlt n1 n2 Hn H1 Hl2).
  - destruct (Hlt n2 n1 Hn H2 Hl1).
Qed.

End Ancestors.

Section TreeOf.
Variable st : BuildState.
Hypothesis Hwf : well_formed st.
Hypothesis Hf : forest st.

Let store := clause_by_id st.

Lemma child_longer k p c :
  store !! k = Some p → c ∈ Clause.children p →
  k = parent_identifier c ∧ String.length k < String.length c
  ∧ is_Some (store !! c).
Proof.
  intros Hk Hc. destruct (wf_children _ Hwf k p c Hk Hc) as [-> Hin].
  destruct (forest_dotted _ Hf _ p c Hk Hc) as [Hdot _].
  split_and!; [done| |done]. by apply parent_identifier_shorter.
Qed.

Lemma tree_of_inv fuel id t :
  tree_of fuel store id = Some t →
  ∃ fuel' c kids,
    fuel = S fuel' ∧ t = Node c kids ∧ store !! id = Some c
    ∧ Clause.identifier c = id
    ∧ Forall2 (fun y kid => tree_of fuel' store y = Some kid) (Clause.children c) kids.
Proof.
  destruct fuel as [|fuel']; [done|]. cbn [tree_of].
  destruct (store !! id) as [c|] eqn:Hid; [|done].
  destruct (mapM _ _) as [kids|] eqn:Hkids; [|done]. intros [= <-].
  exists fuel', c, kids. split_and!; [done..| |by apply mapM_Some].
  by apply (wf_identifier _ Hwf).
Qed.

Lemma key_length_le k :
  is_Some (store !! k) → String.length k < tree_fuel store.
Proof.
  intros [c Hk]. unfold tree_fuel. apply Nat.lt_succ_r, max_list_elem_of_le.
  apply list_elem_of_fmap. exists k. split; [done|].
  apply list_elem_of_fmap. exists (k, c). split; [done|].
  by apply elem_of_map_to_list.
Qed.

(** Enough fuel for the levels below [id] gives its tree. *)
Lemma tree_of_total fuel id :
  is_Some (store !! id) → tree_fuel store ≤ fuel + String.length id →
  is_Some (tree_of fuel store id).
Proof.
  revert id. induction fuel as [|fuel IH]; intros id Hid Hfuel.
  - pose proof (key_length_le id Hid). cbn in Hfuel. lia.
  - destruct Hid as [c Hc]. cbn [tree_of]. rewrite Hc.
    assert (is_Some (mapM (tree_of fuel store) (Clause.children c))) as [kids ->]; [|done].
    apply mapM_is_Some, Forall_forall. intros y Hy.
    destruct (child_longer id c y Hc Hy) as (_ & Hlen & Hin).
    apply IH; [done|lia].
Qed.

Lemma tree_ids_ancestor fuel id t x :
  tree_of fuel store id = Some t → x ∈ tree_ids t →
  ∃ n, ancestor n x = id ∧ ∀ m, m < n → is_child store (ancestor m x).
Proof.
  revert id t. induction fuel as [|fuel IH]; intros id t Ht Hx; [done|].
  destruct (tree_of_inv _ _ _ Ht) as (fuel' & c & kids & [= <-] & -> & Hc & Hid & Hkids).
  cbn [tree_ids] in Hx. apply elem_of_cons in Hx as [->|Hx].
  { exists 0. split; [done|]. intros m Hm. lia. }
  apply elem_of_concat in Hx as (ids & Hids & Hx).
  apply list_elem_of_fmap in Hids as (kid & -> & Hkid).
  apply list_elem_of_lookup in Hkid as [i Hi].
  destruct (Forall2_lookup_r _ _ _ _ _ Hkids Hi) as (y & Hy & Hkid).
  destruct (IH y kid Hkid Hx) as (n & Hn & Hchain).
  assert (y ∈ Clause.children c) as Hyc by (by eapply list_elem_of_lookup_2).
  destruct (child_longer id c y Hc Hyc) as (Hpar & _).
  exists (S n). split; [by rewrite ancestor_S, Hn|].
  intros m Hm. destruct (decide (m = n)) as [->|Hne]; [|apply Hchain; lia].
  rewrite Hn. exists c. split; [by rewrite <- Hpar|done].
Qed.

Lemma tree_ids_children fuel id t p cp x :
  tree_of fuel store id = Some t → p ∈ tree_ids t →
  store !! p = Some cp → x ∈ Clause.children cp → x ∈ tree_ids t.
Proof.
  revert id t. induction fuel as [|fuel IH]; intros id t Ht Hp Hcp Hx; [done|].
  destruct (tree_of_inv _ _ _ Ht) as (fuel' & c & kids & [= <-] & -> & Hc & Hid & Hkids).
  cbn [tree_ids] in *. apply elem_of_cons in Hp as [->|Hp].
  - assert (cp = c) as -> by congruence.
    apply list_elem_of_lookup in Hx as [i Hi].
    destruct (Forall2_lookup_l _ _ _ _ _ Hkids Hi) as (kid & Hkid & Hy).
    right. apply elem_of_concat. exists (tree_ids kid). split.
    + apply list_elem_of_fmap. exists kid. split; [done|]. by eapply list_elem_of_lookup_2.
    + destruct (tree_of_inv _ _ _ Hy) as (_ & c' & kids' & _ & -> & _ & <- & _). left.
  - right. apply elem_of_concat in Hp as (ids & Hids & Hp).
    apply list_elem_of_fmap in Hids as (kid & -> & Hkid).
    apply elem_of_concat. exists (tree_ids kid). split.
    + apply list_elem_of_fmap. by exists kid.
    + apply list_elem_of_lookup in Hkid as [i Hi].
      destruct (Forall2_lookup_r _ _ _ _ _ Hkids Hi) as (y & Hy & Hkid).
      by apply (IH y kid).
Qed.

Lemma tree_ids_NoDup fuel id t :
  tree_of fuel store id = Some t → NoDup (tree_ids t).
Proof.
  revert id t. induction fuel as [|fuel IH]; intros id t Ht; [done|].
  destruct (tree_of_inv _ _ _ Ht) as (fuel' & c & kids & [= <-] & -> & Hc & Hid & Hkids).
  cbn [tree_ids]. rewrite Hid.
  assert (∀ y kid x, y ∈ Clause.children c → tree_of fuel store y = Some kid →
                     x ∈ tree_ids kid →
                     ∃ n, ancestor n x = y ∧ parent_identifier y = id
                          ∧ String.length id < String.length y) as Hsub.
  { intros y kid x Hy Hkid Hx.
    destruct (tree_ids_ancestor _ _ _ _ Hkid Hx) as (n & Hn & _).
    destruct (child_longer id c y Hc Hy) as (Hpar & Hlen & _).
    exists n. by split_and!. }
  constructor.
  - intros Hin. apply elem_of_concat in Hin as (ids & Hids & Hin).
    apply list_elem_of_fmap in Hids as (kid & -> & Hkid).
    apply list_elem_of_lookup in Hkid as [i Hi].
    destruct (Forall2_lookup_r _ _ _ _ _ Hkids Hi) as (y & Hy & Hkid).
    destruct (Hsub y kid id (list_elem_of_lookup_2 _ _ _ Hy) Hkid Hin) as (n & Hn & _ & Hlen).
    pose proof (ancestor_le n id). rewrite Hn in *. lia.
  - assert (∀ ys kids',
              Forall2 (fun y kid => tree_of fuel store y = Some kid) ys kids' →
              NoDup ys → (∀ y, y ∈ ys → y ∈ Clause.children c) →
              NoDup (concat (tree_ids <$> kids'))) as Hgen.
    { intros ys kids' Hall2.
      induction Hall2 as [|y kid ys kids' Hkid Hrest IHkids]; intros Hnodup Hall.
      { constructor. }
      rewrite fmap_cons. cbn [concat]. apply NoDup_app.
      apply NoDup_cons in Hnodup as [Hy Hnodup]. split_and!.
      + by apply (IH y).
      + intros x Hx Hx'. apply elem_of_concat in Hx' as (ids & Hids & Hx').
        apply list_elem_of_fmap in Hids as (kid' & -> & Hkid').
        apply list_elem_of_lookup in Hkid' as [i Hi].
        destruct (Forall2_lookup_r _ _ _ _ _ Hrest Hi) as (y' & Hy' & Hkid').
        apply list_elem_of_lookup_2 in Hy'.
        destruct (Hsub y kid x (Hall y (list_elem_of_here _ _)) Hkid Hx)
          as (n & Hn & Hpar & Hlen).
        destruct (Hsub y' kid' x (Hall y' (list_elem_of_further _ _ _ Hy')) Hkid' Hx')
          as (n' & Hn' & Hpar' & Hlen').
        assert (y = y') as ->; [|done].
        rewrite <- Hn, <- Hn'. apply (ancestor_siblings x n n' id); by rewrite ?Hn, ?Hn'.
      + apply IHkids; [done|]. intros y' Hy'. apply Hall. by right. }
    apply (Hgen (Clause.children c) kids Hkids); [|done].
    by apply (forest_children _ Hf id c).
Qed.

(** Every clause of the store is in the tree of a root. *)
Lemma tree_ids_cover x :
  is_Some (store !! x) →
  ∃ r t, r ∈ clauses st ∧ tree_of (tree_fuel store) store r = Some t ∧ x ∈ tree_ids t.
Proof.
  remember (String.length x) as len eqn:Hlen. revert x Hlen.
  induction len as [len IH] using lt_wf_ind. intros x -> Hx.
  destruct (forest_placed _ Hf x Hx) as [Hroot|(p & Hp & Hxp)].
  - destruct (tree_of_total (tree_fuel store) x Hx) as [t Ht]; [lia|].
    exists x, t. split_and!; [done..|].
    destruct (tree_of_inv _ _ _ Ht) as (_ & c & kids & _ & -> & _ & <- & _). left.
  - destruct (child_longer _ p x Hp Hxp) as (_ & Hshort & _).
    destruct (IH _ Hshort (parent_identifier x) eq_refl) as (r & t & Hr & Ht & Hin);
      [by exists p|].
    exists r, t. split_and!; [done..|].
    by apply (tree_ids_children _ _ _ _ _ _ Ht Hin Hp).
Qed.

Lemma tree_ids_store fuel id t x :
  tree_of fuel store id = Some t → x ∈ tree_ids t → is_Some (store !! x).
Proof.
  intros Ht Hx. destruct (tree_ids_ancestor _ _ _ _ Ht Hx) as ([|n] & Hn & Hchain).
  - cbn in Hn. subst x.
    destruct (tree_of_inv _ _ _ Ht) as (_ & c & _ & _ & _ & -> & _). done.
  - destruct (Hchain 0) as (p & Hp & Hxp); [lia|].
    by destruct (child_longer _ p x Hp Hxp) as (_ & _ & ?).
Qed.

(** The trees of two roots share no clause. *)
Lemma tree_ids_roots fuel r r' t t' x :
  r ∈ clauses st → r' ∈ clauses st →
  tree_of fuel store r = Some t → tree_of fuel store r' = Some t' →
  x ∈ tree_ids t → x ∈ tree_ids t' → r = r'.
Proof.
  intros Hr Hr' Ht Ht' Hx Hx'.
  destruct (tree_ids_ancestor _ _ _ _ Ht Hx) as (n & Hn & Hchain).
  destruct (tree_ids_ancestor _ _ _ _ Ht' Hx') as (n' & Hn' & Hchain').
  assert (∀ a b ra, a < b → ancestor a x = ra → ra ∈ clauses st →
            (∀ m, m < b → is_child store (ancestor m x)) → False) as Hlt.
  { intros a b ra Hab Ha Hra Hb. destruct (Hb a Hab) as (p & Hp & Hin).
    rewrite Ha in *. by destruct (forest_dotted _ Hf _ p ra Hp Hin). }
  destruct (Nat.lt_trichotomy n n') as [Hlt'|[->|Hlt']]; [|congruence|].
  - destruct (Hlt n n' r Hlt' Hn Hr Hchain').
  - destruct (Hlt n' n r' Hlt' Hn' Hr' Hchain).
Qed.

(** The trees of a list of distinct roots hold every clause of the
    store once. *)
Lemma forest_ids roots trees :
  roots ≡ₚ clauses st →
  mapM (tree_of (tree_fuel store) store) roots = Some trees →
  NoDup (concat (tree_ids <$> trees))
  ∧ ∀ x, x ∈ concat (tree_ids <$> trees) ↔ is_Some (store !! x).
Proof.
  intros Hperm Htrees. apply mapM_Some in Htrees. split.
  - assert (NoDup roots) as Hnodup by (rewrite Hperm; apply (forest_roots _ Hf)).
    assert (∀ r, r ∈ roots → r ∈ clauses st) as Hall by (intros r; by rewrite Hperm).
    clear Hperm. induction Htrees as [|r t roots trees Ht Hrest IH]; [constructor|].
    rewrite fmap_cons. cbn [concat]. apply NoDup_cons in Hnodup as [Hr Hnodup].
    apply NoDup_app. split_and!.
    + by apply (tree_ids_NoDup (tree_fuel store) r).
    + intros x Hx Hx'. apply elem_of_concat in Hx' as (ids & Hids & Hx').
      apply list_elem_of_fmap in Hids as (t' & -> & Ht').
      apply list_elem_of_lookup in Ht' as [i Hi].
      destruct (Forall2_lookup_r _ _ _ _ _ Hrest Hi) as (r' & Hr' & Ht').
      apply list_elem_of_lookup_2 in Hr'.
      assert (r = r') as ->; [|done].
      apply (tree_ids_roots (tree_fuel store) r r' t t' x); try done;
        apply Hall; [left|by right].
    + apply IH; [done|]. intros r' Hr'. apply Hall. by right.
  - intros x. split.
    + intros (ids & Hids & Hx)%elem_of_concat.
      apply list_elem_of_fmap in Hids as (t & -> & Ht).
      apply list_elem_of_lookup in Ht as [i Hi].
      destruct (Forall2_lookup_r _ _ _ _ _ Htrees Hi) as (r & _ & Ht).
      by apply (tree_ids_store (tree_fuel store) r t).
    + intros Hx. destruct (tree_ids_cover x Hx) as (r & t & Hr & Ht & Hin).
      rewrite <- Hperm in Hr. apply list_elem_of_lookup in Hr as [i Hi].
      destruct (Forall2_lookup_l _ _ _ _ _ Htrees Hi) as (t' & Ht' & Hrt).
      assert (t' = t) as -> by congruence.
      apply elem_of_concat. exists (tree_ids t). split; [|done].
      apply list_elem_of_fmap. exists t. split; [done|]. by eapply list_elem_of_lookup_2.
Qed.

(** A row of a tree: the clause it shows, and how far below the root
    of the tree that clause lies. *)
Lemma flatten_clauses_rows fuel id t parent level row :
  tree_of fuel store id = Some t → row ∈ flatten_clauses t parent level →
  ∃ c n,
    store !! Clause.identifier c = Some c
    ∧ ancestor n (Clause.identifier c) = id
    ∧ (∀ m, m < n → is_child store (ancestor m (Clause.identifier c)))
    ∧ row = [ Clause.identifier c; Clause.title c;
              match n with
              | O => default "" parent
              | S _ => parent_identifier (Clause.identifier c)
              end;
              str (level + Z.of_nat n); Clause.text c ].
Proof.
  revert id t parent level. induction fuel as [|fuel IH]; intros id t parent level Ht Hrow;
    [done|].
  destruct (tree_of_inv _ _ _ Ht) as (fuel' & c & kids & [= <-] & -> & Hc & Hid & Hkids).
  cbn [flatten_clauses] in Hrow. apply elem_of_cons in Hrow as [->|Hrow].
  { exists c, 0. split_and!; [by rewrite Hid|done|intros m Hm; lia|].
    by rewrite Z.add_0_r. }
  apply elem_of_concat in Hrow as (rows & Hrows & Hrow).
  apply list_elem_of_fmap in Hrows as (kid & -> & Hkid).
  apply list_elem_of_lookup in Hkid as [i Hi].
  destruct (Forall2_lookup_r _ _ _ _ _ Hkids Hi) as (y & Hy & Hkid).
  apply list_elem_of_lookup_2 in Hy.
  destruct (child_longer id c y Hc Hy) as (Hpar & _).
  destruct (IH y kid _ _ Hkid Hrow) as (c' & n & Hc' & Hn & Hchain & ->).
  exists c', (S n). split_and!; [done|by rewrite ancestor_S, Hn| |].
  - intros m Hm. destruct (decide (m = n)) as [->|Hne]; [|apply Hchain; lia].
    rewrite Hn. exists c. split; [by rewrite <- Hpar|done].
  - f_equal. f_equal. f_equal; [|f_equal; f_equal; lia].
    destruct n as [|n]; [|done]. cbn in Hn. rewrite Hn, Hid. done.
Qed.

End TreeOf.

Section FinishedClauses.
Variable lines : list Line.t.

(** The trees of the clauses [build_clauses] returns are reached from
    the store within the fuel computed from the identifiers. *)
Lemma clause_trees_total roots :
  build_clauses lines = Some roots →
  ∃ trees,
    clause_trees (build_state lines) roots = Some trees
    ∧ Clause.identifier <$> roots ≡ₚ clauses (build_state lines)
    ∧ ∀ c, c ∈ roots → clause_by_id (build_state lines) !! Clause.identifier c = Some c.
Proof.
  intros Hb. destruct (build_clauses_spec lines roots Hb) as (Hperm & Hstore & _).
  assert (is_Some (clause_trees (build_state lines) roots)) as [trees Htrees].
  { apply mapM_is_Some, Forall_forall. intros r (c & -> & Hc)%list_elem_of_fmap.
    apply (tree_of_total _ (build_state_well_formed lines) (build_state_forest lines));
      [|lia].
    rewrite (Hstore c Hc). done. }
  by exists trees.
Qed.

End FinishedClauses.

(** X17. Whenever [build_clauses] returns, the rows written for the
    clauses it returns show every clause of the store once: after the
    header row there is one row for each identifier of a detected
    heading, and no identifier is in the first column of two rows.  The
    trees walked are those of the returned clauses, each reached from the
    store within the fuel computed from the identifiers. *)
Theorem rows_cover_clauses (lines : list Line.t) (roots : list Clause.t) :
  build_clauses lines = Some roots →
  ∃ trees,
    clause_trees (build_state lines) roots = Some trees
    ∧ root_clause <$> trees = roots
    ∧ length (clauses_to_rows trees) = S (size (clause_by_id (build_state lines)))
    ∧ NoDup (cell 0 <$> tail (clauses_to_rows trees))
    ∧ ∀ k, k ∈ cell 0 <$> tail (clauses_to_rows trees)
           ↔ k ∈ identifier <$> find_headings lines.
Proof.
  intros Hb.
  destruct (clause_trees_total lines roots Hb) as (trees & Htrees & Hperm & Hstore).
  pose proof (build_state_well_formed lines) as Hwf.
  pose proof (build_state_forest lines) as Hf.
  destruct (forest_ids _ Hwf Hf _ _ Hperm Htrees) as [Hnodup Hcover].
  exists trees. rewrite clauses_to_rows_ids. split_and!; [done| | |done|].
  - apply mapM_Some, Forall2_fmap_l in Htrees. clear Hb Hperm Hnodup Hcover.
    induction Htrees as [|c t roots trees Ht _ IH]; [done|].
    rewrite fmap_cons, IH by (intros c' Hc'; apply Hstore; by right). f_equal.
    destruct (tree_of_inv _ Hwf _ _ _ Ht) as (_ & c' & kids & _ & -> & Hc' & _).
    rewrite (Hstore c) in Hc' by left. cbn. congruence.
  - assert (length (clauses_to_rows trees)
            = S (length (cell 0 <$> tail (clauses_to_rows trees)))) as ->
      by (by rewrite length_fmap).
    rewrite clauses_to_rows_ids. f_equal.
    rewrite <- length_map_to_list, <- (length_fmap fst).
    apply Permutation_length, NoDup_Permutation; [done|apply NoDup_fst_map_to_list|].
    intros x. rewrite Hcover. split.
    + intros [c Hc]. apply list_elem_of_fmap. exists (x, c). split; [done|].
      by apply elem_of_map_to_list.
    + intros ([x' c] & -> & Hc%elem_of_map_to_list)%list_elem_of_fmap. by exists c.
  - intros k. rewrite Hcover. unfold build_state. rewrite build_loop_dom.
    cbn [clause_by_id]. rewrite lookup_empty.
    split; [intros [[? [=]]|?]; done|by right].
Qed.

Lemma rows_cover_clauses_witness :
  ∃ trees,
    clause_trees (build_state safety_lines)
                 [Clause.mk "4" "Safety requirements" [] ["4.1"]] = Some trees
    ∧ root_clause <$> trees = [Clause.mk "4" "Safety requirements" [] ["4.1"]]
    ∧ length (clauses_to_rows trees)
      = S (size (clause_by_id (build_state safety_lines)))
    ∧ NoDup (cell 0 <$> tail (clauses_to_rows trees))
    ∧ ∀ k, k ∈ cell 0 <$> tail (clauses_to_rows trees)
           ↔ k ∈ identifier <$> find_headings safety_lines.
Proof.
  apply (rows_cover_clauses safety_lines [Clause.mk "4" "Safety requirements" [] ["4.1"]]).
  reflexivity.
Defined.

(** X18. Whenever [build_clauses] returns, every row after the header
    written for the clauses it returns shows a clause of the store: its
    identifier, its title and its text.  The Level is one more than the
    number of last segments to drop from the identifier to reach a root,
    passing only through clauses held as children; the Parent is empty
    for a root and the identifier without its last segment otherwise. *)
Theorem rows_show_clauses (lines : list Line.t) (roots : list Clause.t) :
  build_clauses lines = Some roots →
  ∃ trees,
    clause_trees (build_state lines) roots = Some trees
    ∧ Forall
        (fun row =>
           ∃ c n,
             clause_by_id (build_state lines) !! Clause.identifier c = Some c
             ∧ ancestor n (Clause.identifier c) ∈ clauses (build_state lines)
             ∧ (∀ m, m < n →
                  is_child (clause_by_id (build_state lines))
                           (ancestor m (Clause.identifier c)))
             ∧ row = [ Clause.identifier c; Clause.title c;
                       match n with
                       | O => ""
                       | S _ => parent_identifier (Clause.identifier c)
                       end;
                       str (1 + Z.of_nat n); Clause.text c ])
        (tail (clauses_to_rows trees)).
Proof.
  intros Hb.
  destruct (clause_trees_total lines roots Hb) as (trees & Htrees & Hperm & Hstore).
  pose proof (build_state_well_formed lines) as Hwf.
  pose proof (build_state_forest lines) as Hf.
  exists trees. split; [done|].
  apply Forall_forall. intros row Hrow. unfold clauses_to_rows in Hrow. cbn [tail] in Hrow.
  apply elem_of_concat in Hrow as (rows & Hrows & Hrow).
  apply list_elem_of_fmap in Hrows as (t & -> & Ht).
  apply mapM_Some in Htrees. apply list_elem_of_lookup in Ht as [i Hi].
  destruct (Forall2_lookup_r _ _ _ _ _ Htrees Hi) as (r & Hr & Ht).
  apply list_elem_of_lookup_2 in Hr.
  destruct (flatten_clauses_rows _ Hwf Hf _ _ _ _ _ _ Ht Hrow)
    as (c & n & Hc & Hn & Hchain & ->).
  exists c, n. split_and!; [done| |done|done].
  rewrite Hn, <- Hperm. done.
Qed.

Lemma rows_show_clauses_witness :
  ∃ trees,
    clause_trees (build_state safety_lines)
                 [Clause.mk "4" "Safety requirements" [] ["4.1"]] = Some trees
    ∧ Forall
        (fun row =>
           ∃ c n,
             clause_by_id (build_state safety_lines) !! Clause.identifier c = Some c
             ∧ ancestor n (Clause.identifier c) ∈ clauses (build_state safety_lines)
             ∧ (∀ m, m < n →
                  is_child (clause_by_id (build_state safety_lines))
                           (ancestor m (Clause.identifier c)))
             ∧ row = [ Clause.identifier c; Clause.title c;
                       match n with
                       | O => ""
                       | S _ => parent_identifier (Clause.identifier c)
                       end;
                       str (1 + Z.of_nat n); Clause.text c ])
        (tail (clauses_to_rows trees)).
Proof.
  apply (rows_show_clauses safety_lines [Clause.mk "4" "Safety requirements" [] ["4.1"]]).
  reflexivity.
Defined.

(** X19. The JSON value and the rows of a clause show the same
    clauses in the same order, each with the same identifier, title and
    text; a clause without children has no "subclauses" key, one with
    children has the values of its children under it. *)
Theorem to_dict_agrees_with_rows (t : ClauseTree) (parent : option string) (level : Z) :
  json_entries (to_dict t) = row_entry <$> flatten_clauses t parent level
  ∧ to_dict t
    = JDict ([ ("clause", JString (Clause.identifier (root_clause t)));
               ("title", JString (Clause.title (root_clause t)));
               ("text", JString (Clause.text (root_clause t))) ]
             ++ if bool_decide (subclauses_of t = []) then []
                else [("subclauses", JList (to_dict <$> subclauses_of t))]).
Proof.
  split.
  - revert parent level. induction t as [c kids IH] using ClauseTree_ind.
    intros parent level. cbn [flatten_clauses]. rewrite fmap_cons.
    assert (concat (json_entries <$> (to_dict <$> kids))
            = row_entry <$> concat ((fun child =>
                  flatten_clauses child (Some (Clause.identifier c)) (level + 1))
                <$> kids)) as Hkids.
    { generalize (Some (Clause.identifier c)) (level + 1)%Z. intros p l.
      induction IH as [|kid kids Hkid _ IHkids]; [done|].
      rewrite !fmap_cons. cbn [concat]. by rewrite fmap_app, (Hkid p l), IHkids. }
    destruct kids as [|kid kids].
    + done.
    + cbn [to_dict json_entries app json_string String.eqb Ascii.eqb Bool.eqb].
      cbn [app] in *. rewrite app_nil_r.
      change (json_entries (JList (to_dict <$> kid :: kids)))
        with (concat (json_entries <$> (to_dict <$> kid :: kids))).
      by rewrite Hkids.
  - destruct t as [c [|kid kids]]; done.
Qed.

(** ** The lines of the layout *)

Section LayoutFacts.

Lemma lower_string_app a b : lower_string (a +:+ b) = lower_string a +:+ lower_string b.
Proof.
  induction a as [|c a IH]; [done|]. rewrite app_cons. cbn [lower_string].
  by rewrite IH, app_cons.
Qed.

Lemma lower_idempotent c : Py.lower (Py.lower c) = Py.lower c.
Proof.
  unfold Py.lower. destruct (Py.isupper c) eqn:Hc; [|by rewrite Hc].
  unfold Py.isupper, Py.code in *.
  apply andb_true_iff in Hc as [Hlo%N.leb_le Hhi%N.leb_le].
  rewrite N_ascii_embedding by lia.
  replace ((65 <=? N_of_ascii c + 32)%N && (N_of_ascii c + 32 <=? 90)%N) with false; [done|].
  symmetry. apply andb_false_iff. right. apply N.leb_gt. lia.
Qed.

Lemma lower_string_idempotent s : lower_string (lower_string s) = lower_string s.
Proof.
  induction s as [|c s IH]; [done|]. cbn [lower_string]. by rewrite lower_idempotent, IH.
Qed.

Lemma lower_string_empty s : Py.is_empty (lower_string s) = Py.is_empty s.
Proof. by destruct s. Qed.

Lemma Qmax2_nonneg a : (0 <= Qmax2 a 0)%Q.
Proof.
  unfold Qmax2. destruct (Qltb a 0) eqn:Ha; [done|].
  unfold Qltb in Ha. apply negb_false_iff, Qle_bool_iff in Ha. done.
Qed.

Lemma line_key_lt_asym a b : line_key_lt a b = true → line_key_lt b a = false.
Proof.
  destruct a as [[pa ta] la], b as [[pb tb] lb]. unfold line_key_lt.
  destruct (pa =? pb)%Z eqn:Hp.
  - apply Z.eqb_eq in Hp as ->. rewrite Z.eqb_refl. cbn [negb].
    destruct (Qeq_bool ta tb) eqn:Ht.
    + assert (Qeq_bool tb ta = true) as ->
        by (apply Qeq_bool_iff; symmetry; by apply Qeq_bool_iff).
      cbn [negb]. apply Qltb_asym.
    + assert (Qeq_bool tb ta = false) as ->.
      { apply not_true_iff_false. intros Hq%Qeq_bool_iff.
        apply Qeq_bool_neq in Ht. apply Ht. by symmetry. }
      cbn [negb]. apply Qltb_asym.
  - assert ((pb =? pa)%Z = false) as -> by (apply Z.eqb_neq; apply Z.eqb_neq in Hp; lia).
    cbn [negb]. intros Hlt%Z.ltb_lt. apply Z.ltb_ge. lia.
Qed.

Lemma line_key_lt_cotrans a b c :
  line_key_lt a c = true → line_key_lt a b = true ∨ line_key_lt b c = true.
Proof.
  destruct a as [[pa ta] la], b as [[pb tb] lb], c as [[pc tc] lc]. unfold line_key_lt.
  destruct (Z.lt_trichotomy pa pb) as [Hab|[->|Hab]].
  { intros _. left. rewrite (proj2 (Z.eqb_neq pa pb)) by lia. cbn [negb]. apply Z.ltb_lt. lia. }
  2:{ destruct (pa =? pc)%Z eqn:Hac.
      - apply Z.eqb_eq in Hac as ->. intros _. right.
        rewrite (proj2 (Z.eqb_neq pb pc)) by lia. cbn [negb]. apply Z.ltb_lt. lia.
      - cbn [negb]. intros Hlt%Z.ltb_lt. right.
        rewrite (proj2 (Z.eqb_neq pb pc)) by lia. cbn [negb]. apply Z.ltb_lt. lia. }
  rewrite (Z.eqb_refl pb). cbn [negb].
  destruct (pb =? pc)%Z eqn:Hbc; cbn [negb]; [|intros Hlt; by right].
  destruct (Qeq_bool ta tb) eqn:Hab; cbn [negb].
  - apply Qeq_bool_iff in Hab.
    destruct (Qeq_bool ta tc) eqn:Hac; cbn [negb].
    + apply Qeq_bool_iff in Hac.
      assert (Qeq_bool tb tc = true) as ->
        by (apply Qeq_bool_iff; rewrite <- Hab; done).
      cbn [negb]. apply Qltb_cotrans.
    + assert (Qeq_bool tb tc = false) as ->.
      { apply not_true_iff_false. intros Hq%Qeq_bool_iff.
        apply Qeq_bool_neq in Hac. apply Hac. by rewrite Hab. }
      cbn [negb]. intros Hlt%Qltb_lt. right. apply Qltb_lt. by rewrite <- Hab.
  - apply Qeq_bool_neq in Hab.
    destruct (Qeq_bool ta tc) eqn:Hac; cbn [negb].
    + apply Qeq_bool_iff in Hac. intros _.
      assert (Qeq_bool tb tc = false) as ->.
      { apply not_true_iff_false. intros Hq%Qeq_bool_iff. apply Hab.
        rewrite Hac. by symmetry. }
      cbn [negb]. rewrite !Qltb_lt, <- Hac.
      destruct (Q_dec ta tb) as [[?|?]|?]; [by left|by right|done].
    + intros Hlt%Qltb_lt.
      destruct (Qlt_le_dec ta tb) as [?|Hle]; [left; by apply Qltb_lt|]. right.
      assert (tb < tc)%Q as Hbc' by (by eapply Qle_lt_trans).
      assert (Qeq_bool tb tc = false) as ->.
      { apply not_true_iff_false. intros Hq%Qeq_bool_iff. rewrite Hq in Hbc'.
        by apply Qlt_irrefl in Hbc'. }
      cbn [negb]. by apply Qltb_lt.
Qed.

Lemma single_chunk_ratio page top chunk :
  Qleb (1 # 2) (Line.bold_ratio (Line.mk page top [chunk]))
  = TextChunk.is_bold chunk && Line.has_text chunk.
Proof.
  unfold Line.bold_ratio. cbn [Line.chunks]. rewrite !filter_cons, !filter_nil.
  destruct (Line.has_text chunk) eqn:Ht.
  - pose proof (has_text_weight chunk Ht) as Hpos.
    rewrite decide_True by done. rewrite fmap_cons. cbn [fmap list_fmap sum_list_with id].
    rewrite Nat.add_0_r. rewrite (proj2 (Nat.eqb_neq _ 0)) by lia.
    destruct (TextChunk.is_bold chunk); cbn [andb].
    + rewrite decide_True by done. rewrite fmap_cons. cbn [fmap list_fmap sum_list_with id].
      rewrite Nat.add_0_r. apply Qle_bool_iff. unfold Qle. cbn [Qnum Qden].
      rewrite <- (positive_nat_Z (Pos.of_nat _)), Nat2Pos.id by lia. lia.
    + rewrite decide_False by done. cbn. done.
  - rewrite andb_false_r. rewrite decide_False by done. cbn. done.
Qed.

Lemma text_line_to_line_gate_aux text_line page_number page_height line :
  _text_line_to_line text_line page_number page_height = Some line →
  Line.page line = page_number ∧ length (Line.chunks line) = 1.
Proof.
  unfold _text_line_to_line. cbv zeta.
  destruct (Py.is_empty (LTTextLine.get_text text_line)); [done|].
  destruct (Py.is_empty (Py.strip _)); [done|].
  destruct (Py.startswith _ _); [done|].
  destruct (LTTextLine.bbox text_line) as [[[x0 y0] x1] y1].
  by intros [= <-].
Qed.

End LayoutFacts.

(** X20. Whether a font counts as bold depends on its name without
    regard to letter case: a name that holds the word bold, black or
    heavy, in any mix of cases and anywhere in the name, is bold, and a
    missing or empty name is not. *)
Theorem is_bold_font_any_case (before word after : string) :
  _is_bold_font None = false
  ∧ _is_bold_font (Some "") = false
  ∧ _is_bold_font (Some (lower_string word)) = _is_bold_font (Some word)
  ∧ (lower_string word = "bold" ∨ lower_string word = "black"
     ∨ lower_string word = "heavy" →
     _is_bold_font (Some (before +:+ word +:+ after)) = true).
Proof.
  split_and!; [done..| |].
  - unfold _is_bold_font. by rewrite lower_string_empty, lower_string_idempotent.
  - intros Hword. unfold _is_bold_font.
    assert (Py.is_empty (before +:+ word +:+ after) = false) as ->.
    { destruct before; [|done]. destruct word; [|done].
      by destruct Hword as [?|[?|?]]. }
    rewrite !lower_string_app.
    destruct Hword as [-> | [-> | ->]]; rewrite contains_app; by rewrite ?orb_true_r.
Qed.

(** X21. A line taken from the layout has a single chunk, on the page
    and at the top of the line; its top and the width of its chunk are
    not negative, its text is the text of the chunk, and it passes the
    font size and bold gate of the heading detector exactly when the
    chunk is 14 points or more, is bold and has text. *)
Theorem text_line_to_line_gate (text_line : LTTextLine.t) (page_number : Z)
    (page_height : Q) (line : Line.t) :
  _text_line_to_line text_line page_number page_height = Some line →
  ∃ chunk,
    Line.chunks line = [chunk]
    ∧ Line.page line = page_number ∧ TextChunk.page chunk = page_number
    ∧ TextChunk.top chunk = Line.top line
    ∧ (0 <= Line.top line)%Q ∧ (0 <= TextChunk.width chunk)%Q
    ∧ Line.text line = TextChunk.text chunk
    ∧ Line.max_font_size line = TextChunk.font_size chunk
    ∧ prominent line
      = Qleb 14 (TextChunk.font_size chunk) && TextChunk.is_bold chunk
        && Line.has_text chunk.
Proof.
  unfold _text_line_to_line. cbv zeta.
  destruct (Py.is_empty (LTTextLine.get_text text_line)); [done|].
  destruct (Py.is_empty (Py.strip _)); [done|].
  destruct (Py.startswith _ _); [done|].
  destruct (LTTextLine.bbox text_line) as [[[x0 y0] x1] y1].
  intros [= <-]. eexists. split_and!; [reflexivity|done|done|done|..].
  - apply Qmax2_nonneg.
  - apply Qmax2_nonneg.
  - unfold Line.text, Line.text_st, Line.sort_chunks, Line.sorted_chunks.
    cbn [Line.chunks Py.sort Py.sort_insert fst Line.text_parts TextChunk.text].
    by destruct (strip_char nul _).
  - done.
  - unfold prominent. rewrite single_chunk_ratio. cbn [Line.max_font_size Line.chunks foldl].
    by rewrite andb_assoc.
Qed.

Lemma text_line_to_line_gate_witness :
  ∃ chunk,
    Line.chunks (Line.mk 1 84 [TextChunk.mk 1 84 72 58 "4 Scope" 16 true]) = [chunk]
    ∧ Line.page (Line.mk 1 84 [TextChunk.mk 1 84 72 58 "4 Scope" 16 true]) = 1%Z
    ∧ TextChunk.page chunk = 1%Z
    ∧ TextChunk.top chunk = Line.top (Line.mk 1 84 [TextChunk.mk 1 84 72 58 "4 Scope" 16 true])
    ∧ (0 <= Line.top (Line.mk 1 84 [TextChunk.mk 1 84 72 58 "4 Scope" 16 true]))%Q
    ∧ (0 <= TextChunk.width chunk)%Q
    ∧ Line.text (Line.mk 1 84 [TextChunk.mk 1 84 72 58 "4 Scope" 16 true])
      = TextChunk.text chunk
    ∧ Line.max_font_size (Line.mk 1 84 [TextChunk.mk 1 84 72 58 "4 Scope" 16 true])
      = TextChunk.font_size chunk
    ∧ prominent (Line.mk 1 84 [TextChunk.mk 1 84 72 58 "4 Scope" 16 true])
      = Qleb 14 (TextChunk.font_size chunk) && TextChunk.is_bold chunk
        && Line.has_text chunk.
Proof.
  apply (text_line_to_line_gate bold_text_line 1 800). vm_compute. reflexivity.
Defined.

(** X22. The lines read from the pages of a document come out in the
    order of their keys: by page, then from the top of the page down,
    then from the left.  They are the lines taken from the text lines of
    the pages, each of them once, every one with a single chunk and
    with the number of its page, counted from 1. *)
Theorem extract_lines_sorted (pages : list LTPage.t) :
  key_sorted line_key line_key_lt (extract_lines_from_pdf pages)
  ∧ extract_lines_from_pdf pages ≡ₚ concat (imap page_lines pages)
  ∧ Forall (fun line => (1 ≤ Line.page line ≤ Z.of_nat (length pages))%Z
                        ∧ length (Line.chunks line) = 1)
      (extract_lines_from_pdf pages).
Proof.
  unfold extract_lines_from_pdf. split_and!.
  - apply sort_sorted; [apply line_key_lt_asym|apply line_key_lt_cotrans].
  - apply sort_perm.
  - rewrite sort_perm. apply Forall_forall. intros line Hline.
    apply elem_of_concat in Hline as (ls & Hls & Hline).
    apply list_elem_of_lookup in Hls as [i Hi].
    apply list_lookup_imap_Some in Hi as (page & Hpage & ->).
    apply lookup_lt_Some in Hpage.
    unfold page_lines in Hline. apply list_elem_of_omap in Hline as (tl & _ & Hline).
    destruct (text_line_to_line_gate_aux _ _ _ _ Hline) as [-> Hlen].
    split; [lia|done].
Qed.

(** ** The title of a heading *)

Section TitleFacts.

Lemma lookahead_parts candidates title_parts consumed title_parts' consumed' :
  lookahead candidates title_parts consumed = (title_parts', consumed') →
  consumed ≤ consumed'
  ∧ title_parts'
    = title_parts
      ++ filter (fun t => Py.is_empty t = false)
           (Line.cleaned_text <$> take (consumed' - consumed) candidates).
Proof.
  revert title_parts consumed.
  induction candidates as [|c rest IH]; intros title_parts consumed; cbn [lookahead]; cbv zeta.
  - intros [= <- <-]. split; [lia|]. by rewrite take_nil, app_nil_r.
  - destruct (Py.is_empty (Line.cleaned_text c)) eqn:Hblank.
    + intros Hrest. destruct (IH _ _ Hrest) as [Hle ->]. split; [lia|].
      replace (consumed' - consumed) with (S (consumed' - (consumed + 1))) by lia.
      cbn [take]. rewrite fmap_cons, filter_cons, decide_False; [done|].
      by rewrite Hblank.
    + destruct (prominent c).
      * destruct (Re.matches (Line.cleaned_text c)).
        -- intros [= <- <-]. split; [lia|].
           by rewrite Nat.sub_diag, take_0, app_nil_r.
        -- intros Hrest. destruct (IH _ _ Hrest) as [Hle ->]. split; [lia|].
           replace (consumed' - consumed) with (S (consumed' - (consumed + 1))) by lia.
           cbn [take]. rewrite fmap_cons, filter_cons, decide_True by done.
           by rewrite <- app_assoc.
      * intros [= <- <-]. split; [lia|].
        by rewrite Nat.sub_diag, take_0, app_nil_r.
Qed.

End TitleFacts.

(** X23. The title of a detected heading is what follows the number
    on its own line, trimmed; when nothing follows, it is made of the
    texts of the lines the heading consumes after its own, the blank
    ones left out, joined by single spaces and trimmed. *)
Theorem heading_title (lines : list Line.t) (h : Heading) :
  h ∈ find_headings lines →
  ∃ line group2,
    lines !! line_index h = Some line
    ∧ Re.HEADING_RE_match (Line.cleaned_text line) = Some (identifier h, group2)
    ∧ if Py.is_empty (Py.strip (default "" group2))
      then title h
           = Py.strip (Py.join " "
               (filter (fun t => Py.is_empty t = false)
                  (Line.cleaned_text
                     <$> slice lines (line_index h + 1) (line_index h + line_count h))))
      else title h = Py.strip (default "" group2) ∧ line_count h = 1.
Proof.
  change (find_headings lines) with (headings_from lines 0). intros Hh.
  destruct (headings_from_emitted lines 0 h Hh) as (_ & line & Hline & Hscan).
  destruct (scan_line_emit lines _ _ _ Hscan) as (group2 & Hm & _ & Htitle & _).
  exists line, group2. split_and!; [done..|].
  unfold read_title in Htitle.
  destruct (Py.is_empty (Py.strip (default "" group2))).
  - destruct (lookahead _ _ _) as [parts consumed] eqn:Hlook.
    injection Htitle as <- <-.
    destruct (lookahead_parts _ _ _ _ _ Hlook) as [Hle ->]. cbn [app].
    unfold slice.
    by replace (line_index h + consumed - (line_index h + 1)) with (consumed - 1) by lia.
  - by injection Htitle as <- <-.
Qed.

Lemma heading_title_witness :
  ∃ line group2,
    stacked_title_lines !! 0 = Some line
    ∧ Re.HEADING_RE_match (Line.cleaned_text line) = Some ("6", group2)
    ∧ if Py.is_empty (Py.strip (default "" group2))
      then "Tests and inspections"
           = Py.strip (Py.join " "
               (filter (fun t => Py.is_empty t = false)
                  (Line.cleaned_text <$> slice stacked_title_lines (0 + 1) (0 + 4))))
      else "Tests and inspections" = Py.strip (default "" group2) ∧ 4 = 1.
Proof.
  apply (heading_title stacked_title_lines (mkHeading "6" "Tests and inspections" 0 4)).
  vm_compute. left.
Defined.

(** ** The snippet of a table cell *)

Section SnippetFacts.

Lemma startswith_refl s : Py.startswith s s = true.
Proof. induction s as [|c s IH]; [done|]. cbn. unfold Py.eqc. by rewrite Ascii.eqb_refl. Qed.

Lemma startswith_prefix limit s : Py.startswith s (prefix limit s) = true.
Proof.
  revert s. induction limit as [|limit IH]; intros [|c s]; try done.
  cbn. unfold Py.eqc. by rewrite Ascii.eqb_refl, IH.
Qed.

Lemma startswith_rstrip s t :
  Py.startswith s t = true → Py.startswith s (Py.rstrip t) = true.
Proof.
  revert s. induction t as [|c t IH]; intros s; [done|].
  destruct s as [|d s]; [done|]. cbn [Py.startswith].
  intros [Hc Ht]%andb_true_iff. cbn [Py.rstrip].
  specialize (IH s Ht). destruct (Py.rstrip t) as [|e r].
  - destruct (Py.isspace c); [done|]. cbn [Py.startswith]. by rewrite Hc.
  - cbn [Py.startswith] in *. by rewrite Hc, IH.
Qed.

Lemma length_prefix limit s : String.length (prefix limit s) ≤ limit.
Proof.
  revert s. induction limit as [|limit IH]; intros [|c s]; cbn; try lia.
  specialize (IH s). lia.
Qed.

Lemma length_rstrip s : String.length (Py.rstrip s) ≤ String.length s.
Proof.
  induction s as [|c s IH]; [done|]. cbn [Py.rstrip].
  destruct (Py.rstrip s) as [|e r]; [destruct (Py.isspace c)|]; cbn in *; lia.
Qed.

End SnippetFacts.

(** X24. A value of ASCII characters no longer than the limit is
    shown whole and not flagged.  A longer one is flagged, and what is
    shown before the mark is a prefix of the value, at most as long as
    the limit, that is empty or ends with a character other than white
    space. *)
Theorem truncate_text_snippet (value : string) (limit : nat) :
  all_ascii value = true →
  (String.length value ≤ limit → truncate_text value limit = (value, false))
  ∧ (limit < String.length value →
     ∃ kept,
       truncate_text value limit = (kept +:+ ellipsis_mark, true)
       ∧ Py.startswith value kept = true
       ∧ String.length kept ≤ limit
       ∧ (Py.is_empty kept = true ∨ ends_solid kept = true)).
Proof.
  intros _. unfold truncate_text. split.
  - intros Hle. by rewrite (proj2 (Nat.leb_le _ _) Hle).
  - intros Hlt. rewrite (proj2 (Nat.leb_gt _ _) Hlt).
    exists (Py.rstrip (prefix limit value)). split_and!; [done| | |].
    + apply startswith_rstrip, startswith_prefix.
    + pose proof (length_rstrip (prefix limit value)).
      pose proof (length_prefix limit value). lia.
    + destruct (rstrip_cases (prefix limit value)) as [->|?]; [by left|by right].
Qed.

Lemma truncate_text_snippet_witness :
  (String.length "Scope of the standard" ≤ 10 →
   truncate_text "Scope of the standard" 10 = ("Scope of the standard", false))
  ∧ (10 < String.length "Scope of the standard" →
     ∃ kept,
       truncate_text "Scope of the standard" 10 = (kept +:+ ellipsis_mark, true)
       ∧ Py.startswith "Scope of the standard" kept = true
       ∧ String.length kept ≤ 10
       ∧ (Py.is_empty kept = true ∨ ends_solid kept = true)).
Proof. apply (truncate_text_snippet "Scope of the standard" 10). reflexivity. Defined.

(** ** The largest font size of a line *)

(** X25. The largest font size of a line is 0 for a line without
    chunks; otherwise it is the font size of one of the chunks, and no
    chunk has a larger one. *)
Theorem max_font_size_largest (l : Line.t) :
  (Line.chunks l = [] → Line.max_font_size l = 0%Q)
  ∧ (Line.chunks l ≠ [] →
     (∀ d, d ∈ Line.chunks l → (TextChunk.font_size d <= Line.max_font_size l)%Q)
     ∧ ∃ d, d ∈ Line.chunks l ∧ Line.max_font_size l = TextChunk.font_size d).
Proof.
  unfold Line.max_font_size. destruct (Line.chunks l) as [|c rest]; split; try done.
  intros _.
  pose proof (max_font_size_fold (TextChunk.font_size c) rest) as Hfold.
  cbv zeta in Hfold. destruct Hfold as [[Hinit Hrest] Hattained]. split.
  - intros d [->|Hd]%elem_of_cons; [done|by apply Hrest].
  - destruct Hattained as [->|(d & Hd & ->)].
    + exists c. split; [left|done].
    + exists d. split; [by right|done].
Qed.

(** ** The order of the children *)

Section ChildrenOrder.
Variable lines : list Line.t.

Lemma first_before_snoc log x c1 c2 :
  first_before log c1 c2 → first_before (log ++ [x]) c1 c2.
Proof.
  intros (before & after & -> & H1 & H2 & Hne).
  exists before, (after ++ [x]). split_and!; [|done..].
  by rewrite <- app_assoc.
Qed.

Lemma empty_state_created : created_in_order (mkState [] ∅) [].
Proof.
  split; cbn [clause_by_id].
  - intros k. rewrite lookup_empty. split; [by intros [? [=]]|by intros ?%elem_of_nil].
  - intros k p i j c1 c2. by rewrite lookup_empty.
Qed.

Lemma build_step_created h rest st log :
  well_formed st → created_in_order st log →
  created_in_order (build_step lines h rest st) (log ++ [identifier h]).
Proof.
  intros Hwf [Hdom Hord].
  destruct (clause_by_id st !! identifier h) as [c0|] eqn:Hid.
  { rewrite build_step_seen by (by rewrite Hid). split.
    - intros k. rewrite elem_of_app, list_elem_of_singleton, Hdom.
      split; [by left|]. intros [?| ->]; [done|]. apply Hdom. by rewrite Hid.
    - intros k p i j c1 c2 Hk Hi Hj Hij. apply first_before_snoc. by eapply Hord. }
  assert (identifier h ∉ log) as Hfresh.
  { intros Hin%Hdom. rewrite Hid in Hin. by destruct Hin. }
  split.
  - intros k. rewrite build_step_dom, elem_of_app, list_elem_of_singleton, Hdom. done.
  - intros k p i j c1 c2 Hk Hi Hj Hij.
    destruct (build_step_children lines h rest st k p Hid Hk)
      as [[_ Hch]|(_ & p0 & Hk0 & [Hch|(_ & _ & Hch)])]; rewrite Hch in Hi, Hj.
    + done.
    + apply first_before_snoc. by eapply (Hord k p0 i j).
    + pose proof (lookup_lt_Some _ _ _ Hi) as Hlen_i.
      pose proof (lookup_lt_Some _ _ _ Hj) as Hlen_j.
      rewrite length_app in Hlen_i, Hlen_j. cbn [length] in Hlen_i, Hlen_j.
      destruct (decide (j < length (Clause.children p0))) as [Hjlt|Hjge].
      * rewrite lookup_app_l in Hi, Hj by lia.
        apply first_before_snoc. by eapply (Hord k p0 i j).
      * rewrite lookup_app_l in Hi by lia.
        rewrite lookup_app_r in Hj by lia.
        replace (j - length (Clause.children p0)) with 0 in Hj by lia.
        injection Hj as <-.
        assert (c1 ∈ log) as Hc1.
        { apply Hdom. apply list_elem_of_lookup_2 in Hi.
          by destruct (wf_children _ Hwf k p0 c1 Hk0 Hi) as [_ ?]. }
        destruct (list_elem_of_split_l _ _ Hc1) as (before & after & -> & Hbefore).
        exists before, (after ++ [identifier h]). split_and!.
        -- by rewrite <- app_assoc.
        -- done.
        -- intros Hin. apply Hfresh, elem_of_app. by left.
        -- intros ->. done.
Qed.

Lemma build_loop_created hs st log :
  well_formed st → created_in_order st log →
  created_in_order (build_loop lines hs st) (log ++ (identifier <$> hs)).
Proof.
  revert st log. induction hs as [|h hs IH]; intros st log Hwf Hst.
  - by rewrite app_nil_r.
  - cbn [build_loop]. rewrite fmap_cons, cons_middle, app_assoc.
    apply IH; [by apply build_step_well_formed|by apply build_step_created].
Qed.

End ChildrenOrder.

(** X26. The children of a clause stay in the order in which their
    headings first appear in the document; they are not sorted.  Of two
    children of a clause, the one listed first has a heading before any
    heading of the other. *)
Theorem children_in_document_order (lines : list Line.t) (k : string) (p : Clause.t)
    (i j : nat) (c1 c2 : string) :
  clause_by_id (build_state lines) !! k = Some p →
  Clause.children p !! i = Some c1 → Clause.children p !! j = Some c2 →
  i < j →
  ∃ before after,
    identifier <$> find_headings lines = before ++ c1 :: after
    ∧ (c1 ∉ before) ∧ (c2 ∉ before) ∧ c1 ≠ c2.
Proof.
  intros Hk Hi Hj Hij.
  pose proof (build_loop_created lines (find_headings lines) _ []
                empty_state_well_formed empty_state_created) as Hcreated.
  cbn [app] in Hcreated.
  apply (created_children _ _ Hcreated k p i j c1 c2 Hk Hi Hj Hij).
Qed.

Lemma children_in_document_order_witness :
  ∃ before after,
    identifier <$> find_headings children_lines = before ++ "4.10" :: after
    ∧ ("4.10" ∉ before) ∧ ("4.2" ∉ before) ∧ "4.10" ≠ "4.2".
Proof.
  apply (children_in_document_order children_lines "4"
           (Clause.mk "4" "Scope" [] ["4.10"; "4.2"]) 0 1 "4.10" "4.2").
  - reflexivity.
  - reflexivity.
  - reflexivity.
  - lia.
Defined.
